(** * The hot-region balance scheduler of PD: pending ledger, hot-peer
      filtering and operator building.

    A shallow embedding of the hot-region scheduler of package
    [schedulers].  The Go packages it consumes are rendered as modules
    ([metapb], [core], [statistics], [operator]); the scheduler itself
    lives at top level.  What those packages compute and the sources
    do not show (sorting, key comparison, operator construction, the
    store summaries) is a parameter of the section that needs it.

    Conventions.
    - [uint64] identifiers are [N]; Go [int], [int64] and
      [time.Duration] are [Z], which the code only compares; the
      [uint64] bucket loads are [Z] with their wrap-around written out.
    - [float64] weights and loads are rationals [Q]: the code only uses
      the constants 0 and 1, negation and comparisons on them.
    - A nil-able pointer is an [option]; a pointer whose identity
      matters ([*statistics.HotPeerStat], the key of the union map) is
      an address [positive] read through a heap function.
    - A Go [map] is a [gmap]; its iteration order, which Go leaves
      unspecified, is the order of [map_to_list] / [elements].
    - A call that may dereference nil, or loop for ever, returns an
      [option]: [None] is the absence of a result. *)

From Stdlib Require Import ZArith QArith List Bool Lia Permutation.
From stdpp Require Import gmap list sets.

#[local] Open Scope Z_scope.

(** ** Comparisons on [float64] values *)

Definition Qgtb (x y : Q) : bool := negb (Qle_bool x y).

(** ** Package [metapb] *)

Module metapb.

Inductive PeerRole := Voter | Learner | IncomingVoter | DemotingVoter.

Record Peer := { Id : N; StoreId : N; Role : PeerRole }.

(** The generated getter is nil-safe: a nil peer has store id 0. *)
Definition GetStoreId (p : option Peer) : N :=
  match p with
  | Some p => StoreId p
  | None => 0%N
  end.

End metapb.

(** ** Package [core] *)

Module core.

Definition Key := list Byte.byte.

Record RegionInfo := {
  GetID : N;
  GetPeers : list metapb.Peer;
  GetLeader : option metapb.Peer;
  GetApproximateSize : Z;
  GetStartKey : Key;
  GetEndKey : Key;
  (** [GetBuckets().GetKeys()] *)
  GetBucketKeys : list Key
}.

(** The first peer of the region located on [storeID], nil if none. *)
Definition GetStorePeer (r : RegionInfo) (storeID : N) : option metapb.Peer :=
  List.find (fun p => N.eqb (metapb.StoreId p) storeID) (GetPeers r).

(** The set of stores holding a peer, in the order a [range] over the
    resulting map visits it. *)
Definition GetStoreIDs (r : RegionInfo) : list N :=
  elements (list_to_set (map metapb.StoreId (GetPeers r)) : gset N).

End core.

(** ** Package [statistics] *)

Module statistics.

(** [Influence{Loads, Count}] *)
Record Influence := { Loads : list Q; Count : Q }.

(** [utils.RWType] *)
Inductive RWType := Write | Read.

(** A hot peer statistic.  [GetLoad dim] is its (denoised) load on a
    dimension; [IsNeedCoolDownTransferLeader minHotDegree rwTy] tells
    whether its leader was transferred too recently. *)
Record HotPeerStat := {
  StoreID : N;
  RegionID : N;
  GetLoad : nat -> Q;
  IsLeader : bool;
  IsNeedCoolDownTransferLeader : Z -> RWType -> bool
}.

(** [stat.ID()] is the id of the region the peer belongs to. *)
Definition ID (stat : HotPeerStat) : N := RegionID stat.

(** [StoreLoadDetail]: the store, whether it is a TiFlash store, and
    the addresses of its hot peers. *)
Record StoreLoadDetail := {
  GetID : N;
  IsTiFlash : bool;
  HotPeers : list positive
}.

End statistics.

(** ** Package [operator] *)

Module operator.

(** Modelled from the spec: the operator status enumeration and
    [IsEndStatus] of [operator/status.go], which is not among the
    sources.  Running operators are CREATED or STARTED; the terminal
    ones are SUCCESS and the non-success CANCELED, REPLACED, EXPIRED,
    TIMEOUT. *)
Inductive OpStatus :=
  CREATED | STARTED | SUCCESS | CANCELED | REPLACED | EXPIRED | TIMEOUT.

Definition IsEndStatus (s : OpStatus) : bool :=
  match s with
  | CREATED | STARTED => false
  | _ => true
  end.

(** [status == SUCCESS] *)
Definition isSUCCESS (s : OpStatus) : bool :=
  match s with
  | SUCCESS => true
  | _ => false
  end.

(** What an operator was created to do. *)
Inductive OpStep :=
| TransferLeader (targetStoreID : N)
| MoveLeader (srcStoreID : N) (dstPeer : metapb.Peer)
| MovePeer (srcStoreID : N) (dstPeer : metapb.Peer)
| SplitRegion (splitKeys : list core.Key).

(** Whether the step makes the operator one of kind [OpSplit]. *)
Definition isOpSplit (s : OpStep) : bool :=
  match s with
  | SplitRegion _ => true
  | _ => false
  end.

(** The label the scheduler gives to the non-split operators. *)
Inductive OpTyp := TypTransferLeader | TypMoveLeader | TypMovePeer.

(** What [decorateOperator] attaches to an operator: the priority
    level and the source and target labels of its direction counters. *)
Record Decoration := {
  PriorityHigh : bool;
  sourceLabel : N;
  targetLabel : N;
  isRevert : bool;
  typ : OpTyp
}.

(** An operator as the scheduler sees it.  [CheckAndGetStatus] and
    [GetReachTimeOf] are owned by the executor; the scheduler only
    reads them. *)
Record Operator := {
  RegionID : N;
  Step : OpStep;
  Decor : option Decoration;
  CheckAndGetStatus : OpStatus;
  GetReachTimeOf : OpStatus -> Z
}.

(** [op.Kind() == operator.OpSplit]: of the operators built here, the
    split operators are the ones of that kind. *)
Definition Kind_isSplit (op : Operator) : bool := isOpSplit (Step op).

End operator.

(** ** The pending ledger *)

Record pendingInfluence := {
  op : operator.Operator;
  froms : list N;
  to : N;
  origin : statistics.Influence;
  maxZombieDuration : Z
}.

Definition newPendingInfluence (op : operator.Operator) (froms : list N) (to : N)
    (infl : statistics.Influence) (maxZombieDur : Z) : pendingInfluence :=
  {| op := op; froms := froms; to := to; origin := infl;
     maxZombieDuration := maxZombieDur |}.

(** [calcPendingInfluence]: the weight of one operator and whether its
    entry is to be collected.  [now] is the clock read by
    [time.Since]. *)
Definition calcPendingInfluence (now : Z) (op : operator.Operator) (maxZombieDur : Z)
    : Q * bool :=
  let status := operator.CheckAndGetStatus op in
  if negb (operator.IsEndStatus status) then (1%Q, false)
  else
    let zombieDur := now - operator.GetReachTimeOf op status in
    let weight := if zombieDur >=? maxZombieDur then 0%Q else 1%Q in
    let needGC := Qeq_bool weight 0 in
    let weight := if negb (operator.isSUCCESS status) then 0%Q else weight in
    (weight, needGC).

Section SummaryPendingInfluence.

(** [statistics.StoreSummaryInfo] and its method [AddInfluence] are not
    among the sources; the pass is parametric in them. *)
Context {StoreSummaryInfo : Type}.
Variable AddInfluence : StoreSummaryInfo -> statistics.Influence -> Q -> StoreSummaryInfo.

(** [storeInfos[id].AddInfluence(infl, w)], guarded by the nil test the
    caller performs on the pointer [storeInfos[id]]. *)
Definition addInfluenceAt (storeInfos : gmap N StoreSummaryInfo) (id : N)
    (infl : statistics.Influence) (w : Q) : gmap N StoreSummaryInfo :=
  match storeInfos !! id with
  | Some info => <[id := AddInfluence info infl w]> storeInfos
  | None => storeInfos
  end.

(** The body of the inner loop of [summaryPendingInfluence], for one
    [from] of the entry [p] registered under [id]. *)
Definition summaryFrom (now : Z) (id : N) (p : pendingInfluence)
    (st : gmap N pendingInfluence * gmap N StoreSummaryInfo) (from : N)
    : gmap N pendingInfluence * gmap N StoreSummaryInfo :=
  let '(regionPendings, storeInfos) := st in
  let '(weight, needGC) := calcPendingInfluence now (op p) (maxZombieDuration p) in
  if needGC then (delete id regionPendings, storeInfos)
  else
    let storeInfos :=
      if Qgtb weight 0 then addInfluenceAt storeInfos from (origin p) (- weight)
      else storeInfos in
    let storeInfos :=
      if Qgtb weight 0 then addInfluenceAt storeInfos (to p) (origin p) weight
      else storeInfos in
    (regionPendings, storeInfos).

(** The body of the outer loop: every [from] of one entry. *)
Definition summaryEntry (now : Z)
    (st : gmap N pendingInfluence * gmap N StoreSummaryInfo)
    (e : N * pendingInfluence)
    : gmap N pendingInfluence * gmap N StoreSummaryInfo :=
  foldl (summaryFrom now e.1 e.2) st (froms e.2).

(** [summaryPendingInfluence]: one decay pass over the ledger.
    Deleting the entry under visit does not disturb the range. *)
Definition summaryPendingInfluence (now : Z)
    (regionPendings : gmap N pendingInfluence)
    (storeInfos : gmap N StoreSummaryInfo)
    : gmap N pendingInfluence * gmap N StoreSummaryInfo :=
  foldl (summaryEntry now) (regionPendings, storeInfos) (map_to_list regionPendings).

(** One call of [AddInfluence] on the summary of a store, if there is
    one. *)
Definition applyCall (storeInfos : gmap N StoreSummaryInfo)
    (c : N * statistics.Influence * Q) : gmap N StoreSummaryInfo :=
  addInfluenceAt storeInfos c.1.1 c.1.2 c.2.

End SummaryPendingInfluence.

(** *** What a decay pass does, entry by entry *)

(** The weight and the collection flag of an entry at time [now]. *)
Definition weightOf (now : Z) (p : pendingInfluence) : Q :=
  (calcPendingInfluence now (op p) (maxZombieDuration p)).1.
Definition needGC (now : Z) (p : pendingInfluence) : bool :=
  (calcPendingInfluence now (op p) (maxZombieDuration p)).2.

(** The calls of [AddInfluence] an entry gives rise to: store,
    influence and weight.  Every listed [from] store contributes one
    call on itself and one call on the [to] store. *)
Definition entryCalls (now : Z) (p : pendingInfluence)
    : list (N * statistics.Influence * Q) :=
  if needGC now p || negb (Qgtb (weightOf now p) 0) then []
  else
    flat_map (fun from => [(from, origin p, (- weightOf now p)%Q);
                           (to p, origin p, weightOf now p)])
      (froms p).

(** What the loop of a pass deletes from the ledger for one entry: the
    entry itself, when it is to be collected and lists a [from] store
    at which the loop can find that out. *)
Definition sweep (now : Z) (m : gmap N pendingInfluence) (e : N * pendingInfluence)
    : gmap N pendingInfluence :=
  if needGC now e.2 then match froms e.2 with [] => m | _ :: _ => delete e.1 m end
  else m.

(** ** The scheduler and its solver *)

Inductive opType := movePeer | transferLeader | moveLeader.

Inductive resourceType := writePeer | writeLeader | readPeer | readLeader.

(** [toResourceType]; the remaining pairs panic. *)
Definition toResourceType (rwTy : statistics.RWType) (opTy : opType) : option resourceType :=
  match rwTy, opTy with
  | statistics.Write, movePeer => Some writePeer
  | statistics.Write, transferLeader => Some writeLeader
  | statistics.Read, movePeer => Some readPeer
  | statistics.Read, transferLeader => Some readLeader
  | _, _ => None
  end.

Inductive splitStrategy := byLoad | bySize.

Definition splitProgressiveRank : Z := 5.
Definition defaultTopnPosition : Z := 10.

(** The package variable [topnPosition], at the value it is
    initialised with. *)
Definition topnPosition : Z := defaultTopnPosition.

(** Dimensions of a load vector ([utils.ByteDim], [KeyDim], [QueryDim]). *)
Definition ByteDim : nat := 0.
Definition KeyDim : nat := 1.
Definition QueryDim : nat := 2.

(** The part of [hotRegionSchedulerConfig] read below. *)
Record hotRegionSchedulerConfig := {
  getStoreStatZombieDuration : Z;
  getRegionsStatZombieDuration : Z;
  getMaxPeerNumber : Z
}.

(** [buckets.BucketStat].  [BucketLoads (rw, dim)] is the entry of
    [Loads] at the read (or write) byte statistic plus [dim]. *)
Record BucketStat := {
  StartKey : core.Key;
  EndKey : core.Key;
  BucketLoads : statistics.RWType * nat -> Z
}.

(** The part of the [sche.SchedulerCluster] interface read below. *)
Record SchedulerCluster := {
  GetRegion : N -> option core.RegionInfo;
  GetMaxMovableHotPeerSize : Z;
  BucketsStats : Z -> list N -> gmap N (list BucketStat)
}.

Record solution := {
  srcStore : option statistics.StoreLoadDetail;
  region : option core.RegionInfo;
  mainPeerStat : option positive;
  dstStore : option statistics.StoreLoadDetail;
  revertRegion : option core.RegionInfo;
  revertPeerStat : option positive;
  progressiveRank : Z
}.

(** The solver.  The ledger [bs.sche.regionPendings] is shared with the
    scheduler and is threaded separately as state. *)
Record balanceSolver := {
  cluster : SchedulerCluster;
  conf : hotRegionSchedulerConfig;
  rwTy : statistics.RWType;
  opTy : opType;
  resourceTy : resourceType;
  cur : solution;
  best : option solution;
  ops : list operator.Operator;
  firstPriority : nat;
  secondPriority : nat;
  maxPeerNum : Z;
  minHotDegree : Z
}.

(** [hotScheduler.tryAddPendingInfluence]: register the operator under
    its region unless the region is already pending. *)
Definition sche_tryAddPendingInfluence (regionPendings : gmap N pendingInfluence)
    (op : operator.Operator) (srcStore : list N) (dstStore : N)
    (infl : statistics.Influence) (maxZombieDur : Z)
    : bool * gmap N pendingInfluence :=
  let regionID := operator.RegionID op in
  match regionPendings !! regionID with
  | Some _ => (false, regionPendings)
  | None =>
      (true, <[regionID := newPendingInfluence op srcStore dstStore infl maxZombieDur]>
               regionPendings)
  end.

(** [calcMaxZombieDur]; it dereferences [bs.best.srcStore] for
    write-peer scheduling. *)
Definition calcMaxZombieDur (bs : balanceSolver) (best : solution) : option Z :=
  match resourceTy bs with
  | writeLeader =>
      if Nat.eqb (firstPriority bs) QueryDim
      then Some (getStoreStatZombieDuration (conf bs))
      else Some (getRegionsStatZombieDuration (conf bs))
  | writePeer =>
      src ← srcStore best;
      if statistics.IsTiFlash src
      then Some (getRegionsStatZombieDuration (conf bs))
      else Some (getStoreStatZombieDuration (conf bs))
  | _ => Some (getStoreStatZombieDuration (conf bs))
  end.

Section Solver.

(** The memory holding the hot peer statistics. *)
Variable deref : positive -> statistics.HotPeerStat.

(** [collectPendingInfluence]: the influence of a peer, assembled from
    its loads by helpers of [utils.RWType] that are not among the
    sources. *)
Variable collectPendingInfluence : balanceSolver -> statistics.HotPeerStat -> statistics.Influence.

(** [balanceSolver.tryAddPendingInfluence].  [None] is a nil
    dereference; otherwise the returned flag and the ledger as the call
    leaves it. *)
Definition tryAddPendingInfluence (bs : balanceSolver)
    (regionPendings : gmap N pendingInfluence)
    : option (bool * gmap N pendingInfluence) :=
  match best bs, ops bs with
  | Some best, op0 :: rest =>
      let isSplit := operator.Kind_isSplit op0 in
      sameEngine ← (if isSplit then Some true
                    else src ← srcStore best; dst ← dstStore best;
                         Some (eqb (statistics.IsTiFlash src) (statistics.IsTiFlash dst)));
      if negb sameEngine then Some (false, regionPendings)
      else
        maxZombieDur ← calcMaxZombieDur bs best;
        stores ← (if isSplit then
                    Some (r ← GetRegion (cluster bs) (operator.RegionID op0);
                          Some (core.GetStoreIDs r, 0%N))
                  else src ← srcStore best; dst ← dstStore best;
                       Some (Some ([statistics.GetID src], statistics.GetID dst)));
        match stores with
        | None => Some (false, regionPendings)
        | Some (srcStoreIDs, dstStoreID) =>
            peer ← mainPeerStat best;
            let infl := collectPendingInfluence bs (deref peer) in
            let '(ok, regionPendings) :=
              sche_tryAddPendingInfluence regionPendings op0 srcStoreIDs dstStoreID
                infl maxZombieDur in
            if negb ok then Some (false, regionPendings)
            else if isSplit then Some (true, regionPendings)
            else
              match revertPeerStat best, rest with
              | Some rpeer, op1 :: _ =>
                  let infl := collectPendingInfluence bs (deref rpeer) in
                  let '(ok, regionPendings) :=
                    sche_tryAddPendingInfluence regionPendings op1 srcStoreIDs dstStoreID
                      infl maxZombieDur in
                  if negb ok then Some (false, regionPendings)
                  else Some (true, regionPendings)
              | _, _ => Some (true, regionPendings)
              end
        end
  | _, _ => Some (false, regionPendings)
  end.

(** [balanceHotWritePeers] and [balanceHotWriteLeaders], from the
    solver as [solve] left it: the operators emitted and the ledger. *)
Definition balanceHotWrite (solver : balanceSolver)
    (regionPendings : gmap N pendingInfluence)
    : option (list operator.Operator * gmap N pendingInfluence) :=
  let nothing : list operator.Operator := [] in
  match ops solver with
  | [] => Some (nothing, regionPendings)
  | _ :: _ =>
      match tryAddPendingInfluence solver regionPendings with
      | Some (true, regionPendings) => Some (ops solver, regionPendings)
      | Some (false, regionPendings) => Some (nothing, regionPendings)
      | None => None
      end
  end.

(** [rank.betterThan], of the rank engine that is not among the
    sources: whether the solver's own best solution beats another. *)
Variable betterThan : balanceSolver -> option solution -> bool.

(** One attempt of [balanceHotReadRegions]: submit the first solver's
    batch, and on failure the second's. *)
Definition tryBoth (first second : balanceSolver)
    (regionPendings : gmap N pendingInfluence)
    : option (list operator.Operator * gmap N pendingInfluence) :=
  let nothing : list operator.Operator := [] in
  match tryAddPendingInfluence first regionPendings with
  | Some (true, regionPendings) => Some (ops first, regionPendings)
  | Some (false, regionPendings) =>
      match tryAddPendingInfluence second regionPendings with
      | Some (true, regionPendings) => Some (ops second, regionPendings)
      | Some (false, regionPendings) => Some (nothing, regionPendings)
      | None => None
      end
  | None => None
  end.

(** [balanceHotReadRegions], from the two solvers as [solve] left
    them. *)
Definition balanceHotReadRegions (leaderSolver peerSolver : balanceSolver)
    (regionPendings : gmap N pendingInfluence)
    : option (list operator.Operator * gmap N pendingInfluence) :=
  match ops leaderSolver, ops peerSolver with
  | [], [] => Some ([], regionPendings)
  | [], _ :: _ => balanceHotWrite peerSolver regionPendings
  | _ :: _, [] => balanceHotWrite leaderSolver regionPendings
  | _ :: _, _ :: _ =>
      if betterThan leaderSolver (best peerSolver)
      then tryBoth leaderSolver peerSolver regionPendings
      else tryBoth peerSolver leaderSolver regionPendings
  end.

(** *** Hot peers of a store *)

(** [sort.Slice] of the Go library, which promises a permutation
    ordered by [less] and no particular order among ties. *)
Variable sortSlice : (positive -> positive -> bool) -> list positive -> list positive.

(** The closure [appendItem] of [filterHotPeers]. *)
Definition appendItem (bs : balanceSolver) (regionPendings : gmap N pendingInfluence)
    (ret : list positive) (item : positive) : list positive :=
  match regionPendings !! statistics.ID (deref item) with
  | None =>
      if negb (statistics.IsNeedCoolDownTransferLeader (deref item)
                 (minHotDegree bs) (rwTy bs))
      then ret ++ [item]
      else ret
  | Some _ => ret
  end.

(** An inner loop of [sortHotPeers]: pop peers until one that is not in
    the union was added, or the list is exhausted.  The second loop
    also tests the size of the union before every pop. *)
Fixpoint takeFirst (union : gset positive) (firstSort : list positive)
    : gset positive * list positive :=
  match firstSort with
  | [] => (union, [])
  | peer :: firstSort =>
      if bool_decide (peer ∈ union) then takeFirst union firstSort
      else ({[peer]} ∪ union, firstSort)
  end.

Fixpoint takeSecond (maxPeerNum : Z) (union : gset positive) (secondSort : list positive)
    : gset positive * list positive :=
  match secondSort with
  | [] => (union, [])
  | peer :: rest =>
      if Z.of_nat (size union) <? maxPeerNum then
        if bool_decide (peer ∈ union) then takeSecond maxPeerNum union rest
        else ({[peer]} ∪ union, rest)
      else (union, secondSort)
  end.

(** One iteration of the outer loop of [sortHotPeers], on the union
    and what is left of the two lists. *)
Definition sortHotPeersBody (maxPeerNum : Z)
    (st : gset positive * list positive * list positive)
    : gset positive * list positive * list positive :=
  let '(union, firstSort, secondSort) := st in
  let '(union, firstSort) := takeFirst union firstSort in
  let '(union, secondSort) := takeSecond maxPeerNum union secondSort in
  (union, firstSort, secondSort).

(** The outer loop of [sortHotPeers]; [fuel] bounds its iterations and
    [None] means that they did not suffice. *)
Fixpoint sortHotPeersLoop (fuel : nat) (maxPeerNum : Z)
    (st : gset positive * list positive * list positive) : option (gset positive) :=
  if Z.of_nat (size st.1.1) <? maxPeerNum then
    match fuel with
    | O => None
    | S fuel => sortHotPeersLoop fuel maxPeerNum (sortHotPeersBody maxPeerNum st)
    end
  else Some st.1.1.

Definition sortHotPeers (fuel : nat) (bs : balanceSolver)
    (firstSort secondSort : list positive) : option (gset positive) :=
  sortHotPeersLoop fuel (maxPeerNum bs) (∅, firstSort, secondSort).

(** *** The zipper union, in the words of the specification

    Alternately take the unseen head of the first list and the unseen
    head of the second list until [maxPeerNum] distinct peers are
    collected.  The lists are never consumed: the unseen head is looked
    up afresh in the whole list. *)

Definition unseenHead (seen : gset positive) (l : list positive) : option positive :=
  List.find (fun p => negb (bool_decide (p ∈ seen))) l.

Definition takeUnseen (seen : gset positive) (l : list positive) : gset positive :=
  match unseenHead seen l with
  | Some p => {[p]} ∪ seen
  | None => seen
  end.

Definition zipperRound (maxPeerNum : Z) (seen : gset positive)
    (first second : list positive) : gset positive :=
  let seen := takeUnseen seen first in
  if Z.of_nat (size seen) <? maxPeerNum then takeUnseen seen second else seen.

Fixpoint zipperRounds (rounds : nat) (maxPeerNum : Z) (seen : gset positive)
    (first second : list positive) : gset positive :=
  match rounds with
  | O => seen
  | S rounds =>
      if Z.of_nat (size seen) <? maxPeerNum
      then zipperRounds rounds maxPeerNum (zipperRound maxPeerNum seen first second)
             first second
      else seen
  end.

(** Every round collects a peer, so [maxPeerNum] rounds are enough. *)
Definition zipperUnion (maxPeerNum : Z) (first second : list positive) : gset positive :=
  zipperRounds (Z.to_nat maxPeerNum) maxPeerNum ∅ first second.

(** The invariant that ties the loop to the zipper union: what is left
    of a sorted list lacks only peers that are in the union. *)
Definition leftOf (full : list positive) (union : gset positive) (rest : list positive)
    : Prop :=
  exists consumed, full = consumed ++ rest /\ forall p, p ∈ consumed -> p ∈ union.

(** The test of [appendItem]: the region of the peer is not pending and
    the peer needs no cool down. *)
Definition admissible (bs : balanceSolver) (regionPendings : gmap N pendingInfluence)
    (item : positive) : bool :=
  bool_decide (regionPendings !! statistics.ID (deref item) = None)
  && negb (statistics.IsNeedCoolDownTransferLeader (deref item)
             (minHotDegree bs) (rwTy bs)).

(** The two orders of [filterHotPeers]: descending load on a
    dimension. *)
Definition byLoadDesc (dim : nat) (a b : positive) : bool :=
  Qgtb (statistics.GetLoad (deref a) dim) (statistics.GetLoad (deref b) dim).

(** [filterHotPeers]: the filtered hot peers of a store, and the
    entries it writes into [bs.nthHotPeer[storeID]] (dimension and
    peer, in the order written).  [None]: no result (an index out of
    range, or [sortHotPeers] did not finish within [fuel]). *)
Definition filterHotPeers (fuel : nat) (bs : balanceSolver)
    (regionPendings : gmap N pendingInfluence)
    (storeLoad : statistics.StoreLoadDetail)
    : option (list positive * list (nat * positive)) :=
  let hotPeers := statistics.HotPeers storeLoad in
  let len := Z.of_nat (length hotPeers) in
  let sorted := (len >=? topnPosition) || (len >? maxPeerNum bs) in
  let firstSort :=
    if sorted then sortSlice (byLoadDesc (firstPriority bs)) hotPeers else [] in
  let secondSort :=
    if sorted then sortSlice (byLoadDesc (secondPriority bs)) hotPeers else [] in
  nth ← (if len >=? topnPosition then
           a ← firstSort !! Z.to_nat (topnPosition - 1);
           b ← secondSort !! Z.to_nat (topnPosition - 1);
           Some [(firstPriority bs, a); (secondPriority bs, b)]
         else Some []);
  if len >? maxPeerNum bs then
    union ← sortHotPeers fuel bs firstSort secondSort;
    Some (foldl (appendItem bs regionPendings) [] (elements union), nth)
  else Some (foldl (appendItem bs regionPendings) [] hotPeers, nth).

End Solver.

(** ** Building operators *)

Section OperatorBuilder.

Variable deref : positive -> statistics.HotPeerStat.

(** [keyutil.Between startKey endKey key]: the key lies strictly inside
    the range. *)
Variable Between : core.Key -> core.Key -> core.Key -> bool.

(** Whether the [operator] package refuses to create the operator with
    this step on this region (the [err != nil] of its constructors). *)
Variable createFails : core.RegionInfo -> operator.OpStep -> bool.

(** A fresh operator: CREATED, not decorated; its reach times are the
    executor's to fill in. *)
Definition NewOperator (region : core.RegionInfo) (step : operator.OpStep)
    : operator.Operator :=
  {| operator.RegionID := core.GetID region;
     operator.Step := step;
     operator.Decor := None;
     operator.CheckAndGetStatus := operator.CREATED;
     operator.GetReachTimeOf := fun _ => 0 |}.

(** The constructors of the [operator] package: the operator, or nil
    with an error. *)
Definition Create (region : core.RegionInfo) (step : operator.OpStep)
    : option operator.Operator :=
  if createFails region step then None else Some (NewOperator region step).

(** [isReadyToBuild] *)
Definition isReadyToBuild (bs : balanceSolver) : bool :=
  match srcStore (cur bs), dstStore (cur bs), mainPeerStat (cur bs), region (cur bs) with
  | Some src, Some dst, Some mainPeer, Some r =>
      if N.eqb (statistics.StoreID (deref mainPeer)) (statistics.GetID src)
         && N.eqb (core.GetID r) (statistics.ID (deref mainPeer))
      then
        match revertPeerStat (cur bs) with
        | None =>
            match revertRegion (cur bs) with
            | None => true
            | Some _ => false
            end
        | Some revertPeer =>
            N.eqb (statistics.StoreID (deref revertPeer)) (statistics.GetID dst)
            && match revertRegion (cur bs) with
               | Some rr => N.eqb (core.GetID rr) (statistics.ID (deref revertPeer))
               | None => false
               end
        end
      else false
  | _, _, _, _ => false
  end.

(** [splitBucketsOperator]: keep the keys inside the region and create
    the split operator on them. *)
Definition splitBucketsOperator (region : core.RegionInfo) (keys : list core.Key)
    : option operator.Operator :=
  let splitKeys :=
    List.filter (Between (core.GetStartKey region) (core.GetEndKey region)) keys in
  match splitKeys with
  | [] => None
  | _ :: _ => Create region (operator.SplitRegion splitKeys)
  end.

(** The bucket keys of a region that lie inside it. *)
Definition inRangeKeys (r : core.RegionInfo) : list core.Key :=
  List.filter (Between (core.GetStartKey r) (core.GetEndKey r)) (core.GetBucketKeys r).

(** [splitBucketBySize]: split at the middle of the bucket keys that
    lie inside the region. *)
Definition splitBucketBySize (region : core.RegionInfo) : option operator.Operator :=
  let splitKeys := inRangeKeys region in
  match splitKeys !! (length splitKeys / 2)%nat with
  | None => None
  | Some splitKey => splitBucketsOperator region [splitKey]
  end.

(** [uint64] addition. *)
Definition add64 (a b : Z) : Z := (a + b) mod 2 ^ 64.

(** The scan of [splitBucketsByLoad] for the half point of the total
    load: the accumulated load and the index reached. *)
Fixpoint halfPoint (half : Z) (dim : statistics.RWType * nat) (stats : list BucketStat) (acc : Z) (splitIdx : nat)
    : Z * nat :=
  match stats with
  | [] => (acc, splitIdx)
  | stat :: stats =>
      if acc <? half
      then halfPoint half dim stats (add64 acc (BucketLoads stat dim)) (S splitIdx)
      else (acc, splitIdx)
  end.

(** [bucketFirstStat]: the bucket statistic of the first priority, or
    of the second one when the first is the query rate. *)
Definition bucketFirstStat (bs : balanceSolver) : statistics.RWType * nat :=
  let base := rwTy bs in
  let offset :=
    if Nat.eqb (firstPriority bs) QueryDim then secondPriority bs else firstPriority bs in
  (base, offset).

(** [splitBucketsByLoad] *)
Definition splitBucketsByLoad (bs : balanceSolver) (region : core.RegionInfo)
    (bucketStats : list BucketStat) : option operator.Operator :=
  let startKey := core.GetStartKey region in
  let endKey := core.GetEndKey region in
  let stats :=
    List.filter (fun stat => Between startKey endKey (StartKey stat)
                             || Between startKey endKey (EndKey stat)) bucketStats in
  match stats with
  | [] => None
  | [_] => None
  | _ =>
      let dim := bucketFirstStat bs in
      let totalLoads := foldl (fun t stat => add64 t (BucketLoads stat dim)) 0 stats in
      let '(acc, splitIdx) := halfPoint (totalLoads / 2) dim stats 0 0%nat in
      match splitIdx with
      | O => None
      | S i =>
          match stats !! i with
          | None => None
          | Some stat =>
              let splitKey :=
                if Between startKey endKey (EndKey stat) then EndKey stat
                else StartKey stat in
              splitBucketsOperator region [splitKey]
          end
      end
  end.

(** [createSplitOperator]: one split operator per region for which the
    strategy finds one, and the solution marked with the split rank
    when there is any. *)
Definition createSplitOperator (bs : balanceSolver) (regions : list core.RegionInfo)
    (strategy : splitStrategy) : list operator.Operator * solution :=
  let ids := map core.GetID regions in
  let createFunc (r : core.RegionInfo) : option operator.Operator :=
    match strategy with
    | bySize => splitBucketBySize r
    | byLoad =>
        match BucketsStats (cluster bs) (minHotDegree bs) ids !! core.GetID r with
        | None => None
        | Some stats => splitBucketsByLoad bs r stats
        end
    end in
  let operators := omap createFunc regions in
  match operators with
  | [] => (operators, cur bs)
  | _ :: _ =>
      (operators,
       {| srcStore := srcStore (cur bs); region := region (cur bs);
          mainPeerStat := mainPeerStat (cur bs); dstStore := dstStore (cur bs);
          revertRegion := revertRegion (cur bs);
          revertPeerStat := revertPeerStat (cur bs);
          progressiveRank := splitProgressiveRank |})
  end.

(** [createOperator]: the label of the operator and the operator, nil
    when its constructor failed.  [None] is the nil dereference of a
    missing source peer. *)
Definition createOperator (r : core.RegionInfo) (srcStoreID dstStoreID : N)
    : option (operator.OpTyp * option operator.Operator) :=
  match core.GetStorePeer r dstStoreID with
  | Some _ =>
      Some (operator.TypTransferLeader, Create r (operator.TransferLeader dstStoreID))
  | None =>
      srcPeer ← core.GetStorePeer r srcStoreID;
      let dstPeer :=
        {| metapb.Id := 0; metapb.StoreId := dstStoreID;
           metapb.Role := metapb.Role srcPeer |} in
      if N.eqb (metapb.GetStoreId (core.GetLeader r)) srcStoreID
      then Some (operator.TypMoveLeader, Create r (operator.MoveLeader srcStoreID dstPeer))
      else Some (operator.TypMovePeer, Create r (operator.MovePeer srcStoreID dstPeer))
  end.

(** [decorateOperator] *)
Definition decorateOperator (op : operator.Operator) (isRevert : bool)
    (sourceLabel targetLabel : N) (typ : operator.OpTyp) : operator.Operator :=
  {| operator.RegionID := operator.RegionID op;
     operator.Step := operator.Step op;
     operator.Decor :=
       Some {| operator.PriorityHigh := true;
               operator.sourceLabel := sourceLabel;
               operator.targetLabel := targetLabel;
               operator.isRevert := isRevert;
               operator.typ := typ |};
     operator.CheckAndGetStatus := operator.CheckAndGetStatus op;
     operator.GetReachTimeOf := operator.GetReachTimeOf op |}.

(** The regions of the current solution that are too large to move. *)
Definition splitRegions (bs : balanceSolver) : list core.RegionInfo :=
  match opTy bs with
  | movePeer =>
      List.filter
        (fun r => core.GetApproximateSize r >? GetMaxMovableHotPeerSize (cluster bs))
        (option_list (region (cur bs)) ++ option_list (revertRegion (cur bs)))
  | _ => []
  end.

(** [buildOperators]: the operators of the current solution, and the
    solution as the call leaves it. *)
Definition buildOperators (bs : balanceSolver)
    : option (list operator.Operator * solution) :=
  let nothing : list operator.Operator := [] in
  if negb (isReadyToBuild bs) then Some (nothing, cur bs)
  else
    match splitRegions bs with
    | _ :: _ => Some (createSplitOperator bs (splitRegions bs) bySize)
    | [] =>
        src ← srcStore (cur bs);
        dst ← dstStore (cur bs);
        r ← region (cur bs);
        let srcStoreID := statistics.GetID src in
        let dstStoreID := statistics.GetID dst in
        created ← createOperator r srcStoreID dstStoreID;
        match created.2 with
        | None => Some (nothing, cur bs)
        | Some currentOp =>
            let mainOp := decorateOperator currentOp false srcStoreID dstStoreID created.1 in
            match revertRegion (cur bs) with
            | None => Some ([mainOp], cur bs)
            | Some rr =>
                created ← createOperator rr dstStoreID srcStoreID;
                match created.2 with
                | None => Some (nothing, cur bs)
                | Some currentOp =>
                    Some ([mainOp;
                           decorateOperator currentOp true dstStoreID srcStoreID created.1],
                          cur bs)
                end
            end
        end
    end.

(** The closure [allowRevertRegion] of [solve]: whether a region of the
    destination store may move back to the source store. *)
Definition allowRevertRegion (bs : balanceSolver) (r : core.RegionInfo) (srcStoreID : N)
    : bool :=
  match opTy bs with
  | transferLeader => bool_decide (is_Some (core.GetStorePeer r srcStoreID))
  | _ => bool_decide (core.GetStorePeer r srcStoreID = None)
  end.

(** The guard of [solve] on a candidate revert region: it is taken
    into the current solution only when it is another region than the
    main one and [allowRevertRegion] admits it; otherwise the loop
    goes on to the next candidate ([None]). *)
Definition withRevert (bs : balanceSolver) (revertPeer : positive)
    (rr : core.RegionInfo) : option solution :=
  main ← region (cur bs);
  src ← srcStore (cur bs);
  if N.eqb (core.GetID rr) (core.GetID main)
     || negb (allowRevertRegion bs rr (statistics.GetID src))
  then None
  else Some {| srcStore := srcStore (cur bs); region := region (cur bs);
               mainPeerStat := mainPeerStat (cur bs); dstStore := dstStore (cur bs);
               revertRegion := Some rr;
               revertPeerStat := Some revertPeer;
               progressiveRank := progressiveRank (cur bs) |}.

End OperatorBuilder.

(** ** The region of a hot peer *)

Section GetRegion.

(** [filter.IsRegionHealthyAllowPending] and [filter.IsRegionReplicated]
    of the [filter] package, which is not among the sources. *)
Variable IsRegionHealthyAllowPending : core.RegionInfo -> bool.
Variable IsRegionReplicated : SchedulerCluster -> core.RegionInfo -> bool.

(** [isRegionAvailable] *)
Definition isRegionAvailable (bs : balanceSolver) (region : option core.RegionInfo) : bool :=
  match region with
  | None => false
  | Some r =>
      if negb (IsRegionHealthyAllowPending r) then false
      else if negb (IsRegionReplicated (cluster bs) r) then false
      else true
  end.

(** [getRegion]: the region of a hot peer of the store [storeID], or
    nil ([None]) when it is not to be scheduled. *)
Definition getRegion (bs : balanceSolver) (peerStat : statistics.HotPeerStat) (storeID : N)
    : option core.RegionInfo :=
  let region := GetRegion (cluster bs) (statistics.ID peerStat) in
  if negb (isRegionAvailable bs region) then None
  else
    match region, opTy bs with
    | Some r, movePeer =>
        match core.GetStorePeer r storeID with
        | None => None
        | Some _ => region
        end
    | Some r, transferLeader =>
        if negb (N.eqb (metapb.GetStoreId (core.GetLeader r)) storeID) then None
        else region
    | _, _ => None
    end.

End GetRegion.

(** ** The search of [solve] *)

Section Solve.

Variable deref : positive -> statistics.HotPeerStat.
Variable Between : core.Key -> core.Key -> core.Key -> bool.
Variable createFails : core.RegionInfo -> operator.OpStep -> bool.

(** The methods [filterUniformStore] (its flag), [isAvailable] and
    [betterThan] of the rank engine, which is not among the sources. *)
Variable filterUniformStore : balanceSolver -> bool.
Variable isAvailable : balanceSolver -> solution -> bool.
Variable betterThan : balanceSolver -> option solution -> bool.

(** The solver with another current solution. *)
Definition withCur (bs : balanceSolver) (c : solution) : balanceSolver :=
  {| cluster := cluster bs; conf := conf bs; rwTy := rwTy bs; opTy := opTy bs;
     resourceTy := resourceTy bs; cur := c; best := best bs; ops := ops bs;
     firstPriority := firstPriority bs; secondPriority := secondPriority bs;
     maxPeerNum := maxPeerNum bs; minHotDegree := minHotDegree bs |}.

(** The solver with new operators and the solution they belong to. *)
Definition withBest (bs : balanceSolver) (newOps : list operator.Operator) (b : solution)
    : balanceSolver :=
  {| cluster := cluster bs; conf := conf bs; rwTy := rwTy bs; opTy := opTy bs;
     resourceTy := resourceTy bs; cur := cur bs; best := Some b; ops := newOps;
     firstPriority := firstPriority bs; secondPriority := secondPriority bs;
     maxPeerNum := maxPeerNum bs; minHotDegree := minHotDegree bs |}.

(** The closure [tryUpdateBestSolution] of [solve]: when the current
    solution is available and better than the best one and operators
    can be built for it, they become the operators of the solver and a
    copy of the current solution its best one.  [None] is a nil
    dereference in [buildOperators]. *)
Definition tryUpdateBestSolution (bs : balanceSolver) : option balanceSolver :=
  if filterUniformStore bs then Some bs
  else if isAvailable bs (cur bs) && betterThan bs (best bs) then
    built ← buildOperators deref Between createFails bs;
    let bs := withCur bs built.2 in
    match built.1 with
    | [] => Some bs
    | _ :: _ => Some (withBest bs built.1 (cur bs))
    end
  else Some bs.

(** The branch of [solve] for a main peer too hot to move: when a
    split by load of its region is found, [solve] returns it at once
    with the current solution as the best one ([Some]); otherwise the
    search goes on ([None]).  The main region is set at this point. *)
Definition splitTooHot (bs : balanceSolver) : option balanceSolver :=
  r ← region (cur bs);
  let built := createSplitOperator Between createFails bs [r] byLoad in
  match built.1 with
  | [] => None
  | _ :: _ => Some (withBest (withCur bs built.2) built.1 built.2)
  end.

(** The states of the solver in the course of [solve].  It starts
    without a best solution and without operators; it assigns to the
    fields of the current solution (stores, peers, regions, rank); it
    calls [tryUpdateBestSolution]; and, with the source store and the
    main peer set, it may take the branch of [splitTooHot]. *)
Inductive solving : balanceSolver -> Prop :=
| solving_start (bs : balanceSolver) :
    best bs = None -> ops bs = [] -> solving bs
| solving_assign (bs : balanceSolver) (c : solution) :
    solving bs -> solving (withCur bs c)
| solving_update (bs bs' : balanceSolver) :
    solving bs -> tryUpdateBestSolution bs = Some bs' -> solving bs'
| solving_split (bs bs' : balanceSolver) :
    solving bs -> is_Some (srcStore (cur bs)) -> is_Some (mainPeerStat (cur bs)) ->
    splitTooHot bs = Some bs' -> solving bs'.

End Solve.

(** ** A round of [solve] on the ledger of the scheduler *)



Section Round.

Variable deref : positive -> statistics.HotPeerStat.
Variable Between : core.Key -> core.Key -> core.Key -> bool.
Variable createFails : core.RegionInfo -> operator.OpStep -> bool.
Variable sortSlice : (positive -> positive -> bool) -> list positive -> list positive.
Variable filterUniformStore : balanceSolver -> bool.
Variable isAvailable : balanceSolver -> solution -> bool.
Variable betterThan : balanceSolver -> option solution -> bool.



End Round.

(** ** Source and destination stores *)

Section Stores.

(** The configuration items [getEnableForTiFlash], [getSrcToleranceRatio]
    and [getDstToleranceRatio], and the package constant
    [tiflashToleranceRatioCorrection]. *)
Variable confEnableForTiFlash : bool.
Variable confSrcToleranceRatio confDstToleranceRatio : Q.
Variable tiflashToleranceRatioCorrection : Q.

(** The load checks of a store against its expectation, which rest on
    the rank engine. *)
Variable checkSrcByPriorityAndTolerance : balanceSolver -> statistics.StoreLoadDetail -> Q -> bool.
Variable checkSrcHistoryLoadsByPriorityAndTolerance :
  balanceSolver -> statistics.StoreLoadDetail -> Q -> bool.
Variable checkDstByPriorityAndTolerance : balanceSolver -> statistics.StoreLoadDetail -> Q -> bool.
Variable checkDstHistoryLoadsByPriorityAndTolerance :
  balanceSolver -> statistics.StoreLoadDetail -> Q -> bool.

(** [filter.Target] on the store of a detail, for filters of the
    [filter] package. *)
Context {Filters : Type}.
Variable Target : Filters -> statistics.StoreLoadDetail -> bool.

(** The body of the loop of [filterSrcStores]: whether the store is
    taken ([continue] is [false]). *)
Definition srcSelected (bs : balanceSolver) (detail : statistics.StoreLoadDetail) : bool :=
  let srcToleranceRatio := confSrcToleranceRatio in
  match (if statistics.IsTiFlash detail then
           if negb confEnableForTiFlash then None
           else
             match rwTy bs, opTy bs with
             | statistics.Write, movePeer =>
                 Some (srcToleranceRatio + tiflashToleranceRatioCorrection)%Q
             | _, _ => None
             end
         else Some srcToleranceRatio) with
  | None => false
  | Some srcToleranceRatio =>
      if Nat.eqb (length (statistics.HotPeers detail)) 0 then false
      else if negb (checkSrcByPriorityAndTolerance bs detail srcToleranceRatio) then false
      else if negb (checkSrcHistoryLoadsByPriorityAndTolerance bs detail srcToleranceRatio)
           then false
      else true
  end.

(** [filterSrcStores] on the load details [bs.stLoadDetail]. *)
Definition filterSrcStores (bs : balanceSolver)
    (stLoadDetail : gmap N statistics.StoreLoadDetail)
    : gmap N statistics.StoreLoadDetail :=
  omap (fun detail => if srcSelected bs detail then Some detail else None) stLoadDetail.

(** The body of the loop of [pickDstStores]. *)
Definition dstSelected (bs : balanceSolver) (filters : Filters)
    (detail : statistics.StoreLoadDetail) : bool :=
  let dstToleranceRatio := confDstToleranceRatio in
  match (if statistics.IsTiFlash detail then
           if negb confEnableForTiFlash then None
           else
             match rwTy bs, opTy bs with
             | statistics.Write, movePeer =>
                 Some (dstToleranceRatio + tiflashToleranceRatioCorrection)%Q
             | _, _ => None
             end
         else Some dstToleranceRatio) with
  | None => false
  | Some dstToleranceRatio =>
      if Target filters detail then
        if negb (checkDstByPriorityAndTolerance bs detail dstToleranceRatio) then false
        else if negb (checkDstHistoryLoadsByPriorityAndTolerance bs detail dstToleranceRatio)
             then false
        else true
      else false
  end.

(** [pickDstStores]: the candidates taken, under the ids of their
    stores. *)
Definition pickDstStores (bs : balanceSolver) (filters : Filters)
    (candidates : list statistics.StoreLoadDetail) : gmap N statistics.StoreLoadDetail :=
  foldl (fun ret detail =>
           if dstSelected bs filters detail then <[statistics.GetID detail := detail]> ret
           else ret)
    ∅ candidates.

End Stores.

(** ** One round of the scheduler *)

Section Dispatch.

Context {StoreSummaryInfo : Type}.
Variable AddInfluence : StoreSummaryInfo -> statistics.Influence -> Q -> StoreSummaryInfo.
Variable deref : positive -> statistics.HotPeerStat.
Variable collectPendingInfluence : balanceSolver -> statistics.HotPeerStat -> statistics.Influence.
Variable betterThan : balanceSolver -> option solution -> bool.

(** [conf.isForbidRWType] *)
Variable isForbidRWType : statistics.RWType -> bool.

(** [newBalanceSolver] followed by [solve]: the solver as [solve]
    leaves it, on the ledger and the store summaries that
    [prepareForBalance] left. *)
Variable solved :
  statistics.RWType -> opType -> gmap N pendingInfluence -> gmap N StoreSummaryInfo ->
  balanceSolver.

(** [dispatch], as to the operators it returns and the ledger:
    [prepareForBalance] runs the decay pass on the summaries of the
    stores, then the scheduler of the resource type runs unless its
    kind of load is forbidden. *)
Definition dispatch (now : Z) (typ : resourceType)
    (regionPendings : gmap N pendingInfluence) (storeInfos : gmap N StoreSummaryInfo)
    : option (list operator.Operator * gmap N pendingInfluence) :=
  let '(regionPendings, storeInfos) :=
    summaryPendingInfluence AddInfluence now regionPendings storeInfos in
  let nothing : list operator.Operator := [] in
  match typ with
  | readLeader | readPeer =>
      if isForbidRWType statistics.Read then Some (nothing, regionPendings)
      else
        balanceHotReadRegions deref collectPendingInfluence betterThan
          (solved statistics.Read transferLeader regionPendings storeInfos)
          (solved statistics.Read movePeer regionPendings storeInfos)
          regionPendings
  | writePeer =>
      if isForbidRWType statistics.Write then Some (nothing, regionPendings)
      else
        balanceHotWrite deref collectPendingInfluence
          (solved statistics.Write movePeer regionPendings storeInfos) regionPendings
  | writeLeader =>
      if isForbidRWType statistics.Write then Some (nothing, regionPendings)
      else
        balanceHotWrite deref collectPendingInfluence
          (solved statistics.Write transferLeader regionPendings storeInfos) regionPendings
  end.

End Dispatch.

(** ** Concrete data for the examples below *)

Module ex.

(** Three stores; none is a TiFlash store except [store9]. *)
Definition store1 : statistics.StoreLoadDetail :=
  {| statistics.GetID := 1; statistics.IsTiFlash := false; statistics.HotPeers := [1%positive] |}.
Definition store2 : statistics.StoreLoadDetail :=
  {| statistics.GetID := 2; statistics.IsTiFlash := false; statistics.HotPeers := [2%positive] |}.
Definition store9 : statistics.StoreLoadDetail :=
  {| statistics.GetID := 9; statistics.IsTiFlash := true; statistics.HotPeers := [] |}.

Definition voter (id store : N) : metapb.Peer :=
  {| metapb.Id := id; metapb.StoreId := store; metapb.Role := metapb.Voter |}.
Definition learner (id store : N) : metapb.Peer :=
  {| metapb.Id := id; metapb.StoreId := store; metapb.Role := metapb.Learner |}.

Definition key (b : Byte.byte) : core.Key := [b].

(** Region 7 lives on stores 1 and 3 and is led from store 1; region 8
    lives on stores 2 and 3 and is led from store 3. *)
Definition region7 : core.RegionInfo :=
  {| core.GetID := 7; core.GetPeers := [voter 71 1; voter 73 3];
     core.GetLeader := Some (voter 71 1); core.GetApproximateSize := 96;
     core.GetStartKey := key Byte.x10; core.GetEndKey := key Byte.x20;
     core.GetBucketKeys := [key Byte.x10; key Byte.x12; key Byte.x14; key Byte.x16;
                            key Byte.x18; key Byte.x20] |}.
Definition region8 : core.RegionInfo :=
  {| core.GetID := 8; core.GetPeers := [learner 82 2; voter 83 3];
     core.GetLeader := Some (voter 83 3); core.GetApproximateSize := 96;
     core.GetStartKey := key Byte.x20; core.GetEndKey := key Byte.x30;
     core.GetBucketKeys := [key Byte.x24; key Byte.x28] |}.

(** The same regions grown beyond the movable size. *)
Definition grown (r : core.RegionInfo) : core.RegionInfo :=
  {| core.GetID := core.GetID r; core.GetPeers := core.GetPeers r;
     core.GetLeader := core.GetLeader r; core.GetApproximateSize := 1024;
     core.GetStartKey := core.GetStartKey r; core.GetEndKey := core.GetEndKey r;
     core.GetBucketKeys := core.GetBucketKeys r |}.

(** Peer 1 is region 7 on store 1, peer 2 is region 8 on store 2, and
    peers 3, 4, ... are further regions of store 1 with decreasing
    load; peer 6 needs to cool down. *)
Definition peer (store regionID : N) (load : Q) : statistics.HotPeerStat :=
  {| statistics.StoreID := store; statistics.RegionID := regionID;
     statistics.GetLoad := fun _ => load; statistics.IsLeader := false;
     statistics.IsNeedCoolDownTransferLeader := fun _ _ => false |}.
Definition cooling (store regionID : N) (load : Q) : statistics.HotPeerStat :=
  {| statistics.StoreID := store; statistics.RegionID := regionID;
     statistics.GetLoad := fun _ => load; statistics.IsLeader := true;
     statistics.IsNeedCoolDownTransferLeader := fun _ _ => true |}.
Definition deref (p : positive) : statistics.HotPeerStat :=
  match p with
  | 1%positive => peer 1 7 100
  | 2%positive => peer 2 8 90
  | 6%positive => cooling 1 106 74
  | _ => peer 1 (Npos p + 100) (80 - inject_Z (Zpos p))
  end.

(** Store 1 with the hot peers 3, 4, 5 and 6, and a ledger in which the
    region 103 of peer 3 is pending. *)
Definition busyStore : statistics.StoreLoadDetail :=
  {| statistics.GetID := 1; statistics.IsTiFlash := false;
     statistics.HotPeers := [5; 3; 6; 4]%positive |}.
Definition ledger103 : gmap N pendingInfluence :=
  {[ 103%N := newPendingInfluence
                {| operator.RegionID := 103; operator.Step := operator.TransferLeader 2;
                   operator.Decor := None; operator.CheckAndGetStatus := operator.STARTED;
                   operator.GetReachTimeOf := fun _ => 0 |}
                [1%N] 2 {| statistics.Loads := []; statistics.Count := 1 |} 30 ]}.

Definition infl (count : Q) : statistics.Influence :=
  {| statistics.Loads := []; statistics.Count := count |}.
Definition collect (_ : balanceSolver) (stat : statistics.HotPeerStat) : statistics.Influence :=
  infl (statistics.GetLoad stat 0).

Definition theCluster : SchedulerCluster :=
  {| GetRegion := fun id => if N.eqb id 7 then Some region7
                            else if N.eqb id 8 then Some region8 else None;
     GetMaxMovableHotPeerSize := 512;
     BucketsStats := fun _ _ => ∅ |}.
Definition theConf : hotRegionSchedulerConfig :=
  {| getStoreStatZombieDuration := 30; getRegionsStatZombieDuration := 60;
     getMaxPeerNumber := 1000 |}.

(** Move region 7 from store 1 to store 2, hedged by moving region 8
    from store 2 to store 1. *)
Definition hedged (dst : statistics.StoreLoadDetail) : solution :=
  {| srcStore := Some store1; region := Some region7; mainPeerStat := Some 1%positive;
     dstStore := Some dst; revertRegion := Some region8;
     revertPeerStat := Some 2%positive; progressiveRank := 1 |}.

Definition solver (opTy : opType) (cur : solution) (best : option solution)
    (ops : list operator.Operator) (maxPeerNum : Z) : balanceSolver :=
  {| cluster := theCluster; conf := theConf; rwTy := statistics.Write; opTy := opTy;
     resourceTy := writePeer; cur := cur; best := best; ops := ops;
     firstPriority := ByteDim; secondPriority := KeyDim;
     maxPeerNum := maxPeerNum; minHotDegree := 3 |}.

(** The operators of the hedged solution: region 7, led from store 1,
    moves with its leader to store 2; the learner of region 8 moves
    from store 2 to store 1 in return. *)
Definition mainOp : operator.Operator :=
  decorateOperator (NewOperator region7 (operator.MoveLeader 1 (voter 0 2)))
    false 1 2 operator.TypMoveLeader.
Definition revertOp : operator.Operator :=
  decorateOperator (NewOperator region8 (operator.MovePeer 2 (learner 0 1)))
    true 2 1 operator.TypMovePeer.
Definition hedgedOps : list operator.Operator := [mainOp; revertOp].

(** An operator on [regionID] that reached [status] at time [at_]. *)
Definition opIn (regionID : N) (status : operator.OpStatus) (at_ : Z) : operator.Operator :=
  {| operator.RegionID := regionID; operator.Step := operator.TransferLeader 2;
     operator.Decor := None; operator.CheckAndGetStatus := status;
     operator.GetReachTimeOf := fun _ => at_ |}.

Definition entry (regionID : N) (status : operator.OpStatus) (at_ : Z)
    (froms : list N) (to : N) : pendingInfluence :=
  newPendingInfluence (opIn regionID status at_) froms to (infl 1) 30.

(** The hedged solution with both regions grown. *)
Definition hedgedGrown : solution :=
  {| srcStore := Some store1; region := Some (grown region7);
     mainPeerStat := Some 1%positive; dstStore := Some store2;
     revertRegion := Some (grown region8); revertPeerStat := Some 2%positive;
     progressiveRank := 1 |}.

(** The [operator] package never refuses. *)
Definition neverFails (_ : core.RegionInfo) (_ : operator.OpStep) : bool := false.

(** The solver after [solve] found the hedged solution towards
    [dst]. *)
Definition hedgedSolver (dst : statistics.StoreLoadDetail) : balanceSolver :=
  solver movePeer (hedged dst) (Some (hedged dst)) hedgedOps 1000.

(** A ledger in which only the revert region 8 is pending. *)
Definition ledgerRevertPending : gmap N pendingInfluence :=
  {[ 8%N := entry 8 operator.STARTED 0 [3%N] 2 ]}.

(** The entry the main operator of the hedged solution is given. *)
Definition mainEntry : pendingInfluence :=
  newPendingInfluence mainOp [1%N] 2 (infl 100) 30.

(** A ledger whose only entry lists two [from] stores, and summaries
    of the three stores it names. *)
Definition twoFroms : pendingInfluence := entry 7 operator.STARTED 0 [1%N; 2%N] 3.
Definition ledgerTwoFroms : gmap N pendingInfluence := {[ 7%N := twoFroms ]}.
Definition zeroInfos : gmap N Q := {[ 1%N := 0%Q; 2%N := 0%Q; 3%N := 0%Q ]}.

(** A ledger with a running move of region 7 from store 1 to store 2,
    an operator on region 8 that timed out long ago, and one on region
    9 that was cancelled a moment ago. *)
Definition ledgerMixed : gmap N pendingInfluence :=
  {[ 7%N := entry 7 operator.STARTED 0 [1%N] 2;
     8%N := entry 8 operator.TIMEOUT 10 [2%N] 3;
     9%N := entry 9 operator.CANCELED 90 [3%N] 1 ]}.

(** A store summary that only counts the weights it received. *)
Definition countInfluence (sum : Q) (i : statistics.Influence) (w : Q) : Q :=
  Qred (sum + w * statistics.Count i).

(** [keyutil.Between] on keys compared byte by byte. *)
Fixpoint keyLt (a b : core.Key) : bool :=
  match a, b with
  | _, [] => false
  | [], _ :: _ => true
  | x :: a, y :: b =>
      (Byte.to_N x <? Byte.to_N y)%N || ((Byte.to_N x =? Byte.to_N y)%N && keyLt a b)
  end.
Definition Between (startKey endKey k : core.Key) : bool :=
  keyLt startKey k && (Nat.eqb (length endKey) 0 || keyLt k endKey).

(** An insertion sort, as one admissible behaviour of [sort.Slice]. *)
Fixpoint insertBy (less : positive -> positive -> bool) (x : positive) (l : list positive)
    : list positive :=
  match l with
  | [] => [x]
  | y :: l' => if less y x then y :: insertBy less x l' else x :: l
  end.
Definition sortSlice (less : positive -> positive -> bool) (l : list positive)
    : list positive :=
  foldr (insertBy less) [] l.

End ex.

(** ** Further concrete data *)

Module ex2.

(** The split operators of the hedged solution with both regions
    grown, and the solver after [solve] settled on them. *)
Definition split7 : operator.Operator :=
  NewOperator (ex.grown ex.region7) (operator.SplitRegion [ex.key Byte.x16]).
Definition split8 : operator.Operator :=
  NewOperator (ex.grown ex.region8) (operator.SplitRegion [ex.key Byte.x28]).
Definition splitSolver : balanceSolver :=
  ex.solver movePeer ex.hedgedGrown (Some ex.hedgedGrown) [split7; split8] 1000.

(** Every operator of this ledger ended long ago. *)
Definition ledgerEnded : gmap N pendingInfluence :=
  {[ 7%N := ex.entry 7 operator.SUCCESS 10 [1%N] 2;
     8%N := ex.entry 8 operator.TIMEOUT 20 [2%N; 3%N] 0;
     9%N := ex.entry 9 operator.CANCELED 30 [3%N] 1 ]}.

(** Peer 3 of store 1 belongs to region 103; the cluster lost the
    peers of that region on the stores 1 and 2. *)
Definition region103 : core.RegionInfo :=
  {| core.GetID := 103; core.GetPeers := [ex.voter 1035 5; ex.voter 1036 6];
     core.GetLeader := Some (ex.voter 1035 5); core.GetApproximateSize := 96;
     core.GetStartKey := ex.key Byte.x30; core.GetEndKey := ex.key Byte.x40;
     core.GetBucketKeys := [] |}.
Definition stray : solution :=
  {| srcStore := Some ex.store1; region := Some region103;
     mainPeerStat := Some 3%positive; dstStore := Some ex.store2;
     revertRegion := None; revertPeerStat := None; progressiveRank := 1 |}.

(** Three buckets of region 7 with their write loads, the second the
    hottest, and a cluster that reports them. *)
Definition bucket (startKey endKey : core.Key) (load : Z) : BucketStat :=
  {| StartKey := startKey; EndKey := endKey; BucketLoads := fun _ => load |}.
Definition buckets7 : list BucketStat :=
  [bucket (ex.key Byte.x10) (ex.key Byte.x14) 10;
   bucket (ex.key Byte.x14) (ex.key Byte.x18) 30;
   bucket (ex.key Byte.x18) (ex.key Byte.x20) 20].
(** The same buckets with loads whose sum wraps around in [uint64]. *)
Definition bucketsWrapped : list BucketStat :=
  [bucket (ex.key Byte.x10) (ex.key Byte.x14) (2 ^ 64 - 2);
   bucket (ex.key Byte.x14) (ex.key Byte.x18) 3;
   bucket (ex.key Byte.x18) (ex.key Byte.x20) 5].
Definition bucketCluster : SchedulerCluster :=
  {| GetRegion := GetRegion ex.theCluster;
     GetMaxMovableHotPeerSize := 512;
     BucketsStats := fun _ ids => if bool_decide (7%N ∈ ids) then {[ 7%N := buckets7 ]}
                                  else ∅ |}.
Definition bucketSolver : balanceSolver :=
  {| cluster := bucketCluster; conf := ex.theConf; rwTy := statistics.Write;
     opTy := movePeer; resourceTy := writePeer; cur := ex.hedged ex.store2;
     best := None; ops := []; firstPriority := ByteDim; secondPriority := KeyDim;
     maxPeerNum := 1000; minHotDegree := 3 |}.

(** A rank engine that finds no store uniform, every solution
    available and each better than the best so far; filters that let
    every region and every store pass; load checks that always hold. *)
Definition notUniform (_ : balanceSolver) : bool := false.
Definition available (_ : balanceSolver) (_ : solution) : bool := true.
Definition better (_ : balanceSolver) (_ : option solution) : bool := true.
Definition healthy (_ : core.RegionInfo) : bool := true.
Definition replicated (_ : SchedulerCluster) (_ : core.RegionInfo) : bool := true.
Definition loadOk (_ : balanceSolver) (_ : statistics.StoreLoadDetail) (_ : Q) : bool := true.
Definition anyTarget (_ : unit) (_ : statistics.StoreLoadDetail) : bool := true.
Definition allowed (_ : statistics.RWType) : bool := false.

(** The load details of the three stores. *)
Definition details : gmap N statistics.StoreLoadDetail :=
  {[ 1%N := ex.store1; 2%N := ex.store2; 9%N := ex.store9 ]}.

(** Moving region 7 from store 1 to store 2 without a region in
    return. *)
Definition plain : solution :=
  {| srcStore := Some ex.store1; region := Some ex.region7;
     mainPeerStat := Some 1%positive; dstStore := Some ex.store2;
     revertRegion := None; revertPeerStat := None; progressiveRank := 1 |}.

End ex2.

(** * Properties *)

(** A step through code that dereferences a pointer: either the
    pointer is nil and the call has no result, or the code goes on
    with what it points to. *)
Tactic Notation "case_bind" constr(e) "as" simple_intropattern(pat) :=
  destruct e as pat; cbn [mbind option_bind]; [| discriminate].
Tactic Notation "case_bind" constr(e) "as" simple_intropattern(pat) "by" ident(H) :=
  destruct e as pat eqn:H; cbn [mbind option_bind]; [| discriminate].

(** ** Weight of a pending entry *)

(** C4. [calcPendingInfluence] gives weight 1 and no collection while
    the operator has not ended.  Once it has ended, collection is
    signalled exactly when the time elapsed since it reached its status
    is at least [maxZombieDur]; a SUCCESS keeps weight 1 until then and
    drops to 0 afterwards; any other end status has weight 0 at once
    and is still kept (not collected) until the zombie time elapsed. *)
Theorem calcPendingInfluence_rule (now : Z) (o : operator.Operator) (maxZombieDur : Z) :
  let status := operator.CheckAndGetStatus o in
  let elapsed := now - operator.GetReachTimeOf o status in
  let r := calcPendingInfluence now o maxZombieDur in
  (operator.IsEndStatus status = false -> r = (1%Q, false))
  /\ (operator.IsEndStatus status = true ->
      (r.2 = true <-> maxZombieDur <= elapsed)
      /\ (status = operator.SUCCESS ->
          (elapsed < maxZombieDur -> r = (1%Q, false))
          /\ (maxZombieDur <= elapsed -> r = (0%Q, true)))
      /\ (status <> operator.SUCCESS ->
          r.1 = 0%Q /\ (elapsed < maxZombieDur -> r.2 = false))).
Proof.
  intros status elapsed r. subst r elapsed. unfold calcPendingInfluence.
  fold status. generalize (operator.GetReachTimeOf o status).
  generalize status. clear. intros status reach. split.
  - intros ->. reflexivity.
  - intros ->. cbn [negb].
    destruct (Z.geb_spec (now - reach) maxZombieDur) as [Hge | Hlt]; cbn.
    + split; [tauto |]. split.
      * intros ->. split; [lia | reflexivity].
      * intros Hne. split; [| lia]. by destruct status.
    + split; [split; [discriminate | lia] |]. split.
      * intros ->. split; [reflexivity | lia].
      * intros Hne. split; [| reflexivity]. by destruct status.
Qed.

(** The statuses of C4 at work: a running operator, a success within
    and beyond the zombie time, and a cancelled operator within it. *)
Example calcPendingInfluence_samples :
  calcPendingInfluence 100 (ex.opIn 7 operator.STARTED 0) 30 = (1%Q, false)
  /\ calcPendingInfluence 100 (ex.opIn 7 operator.SUCCESS 80) 30 = (1%Q, false)
  /\ calcPendingInfluence 100 (ex.opIn 7 operator.SUCCESS 70) 30 = (0%Q, true)
  /\ calcPendingInfluence 100 (ex.opIn 7 operator.CANCELED 80) 30 = (0%Q, false)
  /\ calcPendingInfluence 100 (ex.opIn 7 operator.TIMEOUT 70) 30 = (0%Q, true).
Proof. repeat split. Qed.

(** ** The decay pass *)

Lemma weightOf_cases (now : Z) (p : pendingInfluence) :
  weightOf now p = 0%Q \/ weightOf now p = 1%Q.
Proof.
  unfold weightOf, calcPendingInfluence.
  destruct (negb _); [by right |].
  destruct (_ >=? _); destruct (negb _); cbn; auto.
Qed.

Lemma weightOf_range (now : Z) (p : pendingInfluence) :
  (0 <= weightOf now p <= 1)%Q.
Proof. destruct (weightOf_cases now p) as [-> | ->]; split; discriminate. Qed.

Section DecayPass.

Context {StoreSummaryInfo : Type}.
Variable AddInfluence : StoreSummaryInfo -> statistics.Influence -> Q -> StoreSummaryInfo.

(** An entry that has to be collected is deleted at its first [from]
    and nothing is added for it. *)
Lemma summaryEntry_gc (now : Z) (id : N) (p : pendingInfluence)
    (m : gmap N pendingInfluence) (infos : gmap N StoreSummaryInfo) :
  needGC now p = true ->
  summaryEntry AddInfluence now (m, infos) (id, p)
  = (match froms p with [] => m | _ :: _ => delete id m end, infos).
Proof.
  intros Hgc. unfold summaryEntry. cbn [fst snd].
  assert (Hstep : forall (st : gmap N pendingInfluence * gmap N StoreSummaryInfo) from,
            summaryFrom AddInfluence now id p st from = (delete id st.1, st.2)).
  { intros [m' infos'] from. unfold summaryFrom.
    unfold needGC in Hgc.
    destruct (calcPendingInfluence now (op p) (maxZombieDuration p)) as [w gc].
    cbn in Hgc. by subst gc. }
  destruct (froms p) as [| from l]; [done |].
  cbn [foldl]. rewrite Hstep. cbn [fst snd].
  induction l as [| from' l IH]; [done |].
  cbn [foldl]. rewrite Hstep. cbn [fst snd]. by rewrite delete_delete_eq.
Qed.

(** An entry that is kept leaves the ledger alone and issues its
    calls in the order of its [froms]. *)
Lemma summaryEntry_keep (now : Z) (id : N) (p : pendingInfluence)
    (m : gmap N pendingInfluence) (infos : gmap N StoreSummaryInfo) :
  needGC now p = false ->
  summaryEntry AddInfluence now (m, infos) (id, p)
  = (m, foldl (applyCall AddInfluence) infos (entryCalls now p)).
Proof.
  intros Hgc. unfold summaryEntry, entryCalls. cbn [fst snd]. rewrite Hgc.
  cbn [orb].
  assert (Hstep : forall (st : gmap N pendingInfluence * gmap N StoreSummaryInfo) from,
            summaryFrom AddInfluence now id p st from
            = (st.1, if Qgtb (weightOf now p) 0
                     then applyCall AddInfluence
                            (applyCall AddInfluence st.2 (from, origin p, (- weightOf now p)%Q))
                            (to p, origin p, weightOf now p)
                     else st.2)).
  { intros [m' infos'] from. unfold summaryFrom, weightOf.
    unfold needGC in Hgc.
    destruct (calcPendingInfluence now (op p) (maxZombieDuration p)) as [w gc].
    cbn in Hgc. subst gc. cbn [fst snd]. by destruct (Qgtb w 0). }
  revert infos. induction (froms p) as [| from l IH]; intros infos.
  - by destruct (negb _).
  - cbn [foldl]. rewrite Hstep. cbn [fst snd]. rewrite IH.
    destruct (Qgtb (weightOf now p) 0); cbn [negb]; [| done].
    by cbn [flat_map app foldl].
Qed.

Lemma summaryPass_fold (now : Z) (l : list (N * pendingInfluence))
    (m : gmap N pendingInfluence) (infos : gmap N StoreSummaryInfo) :
  foldl (summaryEntry AddInfluence now) (m, infos) l
  = (foldl (sweep now) m l,
     foldl (applyCall AddInfluence) infos (flat_map (fun e => entryCalls now e.2) l)).
Proof.
  revert m infos. induction l as [| [id p] l IH]; intros m infos; [done |].
  cbn [foldl flat_map]. rewrite foldl_app. unfold sweep at 2. cbn [fst snd].
  destruct (needGC now p) eqn:Hgc.
  - rewrite summaryEntry_gc by done. rewrite IH. f_equal.
    unfold entryCalls. by rewrite Hgc.
  - rewrite summaryEntry_keep by done. by rewrite IH.
Qed.

Lemma sweep_lookup (now : Z) (l : list (N * pendingInfluence))
    (m : gmap N pendingInfluence) (id : N) (p : pendingInfluence) :
  foldl (sweep now) m l !! id = Some p <->
  m !! id = Some p
  /\ forall q, (id, q) ∈ l -> needGC now q = true -> froms q = [].
Proof.
  revert m. induction l as [| [i q] l IH]; intros m.
  - cbn. split; [| tauto]. intros H. split; [done |]. intros q Hq. by apply elem_of_nil in Hq.
  - cbn [foldl]. rewrite IH. unfold sweep. cbn [fst snd]. split.
    + intros [Hm Hl]. split.
      * destruct (needGC now q); [| done]. destruct (froms q); [done |].
        apply lookup_delete_Some in Hm. tauto.
      * intros q' Hq' Hgc. apply elem_of_cons in Hq' as [Heq | Hin]; [| eauto].
        injection Heq as <- <-. rewrite Hgc in Hm.
        destruct (froms q'); [done |]. by rewrite lookup_delete_eq in Hm.
    + intros [Hm Hl]. split.
      * destruct (needGC now q) eqn:Hgc; [| done].
        destruct (froms q) eqn:Hfr; [done |].
        destruct (decide (i = id)) as [-> | Hne].
        -- specialize (Hl q). rewrite Hfr in Hl. discriminate Hl; [left | done].
        -- by rewrite lookup_delete_ne.
      * intros q' Hq'. apply Hl. by right.
Qed.

(** C2, as amended.  A decay pass keeps exactly the entries that need
    no collection (and those listing no [from] store at all, which it
    never inspects), unchanged.  The store summaries are changed by the
    calls of the kept entries with positive weight and by nothing else:
    for every listed [from] store one call with [-w] on that store and
    one call with [+w] on the [to] store, each skipped when the store
    has no summary.  The weight [w] lies in [[0,1]].  For an entry with
    a single [from] store the calls are exactly one [-w] on the [from]
    store and one [+w] on the [to] store; an entry that is collected or
    weighs 0 gives rise to no call. *)
Theorem summaryPendingInfluence_effect (now : Z)
    (regionPendings : gmap N pendingInfluence) (storeInfos : gmap N StoreSummaryInfo) :
  let r := summaryPendingInfluence AddInfluence now regionPendings storeInfos in
  (forall id p, r.1 !! id = Some p <->
                regionPendings !! id = Some p /\ (needGC now p = true -> froms p = []))
  /\ r.2 = foldl (applyCall AddInfluence) storeInfos
             (flat_map (fun e => entryCalls now e.2) (map_to_list regionPendings))
  /\ (forall p, (0 <= weightOf now p <= 1)%Q)
  /\ (forall p from, froms p = [from] -> needGC now p = false -> weightOf now p = 1%Q ->
       entryCalls now p = [(from, origin p, (- (1))%Q); (to p, origin p, 1%Q)])
  /\ (forall p, needGC now p = true \/ weightOf now p = 0%Q -> entryCalls now p = []).
Proof.
  intros r. subst r. unfold summaryPendingInfluence. rewrite summaryPass_fold.
  cbn [fst snd]. split; [| split; [done | split; [| split]]].
  - intros id p. rewrite sweep_lookup. split.
    + intros [Hm Hl]. split; [done |]. apply Hl. by apply elem_of_map_to_list.
    + intros [Hm Hgc]. split; [done |]. intros q Hq.
      apply elem_of_map_to_list in Hq. rewrite Hm in Hq. injection Hq as <-.
      exact Hgc.
  - apply weightOf_range.
  - intros p from Hfr Hgc Hw. unfold entryCalls. by rewrite Hgc, Hw, Hfr.
  - intros p [Hgc | Hw]; unfold entryCalls; [by rewrite Hgc |].
    rewrite Hw. by rewrite orb_true_r.
Qed.

End DecayPass.

(** C2 at work at time 100, with a zombie time of 30: the running move
    takes 1 from store 1 and gives 1 to store 2; the operator that
    timed out at 10 is collected; the one cancelled at 90 stays in the
    ledger and weighs nothing. *)
Example summaryPendingInfluence_samples :
  summaryPendingInfluence ex.countInfluence 100 ex.ledgerMixed ex.zeroInfos
  = ({[ 7%N := ex.entry 7 operator.STARTED 0 [1%N] 2;
        9%N := ex.entry 9 operator.CANCELED 90 [3%N] 1 ]},
     {[ 1%N := (- (1))%Q; 2%N := 1%Q; 3%N := 0%Q ]}).
Proof. by vm_compute. Qed.

(** The claim C2 as stated fails on the entry of a split.  Submitting
    the split of region 7 registers an entry that lists the stores 3
    and 1 of the region as [from] stores and store 0 as [to] store.
    The decay pass keeps it with weight 1 and takes its influence, 100,
    from the summaries of the stores 1 and 3, once each; it adds the
    influence to no summary at all, there being no store 0: nothing is
    applied to the [to] store, where the claim has it applied exactly
    once. *)
Lemma summaryPendingInfluence_split_entry :
  let e := newPendingInfluence ex2.split7 [3%N; 1%N] 0 (ex.infl 100) 30 in
  tryAddPendingInfluence ex.deref ex.collect ex2.splitSolver ∅
  = Some (true, {[ 7%N := e ]})
  /\ calcPendingInfluence 100 (op e) (maxZombieDuration e) = (1%Q, false)
  /\ to e = 0%N
  /\ ex.zeroInfos !! 0%N = None
  /\ summaryPendingInfluence ex.countInfluence 100 {[ 7%N := e ]} ex.zeroInfos
     = ({[ 7%N := e ]}, {[ 1%N := (- (100))%Q; 2%N := 0%Q; 3%N := (- (100))%Q ]}).
Proof. repeat split; by vm_compute. Qed.

(** The update of the [to] store sits inside the loop over the [from]
    stores.  On an entry with two [from] stores whose [to] store has a
    summary it would be applied twice; no submission writes such an
    entry, since a move lists one [from] store and a split names store
    0 as [to] store. *)
Example summaryPendingInfluence_to_added_per_from :
  calcPendingInfluence 100 (op ex.twoFroms) (maxZombieDuration ex.twoFroms) = (1%Q, false)
  /\ (summaryPendingInfluence ex.countInfluence 100 ex.ledgerTwoFroms ex.zeroInfos).1
     = ex.ledgerTwoFroms
  /\ (summaryPendingInfluence ex.countInfluence 100 ex.ledgerTwoFroms ex.zeroInfos).2
     = {[ 1%N := (- (1))%Q; 2%N := (- (1))%Q; 3%N := 2%Q ]}
  /\ addInfluenceAt ex.countInfluence ex.zeroInfos 3 (origin ex.twoFroms) 1 !! 3%N
     = Some 1%Q.
Proof. repeat split; by vm_compute. Qed.

(** ** Submitting a batch to the ledger *)

Section Submit.

Variable deref : positive -> statistics.HotPeerStat.
Variable collectPendingInfluence : balanceSolver -> statistics.HotPeerStat -> statistics.Influence.

(** The scheduler's insert fails exactly on a pending region, and then
    leaves the ledger alone. *)
Lemma sche_tryAddPendingInfluence_false (regionPendings : gmap N pendingInfluence)
    (o : operator.Operator) (srcs : list N) (dst : N) (i : statistics.Influence) (z : Z) :
  is_Some (regionPendings !! operator.RegionID o) ->
  sche_tryAddPendingInfluence regionPendings o srcs dst i z = (false, regionPendings).
Proof. intros [e He]. unfold sche_tryAddPendingInfluence. by rewrite He. Qed.

Lemma sche_tryAddPendingInfluence_true (regionPendings : gmap N pendingInfluence)
    (o : operator.Operator) (srcs : list N) (dst : N) (i : statistics.Influence) (z : Z) :
  regionPendings !! operator.RegionID o = None ->
  sche_tryAddPendingInfluence regionPendings o srcs dst i z
  = (true, <[operator.RegionID o := newPendingInfluence o srcs dst i z]> regionPendings).
Proof. intros He. unfold sche_tryAddPendingInfluence. by rewrite He. Qed.

(** A conflict on the main operator drops the batch and leaves the
    ledger as it was. *)
Lemma tryAddPendingInfluence_main_conflict (bs : balanceSolver)
    (regionPendings regionPendings' : gmap N pendingInfluence)
    (op0 : operator.Operator) (rest : list operator.Operator) (ok : bool) :
  ops bs = op0 :: rest ->
  is_Some (regionPendings !! operator.RegionID op0) ->
  tryAddPendingInfluence deref collectPendingInfluence bs regionPendings
  = Some (ok, regionPendings') ->
  ok = false /\ regionPendings' = regionPendings.
Proof.
  intros Hops Hpending. unfold tryAddPendingInfluence. rewrite Hops.
  destruct (best bs) as [b |]; [| by intros [= <- <-]].
  destruct (operator.Kind_isSplit op0).
  - cbn [mbind option_bind negb].
    case_bind (calcMaxZombieDur bs b) as [z |].
    destruct (GetRegion _ _) as [r |]; cbn [mbind option_bind]; [| by intros [= <- <-]].
    case_bind (mainPeerStat b) as [peer |].
    rewrite sche_tryAddPendingInfluence_false by done. cbn [negb].
    by intros [= <- <-].
  - case_bind (srcStore b) as [src |].
    case_bind (dstStore b) as [dst |].
    destruct (eqb _ _); cbn [negb]; [| by intros [= <- <-]].
    case_bind (calcMaxZombieDur bs b) as [z |].
    case_bind (mainPeerStat b) as [peer |].
    rewrite sche_tryAddPendingInfluence_false by done. cbn [negb].
    by intros [= <- <-].
Qed.

(** A conflict on the revert operator, after the main operator was
    registered, reports failure and leaves the main entry behind. *)
Lemma tryAddPendingInfluence_revert_conflict (bs : balanceSolver)
    (regionPendings : gmap N pendingInfluence) (b : solution)
    (src dst : statistics.StoreLoadDetail) (peer rpeer : positive)
    (op0 op1 : operator.Operator) (rest : list operator.Operator) (z : Z) :
  best bs = Some b ->
  ops bs = op0 :: op1 :: rest ->
  operator.Kind_isSplit op0 = false ->
  srcStore b = Some src -> dstStore b = Some dst ->
  statistics.IsTiFlash src = statistics.IsTiFlash dst ->
  mainPeerStat b = Some peer -> revertPeerStat b = Some rpeer ->
  calcMaxZombieDur bs b = Some z ->
  regionPendings !! operator.RegionID op0 = None ->
  operator.RegionID op0 <> operator.RegionID op1 ->
  is_Some (regionPendings !! operator.RegionID op1) ->
  tryAddPendingInfluence deref collectPendingInfluence bs regionPendings
  = Some (false,
          <[operator.RegionID op0 :=
              newPendingInfluence op0 [statistics.GetID src] (statistics.GetID dst)
                (collectPendingInfluence bs (deref peer)) z]> regionPendings).
Proof.
  intros Hb Hops Hsplit Hsrc Hdst Hsame Hpeer Hrpeer Hz Hnone Hne Hpending.
  unfold tryAddPendingInfluence. rewrite Hb, Hops, Hsplit, Hsrc, Hdst, Hz, Hpeer, Hrpeer.
  cbn [mbind option_bind]. rewrite Hsame, eqb_reflx. cbn [negb].
  rewrite sche_tryAddPendingInfluence_true by done. cbn [negb].
  rewrite sche_tryAddPendingInfluence_false; [done |].
  by rewrite lookup_insert_ne.
Qed.

(** C9.  A batch whose first operator is no split is only registered
    when the source and the destination store of the best solution are
    of the same engine; when they differ, the call reports failure
    with the ledger untouched, the write schedulers emit nothing, and
    the read scheduler that tries this batch first goes on as if it had
    only the other solver's batch. *)
Theorem tryAddPendingInfluence_same_engine (bs : balanceSolver)
    (regionPendings : gmap N pendingInfluence) :
  (forall op0 rest regionPendings',
      ops bs = op0 :: rest -> operator.Kind_isSplit op0 = false ->
      tryAddPendingInfluence deref collectPendingInfluence bs regionPendings
      = Some (true, regionPendings') ->
      exists b src dst,
        best bs = Some b /\ srcStore b = Some src /\ dstStore b = Some dst
        /\ statistics.IsTiFlash src = statistics.IsTiFlash dst)
  /\ (forall op0 rest b src dst,
        best bs = Some b -> ops bs = op0 :: rest -> operator.Kind_isSplit op0 = false ->
        srcStore b = Some src -> dstStore b = Some dst ->
        statistics.IsTiFlash src <> statistics.IsTiFlash dst ->
        tryAddPendingInfluence deref collectPendingInfluence bs regionPendings
        = Some (false, regionPendings)
        /\ balanceHotWrite deref collectPendingInfluence bs regionPendings
           = Some ([], regionPendings)
        /\ forall other,
             tryBoth deref collectPendingInfluence bs other regionPendings
             = balanceHotWrite deref collectPendingInfluence other regionPendings
             \/ ops other = []).
Proof.
  split.
  - intros op0 rest rp' Hops Hsplit. unfold tryAddPendingInfluence.
    rewrite Hops, Hsplit.
    destruct (best bs) as [b |]; [| discriminate].
    case_bind (srcStore b) as [src |] by Hsrc.
    case_bind (dstStore b) as [dst |] by Hdst.
    destruct (eqb _ _) eqn:Heq; cbn [negb]; [| discriminate].
    intros _. exists b, src, dst. split; [done |]. split; [done |]. split; [done |].
    by apply eqb_prop.
  - intros op0 rest b src dst Hb Hops Hsplit Hsrc Hdst Hne.
    assert (Htry : tryAddPendingInfluence deref collectPendingInfluence bs regionPendings
                   = Some (false, regionPendings)).
    { unfold tryAddPendingInfluence. rewrite Hb, Hops, Hsplit, Hsrc, Hdst.
      cbn [mbind option_bind].
      destruct (eqb _ _) eqn:Heq; [| done]. by apply eqb_prop in Heq. }
    split; [done |]. split; [unfold balanceHotWrite; by rewrite Hops, Htry |].
    intros other. destruct (ops other) as [| o l] eqn:Hother; [by right |]. left.
    unfold tryBoth, balanceHotWrite. rewrite Htry, Hother.
    by destruct (tryAddPendingInfluence _ _ other regionPendings) as [[[] ?] |].
Qed.

End Submit.

(** C9 at work: the hedged solution between the two TiKV stores is
    registered, main region and revert region both; towards the
    TiFlash store 9 it is rejected with the ledger untouched. *)
Example tryAddPendingInfluence_engines :
  (exists regionPendings,
      tryAddPendingInfluence ex.deref ex.collect (ex.hedgedSolver ex.store2) ∅
      = Some (true, regionPendings)
      /\ dom regionPendings = {[ 7%N; 8%N ]})
  /\ tryAddPendingInfluence ex.deref ex.collect (ex.hedgedSolver ex.store9) ∅
     = Some (false, ∅).
Proof. split; [eexists; split; [reflexivity | by vm_compute] | reflexivity]. Qed.

(** The function taken alone, on a ledger no round hands to it: were
    the revert region 8 pending and the main region 7 free, submitting
    the hedged batch would report failure and emit nothing, yet leave
    the entry of the main operator behind (the code notes it:
    [TODO: Process operators atomically]).  Within a round the peers of
    a solution come out of [filterHotPeers] on the very ledger the
    batch is submitted to, which rules this out, as the last section
    shows. *)
Example tryAddPendingInfluence_partial_submit :
  ex.ledgerRevertPending !! 7%N = None
  /\ tryAddPendingInfluence ex.deref ex.collect (ex.hedgedSolver ex.store2)
       ex.ledgerRevertPending
     = Some (false, <[ 7%N := ex.mainEntry ]> ex.ledgerRevertPending)
  /\ balanceHotWrite ex.deref ex.collect (ex.hedgedSolver ex.store2)
       ex.ledgerRevertPending
     = Some ([], <[ 7%N := ex.mainEntry ]> ex.ledgerRevertPending)
  /\ (<[ 7%N := ex.mainEntry ]> ex.ledgerRevertPending) !! 7%N = Some ex.mainEntry.
Proof. repeat split; by vm_compute. Qed.

(** ** The union built by [sortHotPeers] *)

(** The first inner loop collects the unseen head of its list. *)
Lemma takeFirst_union (union : gset positive) (l : list positive) :
  (takeFirst union l).1 = takeUnseen union l.
Proof.
  unfold takeUnseen, unseenHead. induction l as [| p l IH]; [done |].
  cbn [takeFirst List.find]. by destruct (bool_decide (p ∈ union)).
Qed.

(** It pops only peers that are in the union it returns. *)
Lemma takeFirst_consumed (union : gset positive) (l : list positive) :
  exists consumed,
    l = consumed ++ (takeFirst union l).2
    /\ forall p, p ∈ consumed -> p ∈ (takeFirst union l).1.
Proof.
  induction l as [| p l IH].
  - exists []. split; [done |]. intros p Hp. by apply elem_of_nil in Hp.
  - cbn [takeFirst]. destruct (bool_decide (p ∈ union)) eqn:Hp.
    + destruct IH as (consumed & Hl & Hin). exists (p :: consumed). split.
      * cbn. by rewrite <- Hl.
      * intros q Hq. apply elem_of_cons in Hq as [-> | Hq]; [| by apply Hin].
        apply bool_decide_eq_true in Hp. rewrite takeFirst_union.
        unfold takeUnseen. destruct (unseenHead union l); set_solver.
    + exists [p]. split; [done |]. cbn [fst]. intros q Hq.
      apply list_elem_of_singleton in Hq as ->. apply elem_of_union_l.
      by apply elem_of_singleton.
Qed.

(** The second inner loop is the first one while the union is short of
    [maxPeerNum], and does nothing otherwise. *)
Lemma takeSecond_lt (maxPeerNum : Z) (union : gset positive) (l : list positive) :
  Z.of_nat (size union) < maxPeerNum ->
  takeSecond maxPeerNum union l = takeFirst union l.
Proof.
  intros Hlt. induction l as [| p l IH]; [done |].
  cbn [takeSecond takeFirst]. apply Z.ltb_lt in Hlt as Hb. rewrite Hb.
  by destruct (bool_decide (p ∈ union)).
Qed.

Lemma takeSecond_ge (maxPeerNum : Z) (union : gset positive) (l : list positive) :
  maxPeerNum <= Z.of_nat (size union) ->
  takeSecond maxPeerNum union l = (union, l).
Proof.
  intros Hge. destruct l as [| p l]; [done |].
  cbn [takeSecond]. apply Z.ltb_ge in Hge. by rewrite Hge.
Qed.

(** Taking the unseen head grows the set by at most one peer, and by
    exactly one when the list holds an unseen peer. *)
Lemma takeUnseen_subseteq (seen : gset positive) (l : list positive) :
  seen ⊆ takeUnseen seen l.
Proof. unfold takeUnseen. destruct (unseenHead seen l); set_solver. Qed.

Lemma unseenHead_Some (seen : gset positive) (l : list positive) (p : positive) :
  unseenHead seen l = Some p -> p ∈ l /\ p ∉ seen.
Proof.
  unfold unseenHead. intros H. apply find_some in H as [Hin Hb].
  split; [by apply list_elem_of_In |].
  apply negb_true_iff, bool_decide_eq_false in Hb. done.
Qed.

Lemma unseenHead_None (seen : gset positive) (l : list positive) :
  unseenHead seen l = None -> forall p, p ∈ l -> p ∈ seen.
Proof.
  unfold unseenHead. intros H p Hp. apply list_elem_of_In in Hp.
  pose proof (find_none _ _ H p Hp) as Hb. cbn in Hb.
  apply negb_false_iff, bool_decide_eq_true in Hb. done.
Qed.

Lemma takeUnseen_size_le (seen : gset positive) (l : list positive) :
  (size (takeUnseen seen l) <= S (size seen))%nat.
Proof.
  unfold takeUnseen. destruct (unseenHead seen l) as [p |] eqn:H; [| lia].
  apply unseenHead_Some in H as [_ Hp].
  rewrite size_union by set_solver. rewrite size_singleton. lia.
Qed.

Lemma takeUnseen_size_fresh (seen : gset positive) (l : list positive) (p : positive) :
  p ∈ l -> p ∉ seen -> size (takeUnseen seen l) = S (size seen).
Proof.
  intros Hin Hp. unfold takeUnseen. destruct (unseenHead seen l) as [q |] eqn:H.
  - apply unseenHead_Some in H as [_ Hq].
    rewrite size_union by set_solver. by rewrite size_singleton.
  - exfalso. apply Hp. by eapply unseenHead_None.
Qed.

(** A list that holds more distinct peers than the set has members
    holds a peer outside the set. *)
Lemma fresh_peer (seen : gset positive) (l : list positive) :
  (size seen < size (list_to_set l : gset positive))%nat ->
  exists p, p ∈ l /\ p ∉ seen.
Proof.
  intros Hlt. destruct (unseenHead seen l) as [p |] eqn:H.
  - exists p. by apply unseenHead_Some.
  - exfalso. pose proof (unseenHead_None _ _ H) as Hall.
    assert (Hsub : (list_to_set l : gset positive) ⊆ seen).
    { intros p Hp. apply Hall. by apply elem_of_list_to_set in Hp. }
    apply subseteq_size in Hsub. lia.
Qed.

(** Peers already seen in front of a list do not change its unseen
    head. *)
Lemma takeUnseen_skip (seen : gset positive) (consumed l : list positive) :
  (forall p, p ∈ consumed -> p ∈ seen) ->
  takeUnseen seen (consumed ++ l) = takeUnseen seen l.
Proof.
  intros Hin. unfold takeUnseen, unseenHead.
  induction consumed as [| p consumed IH]; [done |].
  cbn [app List.find]. rewrite bool_decide_eq_true_2 by (apply Hin; by left).
  cbn [negb]. apply IH. intros q Hq. apply Hin. by right.
Qed.

Lemma leftOf_mono (full : list positive) (u u' : gset positive) (rest : list positive) :
  u ⊆ u' -> leftOf full u rest -> leftOf full u' rest.
Proof. intros Hsub (c & Hc & Hin). exists c. split; [done |]. set_solver. Qed.

Lemma leftOf_takeFirst (full : list positive) (u : gset positive) (rest : list positive) :
  leftOf full u rest ->
  (takeFirst u rest).1 = takeUnseen u full
  /\ leftOf full (takeFirst u rest).1 (takeFirst u rest).2.
Proof.
  intros (c & Hc & Hin). split.
  - rewrite takeFirst_union. subst full. by rewrite takeUnseen_skip.
  - destruct (takeFirst_consumed u rest) as (c' & Hrest & Hin').
    exists (c ++ c'). split.
    + rewrite <- app_assoc. by rewrite <- Hrest.
    + intros p Hp. apply elem_of_app in Hp as [Hp | Hp]; [| by apply Hin'].
      rewrite takeFirst_union. apply takeUnseen_subseteq. by apply Hin.
Qed.

(** One iteration of the loop is one round of the zipper union. *)
Lemma sortHotPeersBody_round (maxPeerNum : Z) (first second : list positive)
    (u : gset positive) (rest1 rest2 : list positive) :
  leftOf first u rest1 -> leftOf second u rest2 ->
  let st := sortHotPeersBody maxPeerNum (u, rest1, rest2) in
  st.1.1 = zipperRound maxPeerNum u first second
  /\ leftOf first st.1.1 st.1.2 /\ leftOf second st.1.1 st.2.
Proof.
  intros H1 H2. unfold sortHotPeersBody, zipperRound.
  destruct (leftOf_takeFirst _ _ _ H1) as [Hu1 Hl1].
  destruct (takeFirst u rest1) as [u1 r1]. cbn [fst snd] in *. subst u1.
  assert (H2' : leftOf second (takeUnseen u first) rest2).
  { eapply leftOf_mono; [apply takeUnseen_subseteq | done]. }
  destruct (Z.ltb_spec (Z.of_nat (size (takeUnseen u first))) maxPeerNum) as [Hlt | Hge].
  - rewrite takeSecond_lt by done.
    destruct (leftOf_takeFirst _ _ _ H2') as [Hu2 Hl2].
    destruct (takeFirst (takeUnseen u first) rest2) as [u2 r2]. cbn [fst snd] in *.
    subst u2. repeat split; [| done].
    eapply leftOf_mono; [apply takeUnseen_subseteq | done].
  - rewrite takeSecond_ge by done. cbn [fst snd]. done.
Qed.

(** A round never collects more than [maxPeerNum] peers, and collects
    one at least when the first list still holds an unseen peer. *)
Lemma zipperRound_size (maxPeerNum : Z) (first second : list positive)
    (u : gset positive) :
  Z.of_nat (size u) < maxPeerNum ->
  (size u < size (list_to_set first : gset positive))%nat ->
  (size u < size (zipperRound maxPeerNum u first second))%nat
  /\ Z.of_nat (size (zipperRound maxPeerNum u first second)) <= maxPeerNum.
Proof.
  intros Hlt Hrich. destruct (fresh_peer u first Hrich) as (p & Hin & Hp).
  pose proof (takeUnseen_size_fresh u first p Hin Hp) as Hs1.
  unfold zipperRound.
  destruct (Z.ltb_spec (Z.of_nat (size (takeUnseen u first))) maxPeerNum) as [Hlt' | Hge].
  - pose proof (takeUnseen_size_le (takeUnseen u first) second) as Hle.
    pose proof (subseteq_size _ _ (takeUnseen_subseteq (takeUnseen u first) second)).
    lia.
  - lia.
Qed.

(** With a first list that holds more than [maxPeerNum] distinct
    peers the loop finishes within [maxPeerNum - size union]
    iterations, on the zipper union, which has [maxPeerNum] members. *)
Lemma sortHotPeersLoop_zipper (maxPeerNum : Z) (first second : list positive) :
  maxPeerNum < Z.of_nat (size (list_to_set first : gset positive)) ->
  forall (k : nat) (u : gset positive) (rest1 rest2 : list positive) (fuel : nat),
    leftOf first u rest1 -> leftOf second u rest2 ->
    Z.of_nat (size u) <= Z.max 0 maxPeerNum ->
    (Z.to_nat (maxPeerNum - Z.of_nat (size u)) <= k)%nat -> (k <= fuel)%nat ->
    sortHotPeersLoop fuel maxPeerNum (u, rest1, rest2)
    = Some (zipperRounds k maxPeerNum u first second)
    /\ size (zipperRounds k maxPeerNum u first second) = Z.to_nat maxPeerNum.
Proof.
  intros Hrich k. induction k as [| k IH]; intros u rest1 rest2 fuel H1 H2 Hle Hk Hfuel.
  - assert (Hge : maxPeerNum <= Z.of_nat (size u)) by lia.
    destruct fuel; cbn [sortHotPeersLoop zipperRounds fst];
      (apply Z.ltb_ge in Hge as Hb; rewrite Hb); split; try done; lia.
  - destruct (Z.ltb_spec (Z.of_nat (size u)) maxPeerNum) as [Hlt | Hge].
    + destruct fuel as [| fuel]; [lia |].
      cbn [sortHotPeersLoop zipperRounds fst].
      apply Z.ltb_lt in Hlt as Hb. rewrite Hb.
      destruct (sortHotPeersBody_round maxPeerNum first second u rest1 rest2 H1 H2)
        as (Hu & Hl1 & Hl2).
      destruct (zipperRound_size maxPeerNum first second u Hlt) as [Hgrow Hmax]; [lia |].
      destruct (sortHotPeersBody maxPeerNum (u, rest1, rest2)) as [[u' r1] r2].
      cbn [fst snd] in *. subst u'. apply IH; try done; lia.
    + destruct fuel; cbn [sortHotPeersLoop zipperRounds fst];
        (apply Z.ltb_ge in Hge as Hb; rewrite Hb); split; try done; lia.
Qed.

Lemma leftOf_start (l : list positive) : leftOf l ∅ l.
Proof. exists []. split; [done |]. intros p Hp. by apply elem_of_nil in Hp. Qed.

(** The states the loop runs through keep the invariant. *)
Lemma sortHotPeersBody_iter (maxPeerNum : Z) (first second : list positive) (n : nat) :
  let st := Nat.iter n (sortHotPeersBody maxPeerNum) (∅, first, second) in
  leftOf first st.1.1 st.1.2 /\ leftOf second st.1.1 st.2.
Proof.
  induction n as [| n IH]; [split; apply leftOf_start |].
  cbn zeta in *. rewrite Nat.iter_succ. destruct IH as [H1 H2].
  destruct (Nat.iter n (sortHotPeersBody maxPeerNum) (∅, first, second)) as [[u r1] r2].
  cbn [fst snd] in H1, H2.
  by destruct (sortHotPeersBody_round maxPeerNum first second u r1 r2 H1 H2) as (_ & ? & ?).
Qed.

(** Once both lists are exhausted short of [maxPeerNum], no amount of
    iterations ends the loop. *)
Lemma sortHotPeersLoop_stuck (fuel : nat) (maxPeerNum : Z) (u : gset positive) :
  Z.of_nat (size u) < maxPeerNum ->
  sortHotPeersLoop fuel maxPeerNum (u, [], []) = None.
Proof.
  intros Hlt. apply Z.ltb_lt in Hlt. induction fuel as [| fuel IH];
    cbn [sortHotPeersLoop fst]; rewrite Hlt; [done |].
  cbn [sortHotPeersBody takeFirst takeSecond]. exact IH.
Qed.

Lemma rich_of_contains (hotPeers l : list positive) (maxPeerNum : Z) :
  (forall p, p ∈ hotPeers -> p ∈ l) ->
  maxPeerNum < Z.of_nat (size (list_to_set hotPeers : gset positive)) ->
  maxPeerNum < Z.of_nat (size (list_to_set l : gset positive)).
Proof.
  intros Hin Hlt.
  assert (Hsub : (list_to_set hotPeers : gset positive) ⊆ list_to_set l).
  { intros p Hp. apply elem_of_list_to_set. apply Hin. by apply elem_of_list_to_set in Hp. }
  apply subseteq_size in Hsub. lia.
Qed.

(** C10.  When both sorted lists contain every hot peer and there are
    more than [maxPeerNum] distinct hot peers, [sortHotPeers] returns:
    [maxPeerNum] iterations of its outer loop always suffice, and the
    union it returns has [maxPeerNum] members (none when [maxPeerNum]
    is negative).  In every state the loop reaches with the union short
    of [maxPeerNum], the next iteration makes the union strictly
    larger.  The loop has no other exit: with both lists exhausted and
    the union short of [maxPeerNum] it never returns. *)
Theorem sortHotPeers_terminates (bs : balanceSolver)
    (hotPeers firstSort secondSort : list positive) :
  (forall p, p ∈ hotPeers -> p ∈ firstSort) ->
  (forall p, p ∈ hotPeers -> p ∈ secondSort) ->
  maxPeerNum bs < Z.of_nat (size (list_to_set hotPeers : gset positive)) ->
  (exists union,
      (forall fuel, (Z.to_nat (maxPeerNum bs) <= fuel)%nat ->
                    sortHotPeers fuel bs firstSort secondSort = Some union)
      /\ size union = Z.to_nat (maxPeerNum bs))
  /\ (forall n,
        let st := Nat.iter n (sortHotPeersBody (maxPeerNum bs)) (∅, firstSort, secondSort) in
        Z.of_nat (size st.1.1) < maxPeerNum bs ->
        (size st.1.1 < size (sortHotPeersBody (maxPeerNum bs) st).1.1)%nat)
  /\ (forall fuel u, Z.of_nat (size u) < maxPeerNum bs ->
                     sortHotPeersLoop fuel (maxPeerNum bs) (u, [], []) = None).
Proof.
  intros Hfirst Hsecond Hmany.
  pose proof (rich_of_contains _ _ _ Hfirst Hmany) as Hrich.
  split; [| split].
  - exists (zipperRounds (Z.to_nat (maxPeerNum bs)) (maxPeerNum bs) ∅ firstSort secondSort).
    split.
    + intros fuel Hfuel. unfold sortHotPeers.
      apply (sortHotPeersLoop_zipper _ _ _ Hrich); try apply leftOf_start;
        rewrite ?size_empty; lia.
    + apply (sortHotPeersLoop_zipper _ _ _ Hrich _ ∅ firstSort secondSort
               (Z.to_nat (maxPeerNum bs))); try apply leftOf_start;
        rewrite ?size_empty; lia.
  - intros n st Hlt.
    destruct (sortHotPeersBody_iter (maxPeerNum bs) firstSort secondSort n) as [H1 H2].
    fold st in H1, H2. destruct st as [[u r1] r2]. cbn [fst snd] in *.
    destruct (sortHotPeersBody_round (maxPeerNum bs) firstSort secondSort u r1 r2 H1 H2)
      as (Hu & _ & _).
    rewrite Hu. apply zipperRound_size; [done | lia].
  - intros fuel u. apply sortHotPeersLoop_stuck.
Qed.

(** The precondition of C10 counts distinct peers: a list of three
    entries for one and the same peer is longer than a [maxPeerNum] of
    2, and on it the loop never ends. *)
Example sortHotPeers_duplicates (fuel : nat) :
  sortHotPeers fuel (ex.solver movePeer (ex.hedged ex.store2) None [] 2)
    [3; 3; 3]%positive [3; 3; 3]%positive = None.
Proof.
  destruct fuel as [| [| fuel]]; [reflexivity | reflexivity |].
  exact (sortHotPeersLoop_stuck fuel 2 {[ 3%positive ]} eq_refl).
Qed.

(** C10 applied: the store holds the peers 3, 4 and 5, at most two are
    wanted, and the two lists order them in opposite ways. *)
Lemma sortHotPeers_terminates_witness :
  (exists union,
      (forall fuel, (2 <= fuel)%nat ->
                    sortHotPeers fuel (ex.solver movePeer (ex.hedged ex.store2) None [] 2)
                      [3; 4; 5]%positive [5; 4; 3]%positive = Some union)
      /\ size union = 2%nat)
  /\ sortHotPeers 2 (ex.solver movePeer (ex.hedged ex.store2) None [] 2)
       [3; 4; 5]%positive [5; 4; 3]%positive
     = Some {[ 3%positive; 5%positive ]}.
Proof.
  split; [| reflexivity].
  refine (proj1 (sortHotPeers_terminates
                   (ex.solver movePeer (ex.hedged ex.store2) None [] 2)
                   [3; 4; 5]%positive [3; 4; 5]%positive [5; 4; 3]%positive _ _ _)).
  - intros p Hp. exact Hp.
  - intros p Hp. apply list_elem_of_In. apply list_elem_of_In in Hp.
    cbn in *. tauto.
  - reflexivity.
Defined.

(** ** Filtering the hot peers of a store *)

Section FilterHotPeers.

Variable deref : positive -> statistics.HotPeerStat.
Variable sortSlice : (positive -> positive -> bool) -> list positive -> list positive.

(** Appending item by item keeps the admissible items, in order. *)
Lemma foldl_appendItem (bs : balanceSolver) (regionPendings : gmap N pendingInfluence)
    (l acc : list positive) :
  foldl (appendItem deref bs regionPendings) acc l
  = acc ++ List.filter (admissible deref bs regionPendings) l.
Proof.
  revert acc. induction l as [| p l IH]; intros acc; [by rewrite app_nil_r |].
  cbn [foldl List.filter]. rewrite IH. unfold appendItem, admissible.
  destruct (regionPendings !! statistics.ID (deref p)) as [e |] eqn:He.
  - by rewrite bool_decide_eq_false_2.
  - rewrite bool_decide_eq_true_2 by done. cbn [andb].
    destruct (negb _); [| done]. by rewrite <- app_assoc.
Qed.

Lemma admissible_spec (bs : balanceSolver) (regionPendings : gmap N pendingInfluence)
    (p : positive) :
  admissible deref bs regionPendings p = true <->
  regionPendings !! statistics.ID (deref p) = None
  /\ statistics.IsNeedCoolDownTransferLeader (deref p) (minHotDegree bs) (rwTy bs) = false.
Proof.
  unfold admissible. rewrite andb_true_iff, bool_decide_eq_true, negb_true_iff. done.
Qed.

(** What [filterHotPeers] returns: the admissible peers of the raw
    list, or of the union when the list is longer than [maxPeerNum]. *)
Lemma filterHotPeers_filter (fuel : nat) (bs : balanceSolver)
    (regionPendings : gmap N pendingInfluence) (storeLoad : statistics.StoreLoadDetail)
    (ret : list positive) (nth : list (nat * positive)) :
  filterHotPeers deref sortSlice fuel bs regionPendings storeLoad = Some (ret, nth) ->
  exists candidates, ret = List.filter (admissible deref bs regionPendings) candidates.
Proof.
  unfold filterHotPeers.
  destruct (if _ >=? topnPosition then _ else _) as [nth' |]; cbn [mbind option_bind];
    [| discriminate].
  destruct (_ >? maxPeerNum bs).
  - destruct (sortHotPeers _ _ _ _) as [union |]; cbn [mbind option_bind];
      [| discriminate].
    intros [= <- <-]. exists (elements union). by rewrite foldl_appendItem.
  - intros [= <- <-]. exists (statistics.HotPeers storeLoad). by rewrite foldl_appendItem.
Qed.

(** C5.  Whatever [filterHotPeers] returns for a store, whether its
    raw list is within [maxPeerNum] or was cut down to the union, no
    returned peer belongs to a region with a pending entry and no
    returned peer needs to cool down after a leader transfer. *)
Theorem filterHotPeers_excludes (fuel : nat) (bs : balanceSolver)
    (regionPendings : gmap N pendingInfluence) (storeLoad : statistics.StoreLoadDetail)
    (ret : list positive) (nth : list (nat * positive)) :
  filterHotPeers deref sortSlice fuel bs regionPendings storeLoad = Some (ret, nth) ->
  forall p, p ∈ ret ->
    regionPendings !! statistics.ID (deref p) = None
    /\ statistics.IsNeedCoolDownTransferLeader (deref p) (minHotDegree bs) (rwTy bs) = false.
Proof.
  intros Hret p Hp. apply filterHotPeers_filter in Hret as [candidates ->].
  apply list_elem_of_In, filter_In in Hp as [_ Hp]. by apply admissible_spec.
Qed.

End FilterHotPeers.

(** C5 applied to a store with four hot peers, one of a pending region
    and one cooling down: cut down to two peers the result is peer 4
    alone, and uncut it is the peers 5 and 4. *)
Lemma filterHotPeers_excludes_witness :
  (filterHotPeers ex.deref ex.sortSlice 2
     (ex.solver movePeer (ex.hedged ex.store2) None [] 2) ex.ledger103 ex.busyStore
   = Some ([4%positive], [])
   /\ forall p, p ∈ [4%positive] ->
        ex.ledger103 !! statistics.ID (ex.deref p) = None
        /\ statistics.IsNeedCoolDownTransferLeader (ex.deref p) 3 statistics.Write = false)
  /\ filterHotPeers ex.deref ex.sortSlice 0
       (ex.solver movePeer (ex.hedged ex.store2) None [] 1000) ex.ledger103 ex.busyStore
     = Some ([5; 4]%positive, []).
Proof.
  split; [split; [reflexivity |] | reflexivity].
  exact (filterHotPeers_excludes ex.deref ex.sortSlice 2
           (ex.solver movePeer (ex.hedged ex.store2) None [] 2) ex.ledger103 ex.busyStore
           [4%positive] [] eq_refl).
Defined.

(** ** The candidate set of a store with too many hot peers *)

Lemma size_list_to_set_le (l : list positive) :
  (size (list_to_set l : gset positive) <= length l)%nat.
Proof.
  induction l as [| p l IH]; [by rewrite list_to_set_nil, size_empty |].
  rewrite list_to_set_cons. cbn [length].
  destruct (decide (p ∈ (list_to_set l : gset positive))) as [Hin | Hnin].
  - rewrite (subseteq_union_1_L {[p]} (list_to_set l)); [lia |].
    by apply singleton_subseteq_l.
  - rewrite size_union by set_solver. rewrite size_singleton. lia.
Qed.

Lemma length_filter_le {A : Type} (f : A -> bool) (l : list A) :
  (length (List.filter f l) <= length l)%nat.
Proof. induction l as [| x l IH]; cbn; [lia |]. destruct (f x); cbn; lia. Qed.

Lemma length_omap_le {A B : Type} (f : A -> option B) (l : list A) :
  (length (omap f l) <= length l)%nat.
Proof.
  induction l as [| x l IH]; [done |].
  change (omap f (x :: l)) with (match f x with Some y => y :: omap f l | None => omap f l end).
  destruct (f x); cbn [length]; lia.
Qed.

Lemma filter_all {A : Type} (f : A -> bool) (l : list A) :
  (forall x, x ∈ l -> f x = true) -> List.filter f l = l.
Proof.
  induction l as [| x l IH]; intros Hall; [done |]. cbn.
  rewrite (Hall x) by (by left). f_equal. apply IH. intros y Hy. apply Hall. by right.
Qed.

Section CandidateSet.

Variable deref : positive -> statistics.HotPeerStat.
Variable sortSlice : (positive -> positive -> bool) -> list positive -> list positive.

(** C8, as amended.  Let [sort.Slice] return permutations and let the
    store have more than [maxPeerNum] distinct hot peers.  Then
    [filterHotPeers] returns as soon as the loop of [sortHotPeers] is
    given [maxPeerNum] iterations; its candidate set is the zipper
    union of the hot peers sorted by descending first-priority load
    and by descending second-priority load; that union has
    [maxPeerNum] members (none for a negative [maxPeerNum]); and the
    filtered result is the admissible part of the union: it has at
    most [maxPeerNum] peers, and exactly [maxPeerNum] when no peer of
    the union is pending or cooling down. *)
Theorem filterHotPeers_zipper (fuel : nat) (bs : balanceSolver)
    (regionPendings : gmap N pendingInfluence) (storeLoad : statistics.StoreLoadDetail) :
  let hotPeers := statistics.HotPeers storeLoad in
  let union :=
    zipperUnion (maxPeerNum bs)
      (sortSlice (byLoadDesc deref (firstPriority bs)) hotPeers)
      (sortSlice (byLoadDesc deref (secondPriority bs)) hotPeers) in
  (forall less l, sortSlice less l ≡ₚ l) ->
  maxPeerNum bs < Z.of_nat (size (list_to_set hotPeers : gset positive)) ->
  (Z.to_nat (maxPeerNum bs) <= fuel)%nat ->
  exists ret nth,
    filterHotPeers deref sortSlice fuel bs regionPendings storeLoad = Some (ret, nth)
    /\ ret = List.filter (admissible deref bs regionPendings) (elements union)
    /\ size union = Z.to_nat (maxPeerNum bs)
    /\ (length ret <= Z.to_nat (maxPeerNum bs))%nat
    /\ ((forall p, p ∈ union -> admissible deref bs regionPendings p = true) ->
        length ret = Z.to_nat (maxPeerNum bs)).
Proof.
  intros hotPeers union Hperm Hmany Hfuel.
  set (first := sortSlice (byLoadDesc deref (firstPriority bs)) hotPeers) in *.
  set (second := sortSlice (byLoadDesc deref (secondPriority bs)) hotPeers) in *.
  pose proof (size_list_to_set_le hotPeers) as Hlen.
  assert (Hrich : maxPeerNum bs < Z.of_nat (size (list_to_set first : gset positive))).
  { apply (rich_of_contains hotPeers); [| done].
    intros p Hp. unfold first. by rewrite Hperm. }
  destruct (sortHotPeersLoop_zipper (maxPeerNum bs) first second Hrich
              (Z.to_nat (maxPeerNum bs)) ∅ first second fuel)
    as [Hloop Hsize]; try apply leftOf_start; rewrite ?size_empty; try lia.
  fold (zipperUnion (maxPeerNum bs) first second) in Hloop, Hsize. fold union in Hloop, Hsize.
  assert (Hgt : (Z.of_nat (length hotPeers) >? maxPeerNum bs) = true)
    by (apply Z.gtb_lt; lia).
  assert (Hcount : length (elements union) = Z.to_nat (maxPeerNum bs)) by done.
  exists (List.filter (admissible deref bs regionPendings) (elements union)).
  assert (Hnth : exists nth,
            (if Z.of_nat (length hotPeers) >=? topnPosition
             then a ← (first !! Z.to_nat (topnPosition - 1));
                  b ← (second !! Z.to_nat (topnPosition - 1));
                  Some [(firstPriority bs, a); (secondPriority bs, b)]
             else Some []) = Some nth).
  { destruct (Z.geb_spec (Z.of_nat (length hotPeers)) topnPosition) as [Hge | _];
      [| by eexists].
    unfold topnPosition, defaultTopnPosition in *.
    destruct (lookup_lt_is_Some_2 first (Z.to_nat (10 - 1))) as [a Ha].
    { unfold first. rewrite Hperm. lia. }
    destruct (lookup_lt_is_Some_2 second (Z.to_nat (10 - 1))) as [b Hb].
    { unfold second. rewrite Hperm. lia. }
    rewrite Ha, Hb. by eexists. }
  destruct Hnth as [nth Hnth]. exists nth. split; [| split; [done | split; [done | split]]].
  - unfold filterHotPeers. fold hotPeers. rewrite Hgt, orb_true_r.
    fold first. fold second. rewrite Hnth. cbn [mbind option_bind].
    unfold sortHotPeers. rewrite Hloop. cbn [mbind option_bind].
    by rewrite foldl_appendItem.
  - rewrite <- Hcount. apply length_filter_le.
  - intros Hall. rewrite filter_all; [done |].
    intros p Hp. apply Hall. by apply elem_of_elements.
Qed.

End CandidateSet.

(** The insertion sort of the examples returns a permutation. *)
Lemma ex_sortSlice_perm (less : positive -> positive -> bool) (l : list positive) :
  ex.sortSlice less l ≡ₚ l.
Proof.
  assert (Hins : forall x l', ex.insertBy less x l' ≡ₚ x :: l').
  { intros x l'. induction l' as [| y l' IH]; [done |].
    cbn [ex.insertBy]. destruct (less y x); [| done].
    rewrite IH. apply Permutation_swap. }
  induction l as [| x l IH]; [done |].
  unfold ex.sortSlice in *. cbn [foldr]. by rewrite Hins, IH.
Qed.

(** C8 applied: store 1 holds the four peers 5, 3, 6, 4 and two are
    wanted; the zipper union is made of the peers 3 and 4, and with no
    region pending both pass the filter. *)
Lemma filterHotPeers_zipper_witness :
  exists ret nth,
    filterHotPeers ex.deref ex.sortSlice 2
      (ex.solver movePeer (ex.hedged ex.store2) None [] 2) ∅ ex.busyStore
    = Some (ret, nth)
    /\ ret = List.filter
               (admissible ex.deref (ex.solver movePeer (ex.hedged ex.store2) None [] 2) ∅)
               (elements (zipperUnion 2 [3; 4; 5; 6]%positive [3; 4; 5; 6]%positive))
    /\ size (zipperUnion 2 [3; 4; 5; 6]%positive [3; 4; 5; 6]%positive) = 2%nat
    /\ (length ret <= 2)%nat
    /\ ((forall p, p ∈ zipperUnion 2 [3; 4; 5; 6]%positive [3; 4; 5; 6]%positive ->
                   admissible ex.deref
                     (ex.solver movePeer (ex.hedged ex.store2) None [] 2) ∅ p = true) ->
        length ret = 2%nat).
Proof.
  exact (filterHotPeers_zipper ex.deref ex.sortSlice 2
           (ex.solver movePeer (ex.hedged ex.store2) None [] 2) ∅ ex.busyStore
           ex_sortSlice_perm eq_refl (le_n 2)).
Defined.

(** The claim C8 as stated fails: with the region of peer 3 pending,
    the store with four hot peers and [maxPeerNum] 2 gets the union of
    the peers 3 and 4, but a filtered result of one peer only. *)
Lemma filterHotPeers_smaller_than_max :
  (length (statistics.HotPeers ex.busyStore) > 2)%nat
  /\ sortHotPeers 2 (ex.solver movePeer (ex.hedged ex.store2) None [] 2)
       (ex.sortSlice (byLoadDesc ex.deref ByteDim) (statistics.HotPeers ex.busyStore))
       (ex.sortSlice (byLoadDesc ex.deref KeyDim) (statistics.HotPeers ex.busyStore))
     = Some {[ 3%positive; 4%positive ]}
  /\ filterHotPeers ex.deref ex.sortSlice 2
       (ex.solver movePeer (ex.hedged ex.store2) None [] 2) ex.ledger103 ex.busyStore
     = Some ([4%positive], [])
  /\ length [4%positive] = 1%nat.
Proof. repeat split; try reflexivity. cbn. lia. Qed.

(** ** Building operators *)

Lemma splitRegions_spec (bs : balanceSolver) (r : core.RegionInfo) :
  r ∈ splitRegions bs <->
  opTy bs = movePeer
  /\ (region (cur bs) = Some r \/ revertRegion (cur bs) = Some r)
  /\ core.GetApproximateSize r > GetMaxMovableHotPeerSize (cluster bs).
Proof.
  unfold splitRegions. destruct (opTy bs).
  - rewrite list_elem_of_In, filter_In, in_app_iff, Z.gtb_gt.
    destruct (region (cur bs)) as [a |], (revertRegion (cur bs)) as [b |];
      simpl; intuition (subst; auto; congruence).
  - split; [intros H; by apply elem_of_nil in H | by intros [? _]].
  - split; [intros H; by apply elem_of_nil in H | by intros [? _]].
Qed.

Lemma splitRegions_length (bs : balanceSolver) : (length (splitRegions bs) <= 2)%nat.
Proof.
  unfold splitRegions. destruct (opTy bs); cbn [length]; try lia.
  etransitivity; [apply length_filter_le |]. rewrite length_app.
  destruct (region (cur bs)), (revertRegion (cur bs)); cbn; lia.
Qed.

Section BuildOperators.

Variable deref : positive -> statistics.HotPeerStat.
Variable Between : core.Key -> core.Key -> core.Key -> bool.
Variable createFails : core.RegionInfo -> operator.OpStep -> bool.

Lemma Create_Some (r : core.RegionInfo) (step : operator.OpStep) (o : operator.Operator) :
  Create createFails r step = Some o -> o = NewOperator r step.
Proof. unfold Create. destruct (createFails r step); [discriminate | by intros [= <-]]. Qed.

(** A split by size is a split at the middle in-range bucket key. *)
Lemma splitBucketBySize_Some (r : core.RegionInfo) (o : operator.Operator) :
  splitBucketBySize Between createFails r = Some o ->
  exists k, inRangeKeys Between r !! (length (inRangeKeys Between r) / 2)%nat = Some k
            /\ o = NewOperator r (operator.SplitRegion [k]).
Proof.
  unfold splitBucketBySize. cbn zeta.
  destruct (inRangeKeys Between r !! _) as [k |] eqn:Hk; [| discriminate].
  intros Ho. exists k. split; [done |].
  assert (Hin : Between (core.GetStartKey r) (core.GetEndKey r) k = true).
  { apply list_elem_of_lookup_2, list_elem_of_In in Hk.
    unfold inRangeKeys in Hk. by apply filter_In in Hk as [_ Hk]. }
  unfold splitBucketsOperator in Ho. cbn [List.filter] in Ho. rewrite Hin in Ho.
  by apply Create_Some in Ho.
Qed.

(** Every strategy yields at most one operator per region. *)
Lemma createSplitOperator_length (bs : balanceSolver) (regions : list core.RegionInfo)
    (strategy : splitStrategy) :
  (length (createSplitOperator Between createFails bs regions strategy).1
   <= length regions)%nat.
Proof.
  unfold createSplitOperator.
  set (f := fun r : core.RegionInfo => _).
  pose proof (length_omap_le f regions) as Hlen.
  by destruct (omap f regions).
Qed.

Lemma createSplitOperator_bySize (bs : balanceSolver) (regions : list core.RegionInfo) :
  (createSplitOperator Between createFails bs regions bySize).1
  = omap (splitBucketBySize Between createFails) regions.
Proof.
  unfold createSplitOperator. by destruct (omap _ regions).
Qed.


End BuildOperators.


(** ** The operators of a solution *)

Section CreateOperator.

Variable createFails : core.RegionInfo -> operator.OpStep -> bool.

(** C6, as amended.  [createOperator] requests a transfer of the
    leader to the destination store when that store already holds a
    peer of the region.  Otherwise, with a peer of the region on the
    source store, it requests a move of the leader when the leader of
    the region is on the source store and a move of the peer when it
    is not; in both the new peer is on the destination store and has
    the role of the peer on the source store.  Whatever it requests,
    it returns the label of that kind; the operator itself is built
    exactly when the constructor of the [operator] package does not
    refuse, and is then an operator on the region with the requested
    step and no decoration.  With a peer of the region on neither
    store there is no result: the role of a missing peer is read. *)
Theorem createOperator_kinds (r : core.RegionInfo) (srcStoreID dstStoreID : N) :
  let requested (typ : operator.OpTyp) (step : operator.OpStep)
        (result : option (operator.OpTyp * option operator.Operator)) :=
    exists built,
      result = Some (typ, built)
      /\ (createFails r step = true -> built = None)
      /\ (createFails r step = false ->
          exists o, built = Some o /\ operator.RegionID o = core.GetID r
                    /\ operator.Step o = step /\ operator.Decor o = None
                    /\ operator.Kind_isSplit o = false) in
  (forall dstPeer, core.GetStorePeer r dstStoreID = Some dstPeer ->
     requested operator.TypTransferLeader (operator.TransferLeader dstStoreID)
       (createOperator createFails r srcStoreID dstStoreID))
  /\ (forall srcPeer,
        core.GetStorePeer r dstStoreID = None ->
        core.GetStorePeer r srcStoreID = Some srcPeer ->
        let dstPeer :=
          {| metapb.Id := 0; metapb.StoreId := dstStoreID;
             metapb.Role := metapb.Role srcPeer |} in
        (metapb.GetStoreId (core.GetLeader r) = srcStoreID ->
         requested operator.TypMoveLeader (operator.MoveLeader srcStoreID dstPeer)
           (createOperator createFails r srcStoreID dstStoreID))
        /\ (metapb.GetStoreId (core.GetLeader r) <> srcStoreID ->
            requested operator.TypMovePeer (operator.MovePeer srcStoreID dstPeer)
              (createOperator createFails r srcStoreID dstStoreID)))
  /\ (core.GetStorePeer r dstStoreID = None -> core.GetStorePeer r srcStoreID = None ->
      createOperator createFails r srcStoreID dstStoreID = None).
Proof.
  intros requested.
  assert (Hreq : forall typ step,
            operator.isOpSplit step = false ->
            requested typ step (Some (typ, Create createFails r step))).
  { intros typ step Hstep. unfold requested, Create. eexists. split; [reflexivity |].
    destruct (createFails r step); split; try done.
    intros _. eexists. split; [reflexivity |]. by repeat split. }
  split; [| split].
  - intros dstPeer Hdst. unfold createOperator. rewrite Hdst. by apply Hreq.
  - intros srcPeer Hdst Hsrc dstPeer. unfold createOperator. rewrite Hdst, Hsrc.
    cbn [mbind option_bind]. fold dstPeer. split; intros Hleader.
    + apply N.eqb_eq in Hleader. rewrite Hleader. by apply Hreq.
    + apply N.eqb_neq in Hleader. rewrite Hleader. by apply Hreq.
  - intros Hdst Hsrc. unfold createOperator. by rewrite Hdst, Hsrc.
Qed.

(** The claim C6 as stated fails where no operator is built.  Neither
    store 1 nor store 4 holds a peer of region 8, which lives on the
    stores 2 and 3: [createOperator] has no result at all, where the
    claim has a move built.  And store 3 holds a peer of region 7, but
    when the constructor of the [operator] package refuses, only the
    label of the transfer comes back, without an operator. *)
Lemma createOperator_not_built :
  core.GetStorePeer ex.region8 4 = None
  /\ core.GetStorePeer ex.region8 1 = None
  /\ createOperator ex.neverFails ex.region8 1 4 = None
  /\ is_Some (core.GetStorePeer ex.region7 3)
  /\ createOperator (fun _ _ => true) ex.region7 1 3
     = Some (operator.TypTransferLeader, None).
Proof. repeat split; try reflexivity. by eexists. Qed.

(** An operator that [createOperator] obtained is on the region it was
    asked for, moves or transfers, and is not decorated yet. *)
Lemma createOperator_Some (r : core.RegionInfo) (srcStoreID dstStoreID : N)
    (created : operator.OpTyp * option operator.Operator) (o : operator.Operator) :
  createOperator createFails r srcStoreID dstStoreID = Some created ->
  created.2 = Some o ->
  operator.RegionID o = core.GetID r /\ operator.Kind_isSplit o = false.
Proof.
  unfold createOperator. intros Hc Ho.
  destruct (core.GetStorePeer r dstStoreID).
  - injection Hc as <-. apply Create_Some in Ho as ->. done.
  - destruct (core.GetStorePeer r srcStoreID); cbn [mbind option_bind] in Hc;
      [| discriminate].
    destruct (N.eqb _ _); injection Hc as <-; apply Create_Some in Ho as ->; done.
Qed.

End CreateOperator.

(** C6 at work on the regions of the examples: store 3 already holds a
    peer of region 7; store 2 does not, and region 7 is led from store
    1; region 8 is not led from store 2, and its peer there is a
    learner. *)
Example createOperator_samples :
  createOperator ex.neverFails ex.region7 1 3
  = Some (operator.TypTransferLeader,
          Some (NewOperator ex.region7 (operator.TransferLeader 3)))
  /\ createOperator ex.neverFails ex.region7 1 2
     = Some (operator.TypMoveLeader,
             Some (NewOperator ex.region7 (operator.MoveLeader 1 (ex.voter 0 2))))
  /\ createOperator ex.neverFails ex.region8 2 1
     = Some (operator.TypMovePeer,
             Some (NewOperator ex.region8 (operator.MovePeer 2 (ex.learner 0 1))))
  /\ createOperator ex.neverFails ex.region8 1 4 = None.
Proof. repeat split. Qed.

Section OperatorPair.

Variable deref : positive -> statistics.HotPeerStat.
Variable Between : core.Key -> core.Key -> core.Key -> bool.
Variable createFails : core.RegionInfo -> operator.OpStep -> bool.

(** The guard of [solve] only lets through a revert region that is
    not the main region. *)
Lemma withRevert_differs (bs : balanceSolver) (revertPeer : positive)
    (rr : core.RegionInfo) (c : solution) :
  withRevert bs revertPeer rr = Some c ->
  exists main, region c = Some main /\ revertRegion c = Some rr
               /\ core.GetID rr <> core.GetID main.
Proof.
  unfold withRevert.
  case_bind (region (cur bs)) as [main |] by Hmain.
  case_bind (srcStore (cur bs)) as [src |].
  destruct (N.eqb_spec (core.GetID rr) (core.GetID main)) as [Heq | Hne];
    cbn [orb]; [discriminate |].
  destruct (negb _); [discriminate |]. intros [= <-]. by exists main.
Qed.

(** Two split operators stem from a main and a revert region that are
    both too large. *)
Lemma splitRegions_two (bs : balanceSolver) (a b : core.RegionInfo) :
  splitRegions bs = [a; b] ->
  opTy bs = movePeer /\ region (cur bs) = Some a /\ revertRegion (cur bs) = Some b.
Proof.
  unfold splitRegions. destruct (opTy bs); [| intros [=] | intros [=]].
  destruct (region (cur bs)) as [x |], (revertRegion (cur bs)) as [y |]; simpl.
  - destruct (_ >? _); destruct (_ >? _); intros [=]; by subst.
  - destruct (_ >? _); intros [=].
  - destruct (_ >? _); intros [=].
  - intros [=].
Qed.

Lemma omap_two {A B : Type} (f : A -> option B) (l : list A) (y1 y2 : B) :
  (length l <= 2)%nat -> omap f l = [y1; y2] ->
  exists x1 x2, l = [x1; x2] /\ f x1 = Some y1 /\ f x2 = Some y2.
Proof.
  intros Hlen Ho. pose proof (length_omap_le f l) as Hle. rewrite Ho in Hle.
  destruct l as [| x1 [| x2 [| x3 l]]]; cbn [length] in *; try lia.
  exists x1, x2. split; [done |].
  change (omap f [x1; x2])
    with (match f x1 with
          | Some y => y :: match f x2 with Some y' => [y'] | None => [] end
          | None => match f x2 with Some y' => [y'] | None => [] end
          end) in Ho.
  destruct (f x1), (f x2); try discriminate. by injection Ho as -> ->.
Qed.

(** C3, as amended.  [buildOperators] returns at most two operators,
    and so does a split by load of a single region.  When it returns
    two, the first is on the main region and the second on the revert
    region of the solution, and either both are moves, the second being
    the revert of the first (source and target labels swapped), or both
    are splits of regions too large to move.  For a solution that
    passed the guard of [solve] on revert regions the two operators are
    on different regions. *)
Theorem buildOperators_at_most_two (bs : balanceSolver) (ops : list operator.Operator)
    (cur' : solution) :
  buildOperators deref Between createFails bs = Some (ops, cur') ->
  (length ops <= 2)%nat
  /\ (forall r strategy,
        (length (createSplitOperator Between createFails bs [r] strategy).1 <= 1)%nat)
  /\ (forall o1 o2, ops = [o1; o2] ->
        exists main rr,
          region (cur bs) = Some main /\ revertRegion (cur bs) = Some rr
          /\ operator.RegionID o1 = core.GetID main
          /\ operator.RegionID o2 = core.GetID rr
          /\ (forall bs0 revertPeer rr0,
                withRevert bs0 revertPeer rr0 = Some (cur bs) ->
                operator.RegionID o1 <> operator.RegionID o2)
          /\ ((exists src dst d1 d2,
                  srcStore (cur bs) = Some src /\ dstStore (cur bs) = Some dst
                  /\ operator.Kind_isSplit o1 = false /\ operator.Kind_isSplit o2 = false
                  /\ operator.Decor o1 = Some d1 /\ operator.Decor o2 = Some d2
                  /\ operator.isRevert d1 = false /\ operator.isRevert d2 = true
                  /\ operator.sourceLabel d1 = statistics.GetID src
                  /\ operator.targetLabel d1 = statistics.GetID dst
                  /\ operator.sourceLabel d2 = operator.targetLabel d1
                  /\ operator.targetLabel d2 = operator.sourceLabel d1)
              \/ (opTy bs = movePeer
                  /\ operator.Kind_isSplit o1 = true /\ operator.Kind_isSplit o2 = true
                  /\ operator.Decor o1 = None /\ operator.Decor o2 = None
                  /\ core.GetApproximateSize main > GetMaxMovableHotPeerSize (cluster bs)
                  /\ core.GetApproximateSize rr > GetMaxMovableHotPeerSize (cluster bs)))).
Proof.
  intros Hbuild.
  assert (Hdiff : forall main rr o1 o2,
            region (cur bs) = Some main -> revertRegion (cur bs) = Some rr ->
            operator.RegionID o1 = core.GetID main ->
            operator.RegionID o2 = core.GetID rr ->
            forall bs0 revertPeer rr0,
              withRevert bs0 revertPeer rr0 = Some (cur bs) ->
              operator.RegionID o1 <> operator.RegionID o2).
  { intros main rr o1 o2 Hmain Hrr H1 H2 bs0 revertPeer rr0 Hw.
    apply withRevert_differs in Hw as (main' & Hm' & Hr' & Hne).
    rewrite H1, H2. congruence. }
  split; [| split].
  - revert Hbuild. unfold buildOperators. cbn zeta.
    destruct (isReadyToBuild deref bs); cbn [negb]; [| intros [= <- <-]; cbn; lia].
    destruct (splitRegions bs) as [| r0 l] eqn:Hsr.
    + case_bind (srcStore (cur bs)) as [src |].
      case_bind (dstStore (cur bs)) as [dst |].
      case_bind (region (cur bs)) as [r |].
      destruct (createOperator _ _ _ _) as [[typ [o |]] |]; cbn [mbind option_bind snd];
        [| intros [= <- <-]; cbn; lia | discriminate].
      destruct (revertRegion (cur bs)) as [rr |]; [| intros [= <- <-]; cbn; lia].
      destruct (createOperator _ _ _ _) as [[typ' [o' |]] |]; cbn [mbind option_bind snd];
        [| intros [= <- <-]; cbn; lia | discriminate].
      intros [= <- <-]. cbn. lia.
    + rewrite <- Hsr. intros [= Hops]. 
      pose proof (createSplitOperator_length Between createFails bs (splitRegions bs) bySize) as Hl.
      pose proof (splitRegions_length bs). rewrite Hops in Hl. cbn [fst] in Hl. lia.
  - intros r strategy. apply (createSplitOperator_length Between createFails bs [r]).
  - intros o1 o2 ->. revert Hbuild. unfold buildOperators. cbn zeta.
    destruct (isReadyToBuild deref bs); cbn [negb]; [| discriminate].
    destruct (splitRegions bs) as [| r0 l] eqn:Hsr.
    + case_bind (srcStore (cur bs)) as [src |] by Hsrc.
      case_bind (dstStore (cur bs)) as [dst |] by Hdst.
      case_bind (region (cur bs)) as [r |] by Hr.
      destruct (createOperator _ _ _ _) as [[typ [o |]] |] eqn:Hc1;
        cbn [mbind option_bind snd fst]; [| discriminate | discriminate].
      destruct (revertRegion (cur bs)) as [rr |] eqn:Hrr; [| discriminate].
      destruct (createOperator _ rr _ _) as [[typ' [o' |]] |] eqn:Hc2;
        cbn [mbind option_bind snd fst]; [| discriminate | discriminate].
      intros [= <- <- <-].
      destruct (createOperator_Some createFails _ _ _ _ o Hc1 eq_refl) as [Hid1 Hk1].
      destruct (createOperator_Some createFails _ _ _ _ o' Hc2 eq_refl) as [Hid2 Hk2].
      exists r, rr. split; [done |]. split; [done |]. split; [done |]. split; [done |].
      split; [by apply (Hdiff r rr) |]. left.
      eexists src, dst, _, _. cbn. repeat split; done.
    + rewrite <- Hsr. intros [= Hops].
      pose proof (createSplitOperator_bySize Between createFails bs (splitRegions bs)) as Hb.
      rewrite Hops in Hb. cbn [fst] in Hb. symmetry in Hb.
      apply omap_two in Hb as (a & b & Hab & Ha & Hb); [| apply splitRegions_length].
      pose proof (splitRegions_two bs a b Hab) as (Hty & Hmain & Hrr).
      assert (Ha' : a ∈ splitRegions bs) by (rewrite Hab; by left).
      assert (Hb' : b ∈ splitRegions bs) by (rewrite Hab; right; by left).
      apply splitRegions_spec in Ha' as (_ & _ & Hasize).
      apply splitRegions_spec in Hb' as (_ & _ & Hbsize).
      apply splitBucketBySize_Some in Ha as (k1 & _ & ->).
      apply splitBucketBySize_Some in Hb as (k2 & _ & ->).
      exists a, b. split; [done |]. split; [done |]. split; [done |]. split; [done |].
      split; [by apply (Hdiff a b) |]. right. done.
Qed.

End OperatorPair.

(** C3 applied to the hedged move of region 7 from store 1 to store 2
    with region 8 in return: two move operators, labelled 1 to 2 and 2
    to 1. *)
Lemma buildOperators_at_most_two_witness :
  buildOperators ex.deref ex.Between ex.neverFails
    (ex.solver movePeer (ex.hedged ex.store2) None [] 1000)
  = Some (ex.hedgedOps, ex.hedged ex.store2)
  /\ (length ex.hedgedOps <= 2)%nat.
Proof.
  split; [reflexivity |].
  exact (proj1 (buildOperators_at_most_two ex.deref ex.Between ex.neverFails
                  (ex.solver movePeer (ex.hedged ex.store2) None [] 1000)
                  ex.hedgedOps (ex.hedged ex.store2) eq_refl)).
Defined.

(** The claim C3 as stated fails: for the hedged move-peer solution
    whose two regions grew beyond the movable size, two operators are
    emitted and the second is no revert of the first: both are splits,
    without a source or a destination store. *)
Lemma buildOperators_two_splits :
  fst <$> buildOperators ex.deref ex.Between ex.neverFails
            (ex.solver movePeer ex.hedgedGrown None [] 1000)
  = Some [NewOperator (ex.grown ex.region7) (operator.SplitRegion [ex.key Byte.x16]);
          NewOperator (ex.grown ex.region8) (operator.SplitRegion [ex.key Byte.x28])]
  /\ operator.Kind_isSplit
       (NewOperator (ex.grown ex.region8) (operator.SplitRegion [ex.key Byte.x28])) = true
  /\ operator.Decor
       (NewOperator (ex.grown ex.region8) (operator.SplitRegion [ex.key Byte.x28])) = None.
Proof. repeat split. Qed.

(** * Further properties of the ledger *)

(** ** Registering an operator *)

(** X1.  The scheduler's insert is an insert-if-absent: it succeeds
    exactly when the region has no entry; on success the region reads
    back the new entry; on failure the ledger is the same; the other
    regions are never touched; and whatever it returned, a further
    insert for the same region fails and changes nothing. *)
Theorem sche_tryAddPendingInfluence_insert_lookup
    (regionPendings : gmap N pendingInfluence) (o : operator.Operator)
    (srcs : list N) (dst : N) (i : statistics.Influence) (z : Z) :
  let r := sche_tryAddPendingInfluence regionPendings o srcs dst i z in
  (r.1 = true <-> regionPendings !! operator.RegionID o = None)
  /\ (r.1 = true ->
      r.2 !! operator.RegionID o = Some (newPendingInfluence o srcs dst i z))
  /\ (r.1 = false -> r.2 = regionPendings)
  /\ (forall j, j <> operator.RegionID o -> r.2 !! j = regionPendings !! j)
  /\ (forall o' srcs' dst' i' z',
        operator.RegionID o' = operator.RegionID o ->
        sche_tryAddPendingInfluence r.2 o' srcs' dst' i' z' = (false, r.2)).
Proof.
  intros r. subst r. unfold sche_tryAddPendingInfluence.
  destruct (regionPendings !! operator.RegionID o) as [e |] eqn:He; cbn [fst snd].
  - split; [split; discriminate |]. split; [discriminate |]. split; [done |].
    split; [done |]. intros o' srcs' dst' i' z' ->. by rewrite He.
  - split; [done |]. split; [intros _; apply lookup_insert_eq |].
    split; [discriminate |]. split.
    + intros j Hj. by rewrite lookup_insert_ne.
    + intros o' srcs' dst' i' z' ->. by rewrite lookup_insert_eq.
Qed.

Section SubmitMore.

Variable deref : positive -> statistics.HotPeerStat.
Variable collectPendingInfluence : balanceSolver -> statistics.HotPeerStat -> statistics.Influence.

(** The ledgers a submission can leave: the old one with a failure; or
    the old one plus an entry for the first operator; or, with success,
    plus entries for the first two operators. *)
Lemma tryAddPendingInfluence_shape (bs : balanceSolver)
    (regionPendings regionPendings' : gmap N pendingInfluence) (ok : bool) :
  tryAddPendingInfluence deref collectPendingInfluence bs regionPendings
  = Some (ok, regionPendings') ->
  (ok = false /\ regionPendings' = regionPendings)
  \/ exists op0 rest e0,
       ops bs = op0 :: rest
       /\ regionPendings !! operator.RegionID op0 = None
       /\ op e0 = op0
       /\ (regionPendings' = <[operator.RegionID op0 := e0]> regionPendings
           \/ exists op1 rest' e1,
                rest = op1 :: rest' /\ ok = true /\ op e1 = op1
                /\ operator.Kind_isSplit op0 = false
                /\ (<[operator.RegionID op0 := e0]> regionPendings)
                     !! operator.RegionID op1 = None
                /\ regionPendings'
                   = <[operator.RegionID op1 := e1]>
                       (<[operator.RegionID op0 := e0]> regionPendings)).
Proof.
  unfold tryAddPendingInfluence.
  destruct (best bs) as [b |]; [| intros [= <- <-]; by left].
  destruct (ops bs) as [| op0 rest]; [intros [= <- <-]; by left |].
  assert (Hfirst : forall srcs dst z peer,
            (let '(ok0, rp0) :=
               sche_tryAddPendingInfluence regionPendings op0 srcs dst
                 (collectPendingInfluence bs (deref peer)) z in
             if negb ok0 then Some (false, rp0)
             else if operator.Kind_isSplit op0 then Some (true, rp0)
             else
               match revertPeerStat b, rest with
               | Some rpeer, op1 :: _ =>
                   let '(ok1, rp1) :=
                     sche_tryAddPendingInfluence rp0 op1 srcs dst
                       (collectPendingInfluence bs (deref rpeer)) z in
                   if negb ok1 then Some (false, rp1) else Some (true, rp1)
               | _, _ => Some (true, rp0)
               end) = Some (ok, regionPendings') ->
            (ok = false /\ regionPendings' = regionPendings)
            \/ exists op0' rest0 e0,
                 op0 :: rest = op0' :: rest0
                 /\ regionPendings !! operator.RegionID op0' = None
                 /\ op e0 = op0'
                 /\ (regionPendings' = <[operator.RegionID op0' := e0]> regionPendings
                     \/ exists op1 rest' e1,
                          rest0 = op1 :: rest' /\ ok = true /\ op e1 = op1
                          /\ operator.Kind_isSplit op0' = false
                          /\ (<[operator.RegionID op0' := e0]> regionPendings)
                               !! operator.RegionID op1 = None
                          /\ regionPendings'
                             = <[operator.RegionID op1 := e1]>
                                 (<[operator.RegionID op0' := e0]> regionPendings))).
  { intros srcs dst z peer. unfold sche_tryAddPendingInfluence at 1.
    destruct (regionPendings !! operator.RegionID op0) as [e |] eqn:He; cbn [negb].
    { intros [= <- <-]. by left. }
    set (e0 := newPendingInfluence op0 srcs dst (collectPendingInfluence bs (deref peer)) z).
    destruct (operator.Kind_isSplit op0) eqn:Hsplit.
    { intros [= <- <-]. right. exists op0, rest, e0. by eauto. }
    destruct (revertPeerStat b) as [rpeer |];
      [| intros [= <- <-]; right; exists op0, rest, e0; by eauto].
    destruct rest as [| op1 rest'];
      [intros [= <- <-]; right; exists op0, [], e0; by eauto |].
    unfold sche_tryAddPendingInfluence.
    destruct (<[operator.RegionID op0:=e0]> regionPendings !! operator.RegionID op1)
      as [e' |] eqn:He1; cbn [negb]; intros [= <- <-]; right;
      exists op0, (op1 :: rest'), e0; split; [done | | done |]; split; try done;
      split; try done.
    - by left.
    - right. eexists op1, rest', _. repeat split; try done. }
  destruct (operator.Kind_isSplit op0).
  - cbn [mbind option_bind negb].
    case_bind (calcMaxZombieDur bs b) as [z |].
    destruct (GetRegion _ _) as [r |]; cbn [mbind option_bind];
      [| intros [= <- <-]; by left].
    case_bind (mainPeerStat b) as [peer |]. apply Hfirst.
  - case_bind (srcStore b) as [src |].
    case_bind (dstStore b) as [dst |].
    destruct (eqb _ _); cbn [negb]; [| intros [= <- <-]; by left].
    case_bind (calcMaxZombieDur bs b) as [z |].
    case_bind (mainPeerStat b) as [peer |]. apply Hfirst.
Qed.

(** A successful submission registers the first operator. *)
Lemma tryAddPendingInfluence_true_first (bs : balanceSolver)
    (regionPendings regionPendings' : gmap N pendingInfluence) :
  tryAddPendingInfluence deref collectPendingInfluence bs regionPendings
  = Some (true, regionPendings') ->
  exists op0 rest, ops bs = op0 :: rest
                   /\ is_Some (regionPendings' !! operator.RegionID op0).
Proof.
  intros H. apply tryAddPendingInfluence_shape in H as [[? _] | H]; [done |].
  destruct H as (op0 & rest & e0 & Hops & Hnone & _ & [-> | H]).
  - exists op0, rest. split; [done |]. rewrite lookup_insert_eq. by eexists.
  - destruct H as (op1 & rest' & e1 & -> & _ & _ & _ & Hnone1 & ->).
    exists op0, (op1 :: rest'). split; [done |].
    destruct (decide (operator.RegionID op1 = operator.RegionID op0)) as [Heq | Hne].
    + rewrite Heq, lookup_insert_eq. by eexists.
    + rewrite lookup_insert_ne, lookup_insert_eq by done. by eexists.
Qed.

Lemma tryAddPendingInfluence_grows (bs : balanceSolver)
    (regionPendings regionPendings' : gmap N pendingInfluence) (ok : bool) :
  tryAddPendingInfluence deref collectPendingInfluence bs regionPendings
  = Some (ok, regionPendings') ->
  regionPendings ⊆ regionPendings'.
Proof.
  intros H. apply tryAddPendingInfluence_shape in H as [[_ ->] | H]; [done |].
  destruct H as (op0 & rest & e0 & Hops & Hnone & _ & [-> | H]).
  - by apply insert_subseteq.
  - destruct H as (op1 & rest' & e1 & -> & _ & _ & _ & Hnone1 & ->).
    etransitivity; [by apply insert_subseteq |]. by apply insert_subseteq.
Qed.

(** X2.  Submitting a batch never removes and never overwrites an entry
    of the ledger: the old ledger is contained in the new one.  The
    regions it adds are regions of the first two operators of the
    batch, and when it reports success the region of the first
    operator is pending afterwards. *)
Theorem tryAddPendingInfluence_only_adds (bs : balanceSolver)
    (regionPendings regionPendings' : gmap N pendingInfluence) (ok : bool) :
  tryAddPendingInfluence deref collectPendingInfluence bs regionPendings
  = Some (ok, regionPendings') ->
  regionPendings ⊆ regionPendings'
  /\ (forall id e, regionPendings' !! id = Some e -> regionPendings !! id = None ->
        exists o, o ∈ take 2 (ops bs) /\ operator.RegionID o = id /\ op e = o)
  /\ (ok = true ->
      exists op0 rest, ops bs = op0 :: rest
                       /\ is_Some (regionPendings' !! operator.RegionID op0)).
Proof.
  intros H. split; [by eapply tryAddPendingInfluence_grows |].
  split; [| intros ->; by eapply tryAddPendingInfluence_true_first].
  apply tryAddPendingInfluence_shape in H as [[_ ->] | H]; [congruence |].
  destruct H as (op0 & rest & e0 & Hops & Hnone & He0 & [-> | H]).
  - intros id e He Hid. rewrite Hops.
    destruct (decide (operator.RegionID op0 = id)) as [<- | Hne].
    + rewrite lookup_insert_eq in He. injection He as <-. exists op0.
      split; [| done]. destruct rest; by left.
    + rewrite lookup_insert_ne in He by done. congruence.
  - destruct H as (op1 & rest' & e1 & -> & _ & He1 & _ & Hnone1 & ->).
    intros id e He Hid. rewrite Hops. cbn [take].
    destruct (decide (operator.RegionID op1 = id)) as [<- | Hne1].
    + rewrite lookup_insert_eq in He. injection He as <-. exists op1.
      split; [| done]. right. by left.
    + rewrite lookup_insert_ne in He by done.
      destruct (decide (operator.RegionID op0 = id)) as [<- | Hne0].
      * rewrite lookup_insert_eq in He. injection He as <-. exists op0.
        split; [| done]. by left.
      * rewrite lookup_insert_ne in He by done. congruence.
Qed.

End SubmitMore.

(** X2 applied to the hedged batch on the empty ledger: it succeeds
    and leaves the regions 7 and 8 pending. *)
Lemma tryAddPendingInfluence_only_adds_witness :
  (∅ : gmap N pendingInfluence)
  ⊆ <[ 8%N := newPendingInfluence ex.revertOp [1%N] 2 (ex.infl 90) 30 ]>
      (<[ 7%N := ex.mainEntry ]> ∅)
  /\ tryAddPendingInfluence ex.deref ex.collect (ex.hedgedSolver ex.store2) ∅
     = Some (true, <[ 8%N := newPendingInfluence ex.revertOp [1%N] 2 (ex.infl 90) 30 ]>
                     (<[ 7%N := ex.mainEntry ]> ∅)).
Proof.
  split; [| by vm_compute].
  exact (proj1 (tryAddPendingInfluence_only_adds ex.deref ex.collect
                  (ex.hedgedSolver ex.store2) ∅ _ true eq_refl)).
Defined.

Section SubmitAgain.

Variable deref : positive -> statistics.HotPeerStat.
Variable collectPendingInfluence : balanceSolver -> statistics.HotPeerStat -> statistics.Influence.

(** X3.  Of a batch of split operators only the first is registered:
    its entry lists every store of its region as a [from] store and
    store 0 as the [to] store, and the operators after it get no
    entry.  The engines of the source and the destination store are
    not compared.  A region that the cluster does not know, or that is
    pending already, drops the batch and leaves the ledger alone. *)
Theorem tryAddPendingInfluence_split_batch (bs : balanceSolver)
    (regionPendings : gmap N pendingInfluence) (b : solution)
    (op0 : operator.Operator) (rest : list operator.Operator) (peer : positive) (z : Z) :
  best bs = Some b -> ops bs = op0 :: rest ->
  operator.Kind_isSplit op0 = true ->
  mainPeerStat b = Some peer -> calcMaxZombieDur bs b = Some z ->
  tryAddPendingInfluence deref collectPendingInfluence bs regionPendings
  = match GetRegion (cluster bs) (operator.RegionID op0),
          regionPendings !! operator.RegionID op0 with
    | Some r, None =>
        Some (true,
              <[operator.RegionID op0 :=
                  newPendingInfluence op0 (core.GetStoreIDs r) 0
                    (collectPendingInfluence bs (deref peer)) z]> regionPendings)
    | _, _ => Some (false, regionPendings)
    end.
Proof.
  intros Hb Hops Hsplit Hpeer Hz. unfold tryAddPendingInfluence.
  rewrite Hb, Hops, Hsplit. cbn [mbind option_bind negb]. rewrite Hz.
  cbn [mbind option_bind].
  destruct (GetRegion _ _) as [r |]; cbn [mbind option_bind]; [| done].
  rewrite Hpeer. cbn [mbind option_bind]. unfold sche_tryAddPendingInfluence.
  by destruct (regionPendings !! operator.RegionID op0).
Qed.

(** A batch that was registered once is refused on any ledger in which
    the region of its first operator is pending. *)
Lemma tryAddPendingInfluence_blocked (bs : balanceSolver)
    (rp rp1 rp2 : gmap N pendingInfluence)
    (op0 : operator.Operator) (rest : list operator.Operator) :
  tryAddPendingInfluence deref collectPendingInfluence bs rp = Some (true, rp1) ->
  ops bs = op0 :: rest ->
  is_Some (rp2 !! operator.RegionID op0) ->
  tryAddPendingInfluence deref collectPendingInfluence bs rp2 = Some (false, rp2).
Proof.
  intros H Hops Hpending. revert H. unfold tryAddPendingInfluence. rewrite Hops.
  destruct (best bs) as [b |]; [| discriminate].
  destruct (operator.Kind_isSplit op0).
  - cbn [mbind option_bind negb].
    case_bind (calcMaxZombieDur bs b) as [z |].
    destruct (GetRegion _ _) as [r |]; cbn [mbind option_bind]; [| discriminate].
    case_bind (mainPeerStat b) as [peer |]. intros _.
    by rewrite sche_tryAddPendingInfluence_false.
  - case_bind (srcStore b) as [src |].
    case_bind (dstStore b) as [dst |].
    destruct (eqb _ _); cbn [negb]; [| discriminate].
    case_bind (calcMaxZombieDur bs b) as [z |].
    case_bind (mainPeerStat b) as [peer |]. intros _.
    by rewrite sche_tryAddPendingInfluence_false.
Qed.

(** What the write schedulers return: nothing, or the operators of the
    solver after a successful submission. *)
Lemma balanceHotWrite_result (solver : balanceSolver)
    (rp rp' : gmap N pendingInfluence) (out : list operator.Operator) :
  balanceHotWrite deref collectPendingInfluence solver rp = Some (out, rp') ->
  rp ⊆ rp'
  /\ (out = []
      \/ (out = ops solver
          /\ tryAddPendingInfluence deref collectPendingInfluence solver rp
             = Some (true, rp'))).
Proof.
  unfold balanceHotWrite. destruct (ops solver) as [| o l] eqn:Hops.
  - intros [= <- <-]. split; [done | by left].
  - destruct (tryAddPendingInfluence _ _ solver rp) as [[[] rp0] |] eqn:Htry;
      [| | discriminate]; intros [= <- <-];
      (split; [by eapply tryAddPendingInfluence_grows |]); [right | left]; done.
Qed.

(** X4.  Once the write scheduler has emitted the operators of a
    solver, the same solver emits nothing on the ledger it left, nor on
    any larger ledger, and leaves that ledger as it is: the entry of
    the first operator blocks the batch until it is collected. *)
Theorem balanceHotWrite_repeat (solver : balanceSolver)
    (rp rp' rp2 : gmap N pendingInfluence)
    (o : operator.Operator) (os : list operator.Operator) :
  balanceHotWrite deref collectPendingInfluence solver rp = Some (o :: os, rp') ->
  rp' ⊆ rp2 ->
  balanceHotWrite deref collectPendingInfluence solver rp2 = Some ([], rp2).
Proof.
  intros H Hsub. apply balanceHotWrite_result in H as [_ [H | [Hops Htry]]]; [done |].
  destruct (tryAddPendingInfluence_true_first _ _ _ _ _ Htry) as (op0 & rest & Hops' & Hin).
  assert (Hin2 : is_Some (rp2 !! operator.RegionID op0)).
  { destruct Hin as [e He]. exists e. by eapply lookup_weaken. }
  unfold balanceHotWrite. rewrite Hops'.
  by rewrite (tryAddPendingInfluence_blocked solver rp rp' rp2 op0 rest Htry Hops' Hin2).
Qed.

Variable betterThan : balanceSolver -> option solution -> bool.

Lemma tryBoth_result (first second : balanceSolver)
    (rp rp' : gmap N pendingInfluence) (out : list operator.Operator) :
  tryBoth deref collectPendingInfluence first second rp = Some (out, rp') ->
  rp ⊆ rp'
  /\ (out = [] \/ out = ops first \/ out = ops second)
  /\ (forall op0 rest, out = op0 :: rest -> is_Some (rp' !! operator.RegionID op0)).
Proof.
  unfold tryBoth.
  destruct (tryAddPendingInfluence _ _ first rp) as [[[] rp0] |] eqn:H1; [| | discriminate].
  - intros [= <- <-]. split; [by eapply tryAddPendingInfluence_grows |].
    split; [by right; left |]. intros op0 rest Hout.
    destruct (tryAddPendingInfluence_true_first _ _ _ _ _ H1) as (op0' & rest' & Hops & Hin).
    congruence.
  - destruct (tryAddPendingInfluence _ _ second rp0) as [[[] rp1] |] eqn:H2;
      [| | discriminate]; intros [= <- <-].
    + split.
      { etransitivity; by eapply tryAddPendingInfluence_grows. }
      split; [by right; right |]. intros op0 rest Hout.
      destruct (tryAddPendingInfluence_true_first _ _ _ _ _ H2) as (op0' & rest' & Hops & Hin).
      congruence.
    + split.
      { etransitivity; by eapply tryAddPendingInfluence_grows. }
      split; [by left | done].
Qed.

(** X5.  The read scheduler emits nothing, the operators of the leader
    solver or those of the peer solver, never a mixture; the ledger
    only grows; whenever it emits operators the region of the first
    one is pending afterwards; and with no operator from either solver
    it emits nothing and leaves the ledger as it is. *)
Theorem balanceHotReadRegions_result (leaderSolver peerSolver : balanceSolver)
    (rp rp' : gmap N pendingInfluence) (out : list operator.Operator) :
  balanceHotReadRegions deref collectPendingInfluence betterThan leaderSolver peerSolver rp
  = Some (out, rp') ->
  rp ⊆ rp'
  /\ (out = [] \/ out = ops leaderSolver \/ out = ops peerSolver)
  /\ (forall op0 rest, out = op0 :: rest -> is_Some (rp' !! operator.RegionID op0))
  /\ (ops leaderSolver = [] -> ops peerSolver = [] -> out = [] /\ rp' = rp).
Proof.
  unfold balanceHotReadRegions.
  assert (Hwrite : forall solver,
            balanceHotWrite deref collectPendingInfluence solver rp = Some (out, rp') ->
            rp ⊆ rp' /\ (out = [] \/ out = ops solver)
            /\ (forall op0 rest, out = op0 :: rest ->
                  is_Some (rp' !! operator.RegionID op0))).
  { intros solver H. apply balanceHotWrite_result in H as [Hsub [-> | [-> Htry]]].
    - split; [done |]. split; [by left | done].
    - split; [done |]. split; [by right |]. intros op0 rest Hout.
      destruct (tryAddPendingInfluence_true_first _ _ _ _ _ Htry)
        as (op0' & rest' & Hops & Hin). congruence. }
  destruct (ops leaderSolver) as [| lo ll] eqn:Hl, (ops peerSolver) as [| po pl] eqn:Hp.
  - intros [= <- <-]. split; [done |]. split; [by left |]. split; done.
  - intros H. apply Hwrite in H as (Hsub & Hout & Hfirst). rewrite Hp in Hout.
    split; [done |]. split; [tauto |]. split; done.
  - intros H. apply Hwrite in H as (Hsub & Hout & Hfirst). rewrite Hl in Hout.
    split; [done |]. split; [tauto |]. split; done.
  - intros H.
    assert (Hboth : rp ⊆ rp'
              /\ (out = [] \/ out = lo :: ll \/ out = po :: pl)
              /\ (forall op0 rest, out = op0 :: rest ->
                    is_Some (rp' !! operator.RegionID op0))).
    { destruct (betterThan leaderSolver (best peerSolver));
        apply tryBoth_result in H as (Hsub & Hout & Hfirst); rewrite Hl, Hp in Hout;
        (split; [done |]); (split; [tauto | done]). }
    destruct Hboth as (Hsub & Hout & Hfirst). split; [done |]. split; [done |]. split; done.
Qed.

End SubmitAgain.

(** X3 applied to the two splits of the grown regions 7 and 8: only
    region 7 gets an entry, from the stores of region 7 to store 0. *)
Lemma tryAddPendingInfluence_split_batch_witness :
  tryAddPendingInfluence ex.deref ex.collect ex2.splitSolver ∅
  = Some (true,
          {[ 7%N := newPendingInfluence ex2.split7 (core.GetStoreIDs ex.region7) 0
                      (ex.infl 100) 30 ]})
  /\ core.GetStoreIDs ex.region7 = [3%N; 1%N].
Proof.
  split; [| by vm_compute].
  exact (tryAddPendingInfluence_split_batch ex.deref ex.collect ex2.splitSolver ∅
           ex.hedgedGrown ex2.split7 [ex2.split8] 1%positive 30
           eq_refl eq_refl eq_refl eq_refl eq_refl).
Defined.

(** X4 applied: the hedged batch is emitted on the empty ledger, and
    refused on the ledger this leaves. *)
Lemma balanceHotWrite_repeat_witness :
  balanceHotWrite ex.deref ex.collect (ex.hedgedSolver ex.store2) ∅
  = Some (ex.hedgedOps,
          <[ 8%N := newPendingInfluence ex.revertOp [1%N] 2 (ex.infl 90) 30 ]>
            (<[ 7%N := ex.mainEntry ]> ∅))
  /\ balanceHotWrite ex.deref ex.collect (ex.hedgedSolver ex.store2)
       (<[ 8%N := newPendingInfluence ex.revertOp [1%N] 2 (ex.infl 90) 30 ]>
          (<[ 7%N := ex.mainEntry ]> ∅))
     = Some ([], <[ 8%N := newPendingInfluence ex.revertOp [1%N] 2 (ex.infl 90) 30 ]>
                   (<[ 7%N := ex.mainEntry ]> ∅)).
Proof.
  assert (H : balanceHotWrite ex.deref ex.collect (ex.hedgedSolver ex.store2) ∅
              = Some (ex.mainOp :: [ex.revertOp],
                      <[ 8%N := newPendingInfluence ex.revertOp [1%N] 2 (ex.infl 90) 30 ]>
                        (<[ 7%N := ex.mainEntry ]> ∅))) by (by vm_compute).
  split; [exact H |].
  exact (balanceHotWrite_repeat ex.deref ex.collect (ex.hedgedSolver ex.store2) ∅ _ _
           ex.mainOp [ex.revertOp] H (reflexivity _)).
Defined.

(** X5 applied: with the hedged batch from the leader solver and
    nothing from the peer solver, the read scheduler emits the hedged
    batch. *)
Lemma balanceHotReadRegions_result_witness :
  balanceHotReadRegions ex.deref ex.collect (fun _ _ => true)
    (ex.hedgedSolver ex.store2) (ex.solver movePeer (ex.hedged ex.store2) None [] 1000) ∅
  = Some (ex.hedgedOps,
          <[ 8%N := newPendingInfluence ex.revertOp [1%N] 2 (ex.infl 90) 30 ]>
            (<[ 7%N := ex.mainEntry ]> ∅))
  /\ (ex.hedgedOps = [] \/ ex.hedgedOps = ops (ex.hedgedSolver ex.store2)
      \/ ex.hedgedOps = ops (ex.solver movePeer (ex.hedged ex.store2) None [] 1000)).
Proof.
  assert (H : balanceHotReadRegions ex.deref ex.collect (fun _ _ => true)
                (ex.hedgedSolver ex.store2)
                (ex.solver movePeer (ex.hedged ex.store2) None [] 1000) ∅
              = Some (ex.hedgedOps,
                      <[ 8%N := newPendingInfluence ex.revertOp [1%N] 2 (ex.infl 90) 30 ]>
                        (<[ 7%N := ex.mainEntry ]> ∅))) by (by vm_compute).
  split; [exact H |].
  exact (proj1 (proj2 (balanceHotReadRegions_result ex.deref ex.collect (fun _ _ => true)
                         _ _ _ _ _ H))).
Defined.

(** ** Ageing and collecting entries *)

(** When an entry is to be collected, in terms of its operator. *)
Lemma needGC_spec (now : Z) (p : pendingInfluence) :
  needGC now p = true <->
  operator.IsEndStatus (operator.CheckAndGetStatus (op p)) = true
  /\ maxZombieDuration p
     <= now - operator.GetReachTimeOf (op p) (operator.CheckAndGetStatus (op p)).
Proof.
  unfold needGC, calcPendingInfluence.
  destruct (operator.IsEndStatus _); cbn [negb snd]; [| by split; [| intros []]].
  destruct (Z.geb_spec (now - operator.GetReachTimeOf (op p)
                                (operator.CheckAndGetStatus (op p)))
              (maxZombieDuration p)); cbn; split; try done; try lia.
Qed.

(** X6.  [calcPendingInfluence] never asks to collect an entry that
    still weighs: with the collection flag the weight is 0.  And for an
    operator whose status stays as it is, time only ages the entry:
    later on the weight is not larger, and an entry to be collected
    stays to be collected. *)
Theorem calcPendingInfluence_ageing (now now' : Z) (o : operator.Operator)
    (maxZombieDur : Z) :
  ((calcPendingInfluence now o maxZombieDur).2 = true ->
   (calcPendingInfluence now o maxZombieDur).1 = 0%Q)
  /\ (now <= now' ->
      ((calcPendingInfluence now' o maxZombieDur).1
       <= (calcPendingInfluence now o maxZombieDur).1)%Q
      /\ ((calcPendingInfluence now o maxZombieDur).2 = true ->
          (calcPendingInfluence now' o maxZombieDur).2 = true)).
Proof.
  unfold calcPendingInfluence.
  destruct (operator.IsEndStatus (operator.CheckAndGetStatus o)); cbn [negb].
  2: { split; [discriminate |]. intros _. split; [apply Qle_refl | discriminate]. }
  generalize (operator.GetReachTimeOf o (operator.CheckAndGetStatus o)). intros reach.
  split.
  - destruct (now - reach >=? maxZombieDur); cbn; [| discriminate].
    by destruct (operator.isSUCCESS _).
  - intros Hle.
    destruct (Z.geb_spec (now - reach) maxZombieDur),
             (Z.geb_spec (now' - reach) maxZombieDur); try lia;
      destruct (operator.isSUCCESS _); cbn; split; try done; discriminate.
Qed.

Section DecayMore.

Context {StoreSummaryInfo : Type}.
Variable AddInfluence : StoreSummaryInfo -> statistics.Influence -> Q -> StoreSummaryInfo.

(** The ledger a pass leaves, region by region. *)
Lemma summaryPendingInfluence_ledger (now : Z) (rp : gmap N pendingInfluence)
    (infos : gmap N StoreSummaryInfo) (id : N) (p : pendingInfluence) :
  (summaryPendingInfluence AddInfluence now rp infos).1 !! id = Some p <->
  rp !! id = Some p /\ (needGC now p = true -> froms p = []).
Proof.
  unfold summaryPendingInfluence. rewrite summaryPass_fold. cbn [fst].
  rewrite sweep_lookup. split.
  - intros [Hm Hl]. split; [done |]. apply Hl. by apply elem_of_map_to_list.
  - intros [Hm Hgc]. split; [done |]. intros q Hq.
    apply elem_of_map_to_list in Hq. rewrite Hm in Hq. by injection Hq as <-.
Qed.

(** X7.  What a decay pass does to the ledger depends on the ledger
    and the clock alone, not on the store summaries; it only removes
    entries; and it is idempotent: a second pass at the same time, on
    whatever summaries, removes nothing more. *)
Theorem summaryPendingInfluence_ledger_idempotent (now : Z)
    (rp : gmap N pendingInfluence) (infos infos' : gmap N StoreSummaryInfo) :
  let rp1 := (summaryPendingInfluence AddInfluence now rp infos).1 in
  rp1 ⊆ rp
  /\ (summaryPendingInfluence AddInfluence now rp infos').1 = rp1
  /\ (summaryPendingInfluence AddInfluence now rp1 infos').1 = rp1.
Proof.
  intros rp1. subst rp1. split; [| split].
  - apply map_subseteq_spec. intros id p Hp.
    by apply summaryPendingInfluence_ledger in Hp as [Hp _].
  - apply map_eq. intros id. apply option_eq. intros p.
    by rewrite !summaryPendingInfluence_ledger.
  - apply map_eq. intros id. apply option_eq. intros p.
    rewrite !summaryPendingInfluence_ledger. tauto.
Qed.

(** X8.  When every operator of the ledger ended at least its zombie
    time ago, and every entry lists a [from] store, a decay pass
    empties the ledger and leaves the store summaries as they are. *)
Theorem summaryPendingInfluence_empties (now : Z)
    (rp : gmap N pendingInfluence) (infos : gmap N StoreSummaryInfo) :
  map_Forall
    (fun _ p =>
       froms p <> []
       /\ operator.IsEndStatus (operator.CheckAndGetStatus (op p)) = true
       /\ maxZombieDuration p
          <= now - operator.GetReachTimeOf (op p) (operator.CheckAndGetStatus (op p)))
    rp ->
  summaryPendingInfluence AddInfluence now rp infos = (∅, infos).
Proof.
  intros Hall.
  assert (Hgc : forall id p, rp !! id = Some p -> froms p <> [] /\ needGC now p = true).
  { intros id p Hp. destruct (Hall id p Hp) as (Hfr & Hend & Hold).
    split; [done |]. by apply needGC_spec. }
  rewrite (surjective_pairing (summaryPendingInfluence AddInfluence now rp infos)).
  f_equal.
  - apply map_eq. intros id. rewrite lookup_empty. apply option_eq. intros p.
    rewrite summaryPendingInfluence_ledger. split; [| done].
    intros [Hp Hfr]. destruct (Hgc id p Hp) as [Hne Hg]. by apply Hfr in Hg.
  - unfold summaryPendingInfluence. rewrite summaryPass_fold. cbn [snd].
    assert (Hnil : flat_map (fun e => entryCalls now e.2) (map_to_list rp) = []).
    { assert (Hl : forall e, e ∈ map_to_list rp -> needGC now e.2 = true).
      { intros [id p] He. apply elem_of_map_to_list in He. by apply (Hgc id p). }
      induction (map_to_list rp) as [| e l IH]; [done |].
      cbn [flat_map]. rewrite IH by (intros e' He'; apply Hl; by right).
      unfold entryCalls. rewrite (Hl e) by (by left). done. }
    by rewrite Hnil.
Qed.

End DecayMore.

(** X8 applied at time 100 to three entries whose operators ended at
    10, 20 and 30, with a zombie time of 30. *)
Lemma summaryPendingInfluence_empties_witness :
  summaryPendingInfluence ex.countInfluence 100 ex2.ledgerEnded ex.zeroInfos
  = (∅, ex.zeroInfos).
Proof.
  apply (summaryPendingInfluence_empties ex.countInfluence 100 ex2.ledgerEnded).
  apply map_Forall_to_list.
  assert (Hl : map_to_list ex2.ledgerEnded
               = [(8%N, ex.entry 8 operator.TIMEOUT 20 [2%N; 3%N] 0);
                  (9%N, ex.entry 9 operator.CANCELED 30 [3%N] 1);
                  (7%N, ex.entry 7 operator.SUCCESS 10 [1%N] 2)]) by (by vm_compute).
  rewrite Hl. repeat constructor; cbn; try discriminate; lia.
Defined.

(** * Further properties of the hot peers of a store *)

(** One iteration, started short of [maxPeerNum], stays within
    [maxPeerNum], takes its peers from what is left of the lists, and
    only shortens the lists. *)
Lemma sortHotPeersBody_bounds (maxPeerNum : Z) (u : gset positive)
    (r1 r2 : list positive) :
  Z.of_nat (size u) < maxPeerNum ->
  let st := sortHotPeersBody maxPeerNum (u, r1, r2) in
  Z.of_nat (size st.1.1) <= maxPeerNum
  /\ (forall p, p ∈ st.1.1 -> p ∈ u \/ p ∈ r1 \/ p ∈ r2)
  /\ (forall p, p ∈ st.1.2 -> p ∈ r1)
  /\ (forall p, p ∈ st.2 -> p ∈ r2).
Proof.
  intros Hlt. unfold sortHotPeersBody.
  pose proof (takeFirst_union u r1) as Hu1.
  destruct (takeFirst_consumed u r1) as (c1 & Hc1 & _).
  destruct (takeFirst u r1) as [u1 r1']. cbn [fst snd] in *. subst u1.
  assert (Hin1 : forall p, p ∈ takeUnseen u r1 -> p ∈ u \/ p ∈ r1).
  { intros p. unfold takeUnseen. destruct (unseenHead u r1) as [q |] eqn:Hq; [| by left].
    apply unseenHead_Some in Hq as [Hq _]. intros Hp.
    apply elem_of_union in Hp as [Hp | Hp]; [| by left].
    apply elem_of_singleton in Hp as ->. by right. }
  pose proof (takeUnseen_size_le u r1) as Hs1.
  assert (Hr1 : forall p, p ∈ r1' -> p ∈ r1).
  { intros p Hp. rewrite Hc1. apply elem_of_app. by right. }
  destruct (Z.ltb_spec (Z.of_nat (size (takeUnseen u r1))) maxPeerNum) as [Hlt' | Hge].
  - rewrite takeSecond_lt by done.
    pose proof (takeFirst_union (takeUnseen u r1) r2) as Hu2.
    destruct (takeFirst_consumed (takeUnseen u r1) r2) as (c2 & Hc2 & _).
    destruct (takeFirst (takeUnseen u r1) r2) as [u2 r2']. cbn [fst snd] in *. subst u2.
    pose proof (takeUnseen_size_le (takeUnseen u r1) r2) as Hs2.
    split; [lia |]. split; [| split; [done |]].
    + intros p. unfold takeUnseen at 1.
      destruct (unseenHead (takeUnseen u r1) r2) as [q |] eqn:Hq.
      * apply unseenHead_Some in Hq as [Hq _]. intros Hp.
        apply elem_of_union in Hp as [Hp | Hp].
        -- apply elem_of_singleton in Hp as ->. by right; right.
        -- destruct (Hin1 p Hp); tauto.
      * intros Hp. destruct (Hin1 p Hp); tauto.
    + intros p Hp. rewrite Hc2. apply elem_of_app. by right.
  - rewrite takeSecond_ge by done. cbn [fst snd].
    split; [lia |]. split; [| split; done].
    intros p Hp. destruct (Hin1 p Hp); tauto.
Qed.

Lemma sortHotPeersLoop_result (maxPeerNum : Z) (fuel : nat) :
  forall (u : gset positive) (r1 r2 : list positive) (res : gset positive),
    Z.of_nat (size u) <= Z.max 0 maxPeerNum ->
    sortHotPeersLoop fuel maxPeerNum (u, r1, r2) = Some res ->
    size res = Z.to_nat maxPeerNum
    /\ (forall p, p ∈ res -> p ∈ u \/ p ∈ r1 \/ p ∈ r2).
Proof.
  induction fuel as [| fuel IH]; intros u r1 r2 res Hle; cbn [sortHotPeersLoop fst];
    destruct (Z.ltb_spec (Z.of_nat (size u)) maxPeerNum) as [Hlt | Hge];
    try discriminate; try (intros [= <-]; split; [lia | by left]).
  pose proof (sortHotPeersBody_bounds maxPeerNum u r1 r2 Hlt) as (Hb & Hin & H1 & H2).
  destruct (sortHotPeersBody maxPeerNum (u, r1, r2)) as [[u' r1'] r2'].
  cbn [fst snd] in *. intros Hres.
  apply IH in Hres as [Hsize Hres]; [| lia]. split; [done |].
  intros p Hp. destruct (Hres p Hp) as [Hp' | [Hp' | Hp']].
  - by apply Hin.
  - right; left. by apply H1.
  - right; right. by apply H2.
Qed.

Lemma sortHotPeersLoop_more_fuel (maxPeerNum : Z) (fuel : nat) :
  forall (st : gset positive * list positive * list positive) (res : gset positive)
         (fuel' : nat),
    sortHotPeersLoop fuel maxPeerNum st = Some res -> (fuel <= fuel')%nat ->
    sortHotPeersLoop fuel' maxPeerNum st = Some res.
Proof.
  induction fuel as [| fuel IH]; intros st res fuel'; cbn [sortHotPeersLoop].
  - destruct (Z.of_nat (size st.1.1) <? maxPeerNum) eqn:Hb; [discriminate |].
    intros H _. destruct fuel'; cbn [sortHotPeersLoop]; by rewrite Hb.
  - destruct (Z.of_nat (size st.1.1) <? maxPeerNum) eqn:Hb.
    + intros H Hle. destruct fuel' as [| fuel']; [lia |].
      cbn [sortHotPeersLoop]. rewrite Hb. apply IH; [done | lia].
    + intros H _. destruct fuel'; cbn [sortHotPeersLoop]; by rewrite Hb.
Qed.

(** X9.  Whenever [sortHotPeers] returns, for whatever lists, the
    union has exactly [maxPeerNum] members (none for a negative
    [maxPeerNum]), each of them a peer of one of the two lists, and
    more iterations of the loop give the same union. *)
Theorem sortHotPeers_result (fuel : nat) (bs : balanceSolver)
    (firstSort secondSort : list positive) (union : gset positive) :
  sortHotPeers fuel bs firstSort secondSort = Some union ->
  size union = Z.to_nat (maxPeerNum bs)
  /\ (forall p, p ∈ union -> p ∈ firstSort \/ p ∈ secondSort)
  /\ (forall fuel', (fuel <= fuel')%nat ->
                    sortHotPeers fuel' bs firstSort secondSort = Some union).
Proof.
  unfold sortHotPeers. intros H.
  destruct (sortHotPeersLoop_result (maxPeerNum bs) fuel ∅ firstSort secondSort union)
    as [Hsize Hin]; [rewrite size_empty; lia | done |].
  split; [done |]. split.
  - intros p Hp. destruct (Hin p Hp) as [Hp' | Hp']; [| done].
    by apply not_elem_of_empty in Hp'.
  - intros fuel' Hle. by eapply sortHotPeersLoop_more_fuel.
Qed.

(** X9 applied to two short lists that share a peer. *)
Lemma sortHotPeers_result_witness :
  let union : gset positive := {[ 3%positive; 4%positive; 5%positive ]} in
  sortHotPeers 2 (ex.solver movePeer (ex.hedged ex.store2) None [] 3)
    [3; 4]%positive [4; 5]%positive = Some union
  /\ size union = 3%nat.
Proof.
  split; [reflexivity |].
  exact (proj1 (sortHotPeers_result 2 (ex.solver movePeer (ex.hedged ex.store2) None [] 3)
                  [3; 4]%positive [4; 5]%positive _ eq_refl)).
Defined.

Section FilterMore.

Variable deref : positive -> statistics.HotPeerStat.
Variable sortSlice : (positive -> positive -> bool) -> list positive -> list positive.

(** X10.  Let [sort.Slice] return permutations.  Whatever
    [filterHotPeers] returns for a store is made of hot peers of that
    store, is not longer than the store's list, and has no peer twice
    when the store's list has none twice.  The peers it records as
    n-th hottest are hot peers of the store too, recorded under the
    first and then the second priority, and they are recorded exactly
    when the store has at least [topnPosition] hot peers. *)
Theorem filterHotPeers_sublist (fuel : nat) (bs : balanceSolver)
    (regionPendings : gmap N pendingInfluence) (storeLoad : statistics.StoreLoadDetail)
    (ret : list positive) (nth : list (nat * positive)) :
  (forall less l, sortSlice less l ≡ₚ l) ->
  filterHotPeers deref sortSlice fuel bs regionPendings storeLoad = Some (ret, nth) ->
  let hotPeers := statistics.HotPeers storeLoad in
  (forall p, p ∈ ret -> p ∈ hotPeers)
  /\ (length ret <= length hotPeers)%nat
  /\ (NoDup hotPeers -> NoDup ret)
  /\ (if Z.of_nat (length hotPeers) >=? topnPosition
      then exists a b, nth = [(firstPriority bs, a); (secondPriority bs, b)]
                       /\ a ∈ hotPeers /\ b ∈ hotPeers
      else nth = []).
Proof.
  intros Hperm Hret hotPeers. revert Hret. unfold filterHotPeers. fold hotPeers.
  set (sorted := (Z.of_nat (length hotPeers) >=? topnPosition)
                 || (Z.of_nat (length hotPeers) >? maxPeerNum bs)).
  set (first := if sorted then sortSlice (byLoadDesc deref (firstPriority bs)) hotPeers
                else []).
  set (second := if sorted then sortSlice (byLoadDesc deref (secondPriority bs)) hotPeers
                 else []).
  assert (Hfirst : forall p, p ∈ first -> p ∈ hotPeers).
  { intros p. unfold first. destruct sorted; [by rewrite Hperm |].
    intros Hp. by apply elem_of_nil in Hp. }
  assert (Hsecond : forall p, p ∈ second -> p ∈ hotPeers).
  { intros p. unfold second. destruct sorted; [by rewrite Hperm |].
    intros Hp. by apply elem_of_nil in Hp. }
  assert (Hnth : forall nth',
            (if Z.of_nat (length hotPeers) >=? topnPosition
             then a ← (first !! Z.to_nat (topnPosition - 1));
                  b ← (second !! Z.to_nat (topnPosition - 1));
                  Some [(firstPriority bs, a); (secondPriority bs, b)]
             else Some []) = Some nth' ->
            if Z.of_nat (length hotPeers) >=? topnPosition
            then exists a b, nth' = [(firstPriority bs, a); (secondPriority bs, b)]
                             /\ a ∈ hotPeers /\ b ∈ hotPeers
            else nth' = []).
  { intros nth'. destruct (Z.of_nat (length hotPeers) >=? topnPosition);
      [| by intros [= <-]].
    destruct (first !! _) as [a |] eqn:Ha; cbn [mbind option_bind]; [| discriminate].
    destruct (second !! _) as [b |] eqn:Hb; cbn [mbind option_bind]; [| discriminate].
    intros [= <-]. exists a, b. split; [done |].
    split; [apply Hfirst | apply Hsecond]; by eapply list_elem_of_lookup_2. }
  destruct (if Z.of_nat (length hotPeers) >=? topnPosition then _ else _) as [nth' |];
    cbn [mbind option_bind]; [| discriminate].
  specialize (Hnth nth' eq_refl).
  destruct (Z.gtb_spec (Z.of_nat (length hotPeers)) (maxPeerNum bs)) as [Hgt | Hle].
  - destruct (sortHotPeers fuel bs first second) as [union |] eqn:Hunion;
      cbn [mbind option_bind]; [| discriminate].
    intros [= <- <-]. rewrite foldl_appendItem. cbn [app].
    apply sortHotPeersLoop_result in Hunion as (Hsize & Hin);
      [| rewrite size_empty; lia].
    split; [| split; [| split; [| done]]].
    + intros p Hp. apply list_elem_of_In, filter_In in Hp as [Hp _].
      apply list_elem_of_In, elem_of_elements in Hp.
      destruct (Hin p Hp) as [Hp' | [Hp' | Hp']];
        [by apply not_elem_of_empty in Hp' | by apply Hfirst | by apply Hsecond].
    + etransitivity; [apply length_filter_le |].
      change (length (elements union)) with (size union). lia.
    + intros _. apply NoDup_ListNoDup, List.NoDup_filter, NoDup_ListNoDup, NoDup_elements.
  - intros [= <- <-]. rewrite foldl_appendItem. cbn [app].
    split; [| split; [| split; [| done]]].
    + intros p Hp. by apply list_elem_of_In, filter_In in Hp as [Hp%list_elem_of_In _].
    + apply length_filter_le.
    + intros Hnd. by apply NoDup_ListNoDup, List.NoDup_filter, NoDup_ListNoDup.
Qed.

(** X11.  For a store whose list is within [maxPeerNum], the result is
    the store's list itself, in its own order, without the peers that
    are pending or cooling down: below [topnPosition] peers nothing is
    sorted and nothing recorded, whatever [sort.Slice] does; from
    [topnPosition] peers on the sort only serves the record of the
    n-th hottest peers. *)
Theorem filterHotPeers_within_max (fuel : nat) (bs : balanceSolver)
    (regionPendings : gmap N pendingInfluence) (storeLoad : statistics.StoreLoadDetail) :
  let hotPeers := statistics.HotPeers storeLoad in
  Z.of_nat (length hotPeers) <= maxPeerNum bs ->
  (Z.of_nat (length hotPeers) < topnPosition ->
   filterHotPeers deref sortSlice fuel bs regionPendings storeLoad
   = Some (List.filter (admissible deref bs regionPendings) hotPeers, []))
  /\ ((forall less l, length (sortSlice less l) = length l) ->
      exists nth,
        filterHotPeers deref sortSlice fuel bs regionPendings storeLoad
        = Some (List.filter (admissible deref bs regionPendings) hotPeers, nth)).
Proof.
  intros hotPeers Hle.
  assert (Hgt : (Z.of_nat (length hotPeers) >? maxPeerNum bs) = false).
  { destruct (Z.gtb_spec (Z.of_nat (length hotPeers)) (maxPeerNum bs)); [lia | done]. }
  split.
  - intros Hlt. unfold filterHotPeers. fold hotPeers. rewrite Hgt.
    assert (Hge : (Z.of_nat (length hotPeers) >=? topnPosition) = false).
    { destruct (Z.geb_spec (Z.of_nat (length hotPeers)) topnPosition); [lia | done]. }
    rewrite Hge. cbn [orb mbind option_bind]. by rewrite foldl_appendItem.
  - intros Hlen. unfold filterHotPeers. fold hotPeers. rewrite Hgt.
    destruct (Z.geb_spec (Z.of_nat (length hotPeers)) topnPosition) as [Hge | Hlt];
      cbn [orb].
    + unfold topnPosition, defaultTopnPosition in *.
      destruct (lookup_lt_is_Some_2
                  (sortSlice (byLoadDesc deref (firstPriority bs)) hotPeers)
                  (Z.to_nat (10 - 1))) as [a Ha]; [rewrite Hlen; lia |].
      destruct (lookup_lt_is_Some_2
                  (sortSlice (byLoadDesc deref (secondPriority bs)) hotPeers)
                  (Z.to_nat (10 - 1))) as [b Hb]; [rewrite Hlen; lia |].
      rewrite Ha, Hb. cbn [mbind option_bind]. eexists. by rewrite foldl_appendItem.
    + cbn [mbind option_bind]. eexists. by rewrite foldl_appendItem.
Qed.

End FilterMore.

(** X10 applied to the store with four hot peers cut down to two. *)
Lemma filterHotPeers_sublist_witness :
  filterHotPeers ex.deref ex.sortSlice 2
    (ex.solver movePeer (ex.hedged ex.store2) None [] 2) ex.ledger103 ex.busyStore
  = Some ([4%positive], [])
  /\ forall p, p ∈ [4%positive] -> p ∈ [5; 3; 6; 4]%positive.
Proof.
  split; [reflexivity |].
  exact (proj1 (filterHotPeers_sublist ex.deref ex.sortSlice 2
                  (ex.solver movePeer (ex.hedged ex.store2) None [] 2)
                  ex.ledger103 ex.busyStore [4%positive] []
                  ex_sortSlice_perm eq_refl)).
Defined.

(** X11 applied to the same store with room for a thousand peers: the
    peers 5 and 4 remain, in the order of the store's list. *)
Lemma filterHotPeers_within_max_witness :
  filterHotPeers ex.deref ex.sortSlice 0
    (ex.solver movePeer (ex.hedged ex.store2) None [] 1000) ex.ledger103 ex.busyStore
  = Some ([5; 4]%positive, []).
Proof.
  refine (proj1 (filterHotPeers_within_max ex.deref ex.sortSlice 0
                   (ex.solver movePeer (ex.hedged ex.store2) None [] 1000)
                   ex.ledger103 ex.busyStore _) _); vm_compute; congruence.
Defined.

(** * Further properties of operator building *)

Section BuildMore.

Variable deref : positive -> statistics.HotPeerStat.
Variable Between : core.Key -> core.Key -> core.Key -> bool.
Variable createFails : core.RegionInfo -> operator.OpStep -> bool.

(** What [isReadyToBuild] checks of the current solution. *)
Lemma isReadyToBuild_true (bs : balanceSolver) :
  isReadyToBuild deref bs = true ->
  exists src dst mainPeer r,
    srcStore (cur bs) = Some src /\ dstStore (cur bs) = Some dst
    /\ mainPeerStat (cur bs) = Some mainPeer /\ region (cur bs) = Some r
    /\ statistics.StoreID (deref mainPeer) = statistics.GetID src
    /\ core.GetID r = statistics.ID (deref mainPeer)
    /\ match revertPeerStat (cur bs) with
       | None => revertRegion (cur bs) = None
       | Some revertPeer =>
           exists rr, revertRegion (cur bs) = Some rr
                      /\ statistics.StoreID (deref revertPeer) = statistics.GetID dst
                      /\ core.GetID rr = statistics.ID (deref revertPeer)
       end.
Proof.
  unfold isReadyToBuild.
  destruct (srcStore (cur bs)) as [src |]; [| done].
  destruct (dstStore (cur bs)) as [dst |]; [| done].
  destruct (mainPeerStat (cur bs)) as [mainPeer |]; [| done].
  destruct (region (cur bs)) as [r |]; [| done].
  destruct (N.eqb_spec (statistics.StoreID (deref mainPeer)) (statistics.GetID src));
    cbn [andb]; [| done].
  destruct (N.eqb_spec (core.GetID r) (statistics.ID (deref mainPeer))); [| done].
  intros H. exists src, dst, mainPeer, r. repeat (split; [done |]).
  destruct (revertPeerStat (cur bs)) as [revertPeer |].
  - apply andb_true_iff in H as [H1 H2].
    destruct (revertRegion (cur bs)) as [rr |]; [| done].
    exists rr. split; [done |]. split; by apply N.eqb_eq.
  - by destruct (revertRegion (cur bs)).
Qed.

(** What [createOperator] obtained: an undecorated operator on the
    region whose step leads from the source to the destination. *)
Lemma createOperator_step (r : core.RegionInfo) (srcStoreID dstStoreID : N)
    (typ : operator.OpTyp) (o : operator.Operator) :
  createOperator createFails r srcStoreID dstStoreID = Some (typ, Some o) ->
  operator.RegionID o = core.GetID r /\ operator.Decor o = None
  /\ match operator.Step o with
     | operator.TransferLeader t =>
         typ = operator.TypTransferLeader /\ t = dstStoreID
         /\ is_Some (core.GetStorePeer r dstStoreID)
     | operator.MoveLeader s p =>
         typ = operator.TypMoveLeader /\ s = srcStoreID /\ metapb.StoreId p = dstStoreID
         /\ core.GetStorePeer r dstStoreID = None
     | operator.MovePeer s p =>
         typ = operator.TypMovePeer /\ s = srcStoreID /\ metapb.StoreId p = dstStoreID
         /\ core.GetStorePeer r dstStoreID = None
     | operator.SplitRegion _ => False
     end.
Proof.
  unfold createOperator, Create.
  destruct (core.GetStorePeer r dstStoreID) as [dstPeer |] eqn:Hdst.
  - destruct (createFails r _); intros [= <- <-]. cbn. by eauto.
  - destruct (core.GetStorePeer r srcStoreID) as [srcPeer |];
      cbn [mbind option_bind]; [| discriminate].
    destruct (N.eqb _ _); destruct (createFails r _); intros [= <- <-]; cbn; by eauto.
Qed.

(** The three ways [buildOperators] returns: with nothing, with the
    result of [createSplitOperator] on the regions too large to move,
    or with the decorated operators of the solution. *)
Lemma buildOperators_cases (bs : balanceSolver) (ops : list operator.Operator)
    (cur' : solution) :
  buildOperators deref Between createFails bs = Some (ops, cur') ->
  (ops = [] /\ cur' = cur bs)
  \/ (isReadyToBuild deref bs = true /\ splitRegions bs <> []
      /\ createSplitOperator Between createFails bs (splitRegions bs) bySize = (ops, cur'))
  \/ (isReadyToBuild deref bs = true /\ splitRegions bs = [] /\ cur' = cur bs
      /\ exists src dst r typ o,
           srcStore (cur bs) = Some src /\ dstStore (cur bs) = Some dst
           /\ region (cur bs) = Some r
           /\ createOperator createFails r (statistics.GetID src) (statistics.GetID dst)
              = Some (typ, Some o)
           /\ match revertRegion (cur bs) with
              | None =>
                  ops = [decorateOperator o false (statistics.GetID src)
                           (statistics.GetID dst) typ]
              | Some rr =>
                  exists typ' o',
                    createOperator createFails rr (statistics.GetID dst)
                      (statistics.GetID src) = Some (typ', Some o')
                    /\ ops = [decorateOperator o false (statistics.GetID src)
                                (statistics.GetID dst) typ;
                              decorateOperator o' true (statistics.GetID dst)
                                (statistics.GetID src) typ']
              end).
Proof.
  unfold buildOperators. cbn zeta.
  destruct (isReadyToBuild deref bs); cbn [negb]; [| intros [= <- <-]; by left].
  destruct (splitRegions bs) as [| r0 l] eqn:Hsr.
  - case_bind (srcStore (cur bs)) as [src |] by Hsrc.
    case_bind (dstStore (cur bs)) as [dst |] by Hdst.
    case_bind (region (cur bs)) as [r |] by Hr.
    destruct (createOperator _ r _ _) as [[typ [o |]] |] eqn:Hc1;
      cbn [mbind option_bind snd fst]; [| intros [= <- <-]; by left | discriminate].
    destruct (revertRegion (cur bs)) as [rr |] eqn:Hrr.
    + destruct (createOperator _ rr _ _) as [[typ' [o' |]] |] eqn:Hc2;
        cbn [mbind option_bind snd fst]; [| intros [= <- <-]; by left | discriminate].
      intros [= <- <-]. right; right. repeat (split; [done |]).
      exists src, dst, r, typ, o. repeat (split; [done |]).
      by exists typ', o'.
    + intros [= <- <-]. right; right. repeat (split; [done |]).
      exists src, dst, r, typ, o. by repeat (split; [done |]).
  - rewrite <- Hsr. intros [= H]. right; left.
    split; [done |]. split; [by rewrite Hsr | done].
Qed.

(** The operators of [createSplitOperator] by size are splits, and the
    solution it leaves has the split rank when there is any. *)
Lemma createSplitOperator_bySize_result (bs : balanceSolver)
    (regions : list core.RegionInfo) (ops : list operator.Operator) (cur' : solution) :
  createSplitOperator Between createFails bs regions bySize = (ops, cur') ->
  (forall o, o ∈ ops -> operator.Kind_isSplit o = true)
  /\ srcStore cur' = srcStore (cur bs) /\ region cur' = region (cur bs)
  /\ mainPeerStat cur' = mainPeerStat (cur bs) /\ dstStore cur' = dstStore (cur bs)
  /\ revertRegion cur' = revertRegion (cur bs)
  /\ revertPeerStat cur' = revertPeerStat (cur bs)
  /\ progressiveRank cur'
     = match ops with [] => progressiveRank (cur bs) | _ :: _ => splitProgressiveRank end.
Proof.
  intros H. split.
  - pose proof (createSplitOperator_bySize Between createFails bs regions) as Hops.
    rewrite H in Hops. cbn [fst] in Hops. subst ops. intros o Ho.
    apply list_elem_of_omap in Ho as (r & _ & Ho).
    by apply splitBucketBySize_Some in Ho as (k & _ & ->).
  - revert H. unfold createSplitOperator. destruct (omap _ regions); by intros [= <- <-].
Qed.

(** X12.  [buildOperators] emits operators only for a solution that is
    complete and consistent: source store, destination store, main
    peer and main region are all set, the main peer is a peer of the
    source store and of the main region, and a revert peer, when set,
    comes with a revert region it belongs to and is a peer of the
    destination store, while without one there is no revert region
    either. *)
Theorem buildOperators_ready (bs : balanceSolver) (ops : list operator.Operator)
    (cur' : solution) :
  buildOperators deref Between createFails bs = Some (ops, cur') ->
  ops <> [] ->
  exists src dst mainPeer r,
    srcStore (cur bs) = Some src /\ dstStore (cur bs) = Some dst
    /\ mainPeerStat (cur bs) = Some mainPeer /\ region (cur bs) = Some r
    /\ statistics.StoreID (deref mainPeer) = statistics.GetID src
    /\ core.GetID r = statistics.ID (deref mainPeer)
    /\ match revertPeerStat (cur bs) with
       | None => revertRegion (cur bs) = None
       | Some revertPeer =>
           exists rr, revertRegion (cur bs) = Some rr
                      /\ statistics.StoreID (deref revertPeer) = statistics.GetID dst
                      /\ core.GetID rr = statistics.ID (deref revertPeer)
       end.
Proof.
  intros Hbuild Hne.
  apply buildOperators_cases in Hbuild as [[-> _] | [(Hready & _) | (Hready & _)]];
    [done | |]; by apply isReadyToBuild_true.
Qed.

(** X13.  [buildOperators] changes nothing of the current solution but
    its progressive rank, which becomes [splitProgressiveRank] exactly
    when split operators are emitted.  The operators emitted are all
    splits or all moves, never a mixture, and outside move-peer
    scheduling none is a split. *)
Theorem buildOperators_rank (bs : balanceSolver) (ops : list operator.Operator)
    (cur' : solution) :
  buildOperators deref Between createFails bs = Some (ops, cur') ->
  (srcStore cur' = srcStore (cur bs) /\ region cur' = region (cur bs)
   /\ mainPeerStat cur' = mainPeerStat (cur bs) /\ dstStore cur' = dstStore (cur bs)
   /\ revertRegion cur' = revertRegion (cur bs)
   /\ revertPeerStat cur' = revertPeerStat (cur bs))
  /\ progressiveRank cur'
     = (if existsb operator.Kind_isSplit ops then splitProgressiveRank
        else progressiveRank (cur bs))
  /\ (forall o1 o2, o1 ∈ ops -> o2 ∈ ops ->
        operator.Kind_isSplit o1 = operator.Kind_isSplit o2)
  /\ (opTy bs <> movePeer -> forall o, o ∈ ops -> operator.Kind_isSplit o = false).
Proof.
  intros Hbuild.
  apply buildOperators_cases in Hbuild
    as [[-> ->] | [(_ & Hsr & Hc) | (_ & Hsr & -> & Hmove)]].
  - repeat split; try done; intros; by repeat match goal with
                                        | H : _ ∈ [] |- _ => apply elem_of_nil in H
                                        end.
  - apply createSplitOperator_bySize_result in Hc
      as (Hsplit & ? & ? & ? & ? & ? & ? & Hrank).
    split; [done |]. split; [| split].
    + rewrite Hrank. destruct ops as [| o ops]; [done |].
      cbn [existsb]. rewrite (Hsplit o); [done | by left].
    + intros o1 o2 Ho1 Ho2. by rewrite (Hsplit o1), (Hsplit o2).
    + intros Hty. exfalso. apply Hsr. unfold splitRegions. by destruct (opTy bs).
  - destruct Hmove as (src & dst & r & typ & o & _ & _ & _ & Hc1 & Hops).
    apply createOperator_step in Hc1 as (_ & _ & Hs1).
    assert (Hk1 : operator.Kind_isSplit o = false).
    { unfold operator.Kind_isSplit. by destruct (operator.Step o). }
    assert (Hall : forall x, x ∈ ops -> operator.Kind_isSplit x = false).
    { destruct (revertRegion (cur bs)) as [rr |].
      - destruct Hops as (typ' & o' & Hc2 & ->).
        apply createOperator_step in Hc2 as (_ & _ & Hs2).
        assert (Hk2 : operator.Kind_isSplit o' = false).
        { unfold operator.Kind_isSplit. by destruct (operator.Step o'). }
        intros x Hx. apply elem_of_cons in Hx as [-> | Hx]; [done |].
        by apply list_elem_of_singleton in Hx as ->.
      - subst ops. intros x Hx. by apply list_elem_of_singleton in Hx as ->. }
    split; [done |]. split; [| split].
    + assert (Hex : existsb operator.Kind_isSplit ops = false); [| by rewrite Hex].
      apply not_true_is_false. intros Hex.
      apply existsb_exists in Hex as (x & Hx & Hk).
      apply list_elem_of_In in Hx. by rewrite (Hall x Hx) in Hk.
    + intros o1 o2 Ho1 Ho2. by rewrite (Hall o1), (Hall o2).
    + intros _. exact Hall.
Qed.

(** X14.  Without a revert region at most one operator is emitted, and
    a solution with a revert region never yields a single move: its two
    moves come together or not at all.  Every move emitted has high
    priority and labels that agree with its step: the label of its
    kind, the store it takes from as source label and the store it is
    bound for as target label; these are the source and the
    destination store of the solution, swapped for the revert. *)
Theorem buildOperators_moves (bs : balanceSolver) (ops : list operator.Operator)
    (cur' : solution) :
  buildOperators deref Between createFails bs = Some (ops, cur') ->
  (revertRegion (cur bs) = None -> (length ops <= 1)%nat)
  /\ (forall o, ops = [o] -> operator.Kind_isSplit o = false ->
        revertRegion (cur bs) = None)
  /\ (forall o, o ∈ ops -> operator.Kind_isSplit o = false ->
        exists src dst d,
          srcStore (cur bs) = Some src /\ dstStore (cur bs) = Some dst
          /\ operator.Decor o = Some d /\ operator.PriorityHigh d = true
          /\ (if operator.isRevert d
              then operator.sourceLabel d = statistics.GetID dst
                   /\ operator.targetLabel d = statistics.GetID src
              else operator.sourceLabel d = statistics.GetID src
                   /\ operator.targetLabel d = statistics.GetID dst)
          /\ match operator.Step o with
             | operator.TransferLeader t =>
                 operator.typ d = operator.TypTransferLeader
                 /\ t = operator.targetLabel d
             | operator.MoveLeader s p =>
                 operator.typ d = operator.TypMoveLeader
                 /\ s = operator.sourceLabel d
                 /\ metapb.StoreId p = operator.targetLabel d
             | operator.MovePeer s p =>
                 operator.typ d = operator.TypMovePeer
                 /\ s = operator.sourceLabel d
                 /\ metapb.StoreId p = operator.targetLabel d
             | operator.SplitRegion _ => False
             end).
Proof.
  intros Hbuild.
  assert (Hdecor : forall r s t typ o isRev,
            createOperator createFails r s t = Some (typ, Some o) ->
            exists d, operator.Decor (decorateOperator o isRev s t typ) = Some d
                      /\ operator.PriorityHigh d = true
                      /\ operator.isRevert d = isRev
                      /\ operator.sourceLabel d = s /\ operator.targetLabel d = t
                      /\ match operator.Step (decorateOperator o isRev s t typ) with
                         | operator.TransferLeader t' =>
                             operator.typ d = operator.TypTransferLeader
                             /\ t' = operator.targetLabel d
                         | operator.MoveLeader s' p =>
                             operator.typ d = operator.TypMoveLeader
                             /\ s' = operator.sourceLabel d
                             /\ metapb.StoreId p = operator.targetLabel d
                         | operator.MovePeer s' p =>
                             operator.typ d = operator.TypMovePeer
                             /\ s' = operator.sourceLabel d
                             /\ metapb.StoreId p = operator.targetLabel d
                         | operator.SplitRegion _ => False
                         end).
  { intros r s t typ o isRev Hc. apply createOperator_step in Hc as (_ & _ & Hs).
    eexists. split; [reflexivity |]. cbn.
    repeat (split; [done |]).
    destruct (operator.Step o); [| | | done]; by intuition. }
  apply buildOperators_cases in Hbuild
    as [[-> ->] | [(_ & Hsr & Hc) | (_ & Hsr & -> & Hmove)]].
  - split; [cbn; lia |]. split; [done |]. intros o Ho. by apply elem_of_nil in Ho.
  - pose proof (createSplitOperator_length Between createFails bs (splitRegions bs) bySize)
      as Hlen.
    destruct (createSplitOperator_bySize_result _ _ _ _ Hc) as (Hsplit & _).
    rewrite Hc in Hlen. cbn [fst] in Hlen. split; [| split].
    + intros Hrev. etransitivity; [exact Hlen |].
      unfold splitRegions. destruct (opTy bs); cbn [length]; try lia.
      etransitivity; [apply length_filter_le |]. rewrite Hrev, length_app.
      destruct (region (cur bs)); cbn; lia.
    + intros o -> Hk. rewrite (Hsplit o) in Hk; [done | by left].
    + intros o Ho Hk. by rewrite (Hsplit o) in Hk.
  - destruct Hmove as (src & dst & r & typ & o & Hsrc & Hdst & _ & Hc1 & Hops).
    destruct (Hdecor _ _ _ _ _ false Hc1) as (d1 & Hd1 & Hp1 & Hr1 & Hs1 & Ht1 & Hstep1).
    destruct (revertRegion (cur bs)) as [rr |].
    + destruct Hops as (typ' & o' & Hc2 & ->).
      destruct (Hdecor _ _ _ _ _ true Hc2) as (d2 & Hd2 & Hp2 & Hr2 & Hs2 & Ht2 & Hstep2).
      split; [done |]. split; [by intros x [=] |].
      intros x Hx _. exists src, dst.
      apply elem_of_cons in Hx as [-> | Hx].
      * exists d1. rewrite Hr1. by repeat (split; [done |]).
      * apply list_elem_of_singleton in Hx as ->.
        exists d2. rewrite Hr2. by repeat (split; [done |]).
    + subst ops. split; [cbn; lia |]. split; [done |].
      intros x Hx _. apply list_elem_of_singleton in Hx as ->.
      exists src, dst, d1. rewrite Hr1. by repeat (split; [done |]).
Qed.

(** X15.  [buildOperators] fails with a nil dereference only for a
    solution whose main region, or whose revert region, has a peer
    neither on the source nor on the destination store. *)
Theorem buildOperators_nil_peer (bs : balanceSolver) :
  buildOperators deref Between createFails bs = None ->
  exists src dst r,
    srcStore (cur bs) = Some src /\ dstStore (cur bs) = Some dst
    /\ (region (cur bs) = Some r \/ revertRegion (cur bs) = Some r)
    /\ core.GetStorePeer r (statistics.GetID src) = None
    /\ core.GetStorePeer r (statistics.GetID dst) = None.
Proof.
  assert (Hnone : forall r s t,
            createOperator createFails r s t = None ->
            core.GetStorePeer r s = None /\ core.GetStorePeer r t = None).
  { intros r s t. unfold createOperator.
    destruct (core.GetStorePeer r t); [discriminate |].
    destruct (core.GetStorePeer r s); cbn [mbind option_bind]; [| done].
    by destruct (N.eqb _ _). }
  unfold buildOperators. cbn zeta.
  destruct (isReadyToBuild deref bs) eqn:Hready; cbn [negb]; [| discriminate].
  destruct (splitRegions bs); [| discriminate].
  apply isReadyToBuild_true in Hready
    as (src & dst & mainPeer & r & Hsrc & Hdst & _ & Hr & _).
  rewrite Hsrc, Hdst, Hr. cbn [mbind option_bind].
  destruct (createOperator _ r _ _) as [[typ [o |]] |] eqn:Hc1;
    cbn [mbind option_bind snd fst]; [| discriminate |].
  - destruct (revertRegion (cur bs)) as [rr |]; [| discriminate].
    destruct (createOperator _ rr _ _) as [[typ' [o' |]] |] eqn:Hc2;
      cbn [mbind option_bind snd fst]; [discriminate | discriminate |].
    intros _. apply Hnone in Hc2 as [H1 H2]. exists src, dst, rr.
    split; [done |]. split; [done |]. split; [by right | done].
  - intros _. apply Hnone in Hc1 as [H1 H2]. exists src, dst, r.
    split; [done |]. split; [done |]. split; [by left | done].
Qed.

(** X16.  A revert region that passed the guard of [solve] goes back
    the right way.  In transfer-leader scheduling the source store
    holds a peer of it, so that its operator is a transfer of the
    leader to the source store, whatever the destination store is.  In
    the other kinds of scheduling the source store holds no peer of it,
    so that its operator is never a transfer of the leader: when
    [createOperator] returns for it, the destination store holds a
    peer of the region, which moves to the source store. *)
Theorem withRevert_direction (bs : balanceSolver) (revertPeer : positive)
    (rr : core.RegionInfo) (c : solution) :
  withRevert bs revertPeer rr = Some c ->
  exists src,
    srcStore (cur bs) = Some src
    /\ (opTy bs = transferLeader ->
        forall dstStoreID,
          createOperator createFails rr dstStoreID (statistics.GetID src)
          = Some (operator.TypTransferLeader,
                  Create createFails rr (operator.TransferLeader (statistics.GetID src))))
    /\ (opTy bs <> transferLeader ->
        forall dstStoreID typ res,
          createOperator createFails rr dstStoreID (statistics.GetID src) = Some (typ, res) ->
          typ <> operator.TypTransferLeader
          /\ is_Some (core.GetStorePeer rr dstStoreID)
          /\ forall o, res = Some o ->
                exists p, metapb.StoreId p = statistics.GetID src
                          /\ (operator.Step o = operator.MoveLeader dstStoreID p
                              \/ operator.Step o = operator.MovePeer dstStoreID p)).
Proof.
  unfold withRevert.
  case_bind (region (cur bs)) as [main |].
  case_bind (srcStore (cur bs)) as [src |].
  destruct (N.eqb _ _); cbn [orb]; [discriminate |].
  destruct (allowRevertRegion bs rr (statistics.GetID src)) eqn:Hallow;
    cbn [negb]; [| discriminate].
  intros _. exists src. split; [done |]. unfold allowRevertRegion in Hallow. split.
  - intros Hty dstStoreID. rewrite Hty in Hallow.
    apply bool_decide_eq_true in Hallow as [p Hp].
    unfold createOperator. by rewrite Hp.
  - intros Hty dstStoreID typ res.
    assert (Hnone : core.GetStorePeer rr (statistics.GetID src) = None).
    { destruct (opTy bs); [| done |]; by apply bool_decide_eq_true in Hallow. }
    unfold createOperator. rewrite Hnone.
    destruct (core.GetStorePeer rr dstStoreID) as [srcPeer |];
      cbn [mbind option_bind]; [| discriminate].
    destruct (N.eqb _ _); intros [= <- <-]; (split; [done |]); (split; [by eexists |]);
      intros o Ho; apply Create_Some in Ho as ->; eexists; (split; [| eauto]); done.
Qed.

End BuildMore.

(** X12 applied to the hedged move of region 7. *)
Lemma buildOperators_ready_witness :
  let bs := ex.solver movePeer (ex.hedged ex.store2) None [] 1000 in
  buildOperators ex.deref ex.Between ex.neverFails bs
  = Some (ex.hedgedOps, ex.hedged ex.store2)
  /\ exists src dst mainPeer r,
       srcStore (cur bs) = Some src /\ dstStore (cur bs) = Some dst
       /\ mainPeerStat (cur bs) = Some mainPeer /\ region (cur bs) = Some r
       /\ statistics.StoreID (ex.deref mainPeer) = statistics.GetID src
       /\ core.GetID r = statistics.ID (ex.deref mainPeer)
       /\ match revertPeerStat (cur bs) with
          | None => revertRegion (cur bs) = None
          | Some revertPeer =>
              exists rr, revertRegion (cur bs) = Some rr
                         /\ statistics.StoreID (ex.deref revertPeer) = statistics.GetID dst
                         /\ core.GetID rr = statistics.ID (ex.deref revertPeer)
          end.
Proof.
  intros bs. split; [reflexivity |].
  refine (buildOperators_ready ex.deref ex.Between ex.neverFails bs ex.hedgedOps
            (ex.hedged ex.store2) eq_refl _).
  unfold ex.hedgedOps. discriminate.
Defined.

(** X13 applied to the hedged solution with both regions grown: two
    splits, and the solution left with the split rank. *)
Lemma buildOperators_rank_witness :
  let bs := ex.solver movePeer ex.hedgedGrown None [] 1000 in
  exists cur',
    buildOperators ex.deref ex.Between ex.neverFails bs
    = Some ([ex2.split7; ex2.split8], cur')
    /\ progressiveRank cur' = 5 /\ region cur' = Some (ex.grown ex.region7).
Proof.
  intros bs. eexists. split; [reflexivity |].
  destruct (buildOperators_rank ex.deref ex.Between ex.neverFails bs _ _ eq_refl)
    as ((_ & Hregion & _) & Hrank & _).
  split; [exact Hrank | exact Hregion].
Defined.

(** X14 applied to the move of region 7 without a region in return. *)
Lemma buildOperators_moves_witness :
  let bs := ex.solver movePeer ex2.plain None [] 1000 in
  buildOperators ex.deref ex.Between ex.neverFails bs = Some ([ex.mainOp], ex2.plain)
  /\ (length [ex.mainOp] <= 1)%nat.
Proof.
  intros bs. split; [reflexivity |].
  exact (proj1 (buildOperators_moves ex.deref ex.Between ex.neverFails bs
                  [ex.mainOp] ex2.plain eq_refl) eq_refl).
Defined.

(** X15 applied to a solution on region 103, of which neither store 1
    nor store 2 holds a peer. *)
Lemma buildOperators_nil_peer_witness :
  let bs := ex.solver movePeer ex2.stray None [] 1000 in
  buildOperators ex.deref ex.Between ex.neverFails bs = None
  /\ exists src dst r,
       srcStore (cur bs) = Some src /\ dstStore (cur bs) = Some dst
       /\ (region (cur bs) = Some r \/ revertRegion (cur bs) = Some r)
       /\ core.GetStorePeer r (statistics.GetID src) = None
       /\ core.GetStorePeer r (statistics.GetID dst) = None.
Proof.
  intros bs. split; [reflexivity |].
  exact (buildOperators_nil_peer ex.deref ex.Between ex.neverFails bs eq_refl).
Defined.

(** X16 applied to region 8 as the revert region of the move of region
    7 from store 1: its learner on store 2 moves to store 1. *)
Lemma withRevert_direction_witness :
  let bs := ex.solver movePeer ex2.plain None [] 1000 in
  withRevert bs 2%positive ex.region8 = Some (ex.hedged ex.store2)
  /\ createOperator ex.neverFails ex.region8 2 1
     = Some (operator.TypMovePeer,
             Some (NewOperator ex.region8 (operator.MovePeer 2 (ex.learner 0 1))))
  /\ operator.TypMovePeer <> operator.TypTransferLeader.
Proof.
  intros bs. split; [reflexivity |]. split; [reflexivity |].
  destruct (withRevert_direction ex.neverFails bs 2%positive ex.region8 _ eq_refl)
    as (src & Hsrc & _ & Hmove).
  injection Hsrc as <-.
  refine (proj1 (Hmove _ 2%N _ _ eq_refl)). discriminate.
Defined.

(** * Further properties of the split operators *)

(** The scan for the half point takes the buckets in order while the
    load accumulated so far is below [half]. *)
Lemma halfPoint_spec (half : Z) (dim : statistics.RWType * nat) (stats : list BucketStat) :
  forall (acc : Z) (splitIdx : nat),
  exists n,
    (n <= length stats)%nat
    /\ halfPoint half dim stats acc splitIdx
       = (foldl (fun t stat => add64 t (BucketLoads stat dim)) acc (take n stats),
          (splitIdx + n)%nat)
    /\ (forall j, (j < n)%nat ->
          foldl (fun t stat => add64 t (BucketLoads stat dim)) acc (take j stats) < half)
    /\ (n = length stats
        \/ half <= foldl (fun t stat => add64 t (BucketLoads stat dim)) acc (take n stats)).
Proof.
  induction stats as [| stat stats IH]; intros acc splitIdx; cbn [halfPoint].
  - exists 0%nat. cbn. split; [lia |]. split; [f_equal; lia |]. split; [lia | by left].
  - destruct (Z.ltb_spec acc half) as [Hlt | Hge].
    + destruct (IH (add64 acc (BucketLoads stat dim)) (S splitIdx))
        as (n & Hn & Heq & Hbelow & Hstop).
      exists (S n). cbn [take foldl length]. split; [lia |].
      split; [rewrite Heq; f_equal; lia |]. split.
      * intros [| j] Hj; cbn [take foldl]; [done | apply Hbelow; lia].
      * destruct Hstop; [left; lia | by right].
    + exists 0%nat. cbn. split; [lia |]. split; [f_equal; lia |]. split; [lia |].
      right. lia.
Qed.

Lemma foldl_add64_nonneg (dim : statistics.RWType * nat) (stats : list BucketStat) :
  forall acc, 0 <= acc ->
    0 <= foldl (fun t stat => add64 t (BucketLoads stat dim)) acc stats.
Proof.
  induction stats as [| stat stats IH]; intros acc Hacc; cbn [foldl]; [done |].
  apply IH. unfold add64. apply Z.mod_pos_bound. lia.
Qed.

(** Operators obtained one per region, each on its region, come in
    the order of the regions. *)
Lemma omap_RegionID_sublist (f : core.RegionInfo -> option operator.Operator)
    (regions : list core.RegionInfo) :
  (forall r o, f r = Some o -> operator.RegionID o = core.GetID r) ->
  sublist (map operator.RegionID (omap f regions)) (map core.GetID regions).
Proof.
  intros Hf. induction regions as [| r regions IH]; [constructor |].
  change (omap f (r :: regions))
    with (match f r with Some o => o :: omap f regions | None => omap f regions end).
  destruct (f r) as [o |] eqn:Ho; cbn [map].
  - rewrite (Hf r o Ho). by constructor.
  - by constructor.
Qed.

Section SplitMore.

Variable Between : core.Key -> core.Key -> core.Key -> bool.
Variable createFails : core.RegionInfo -> operator.OpStep -> bool.

(** A single key inside the region passes the range check of
    [splitBucketsOperator]. *)
Lemma splitBucketsOperator_single (r : core.RegionInfo) (k : core.Key) :
  Between (core.GetStartKey r) (core.GetEndKey r) k = true ->
  splitBucketsOperator Between createFails r [k]
  = Create createFails r (operator.SplitRegion [k]).
Proof. intros Hk. unfold splitBucketsOperator. cbn [List.filter]. by rewrite Hk. Qed.

(** [splitBucketsByLoad] in full: nothing for fewer than two buckets
    overlapping the region or for a total load below two; otherwise a
    split at a boundary of the bucket at which the scan stopped. *)
Lemma splitBucketsByLoad_cases (bs : balanceSolver) (r : core.RegionInfo)
    (bucketStats : list BucketStat) :
  let inRange := Between (core.GetStartKey r) (core.GetEndKey r) in
  let stats :=
    List.filter (fun stat => inRange (StartKey stat) || inRange (EndKey stat)) bucketStats in
  let sum := foldl (fun t stat => add64 t (BucketLoads stat (bucketFirstStat bs))) 0 in
  ((length stats < 2)%nat \/ sum stats < 2 ->
   splitBucketsByLoad Between createFails bs r bucketStats = None)
  /\ ((2 <= length stats)%nat -> 2 <= sum stats ->
      exists i stat k,
        stats !! i = Some stat
        /\ (forall j, (j <= i)%nat -> sum (take j stats) < sum stats / 2)
        /\ (S i = length stats \/ sum stats / 2 <= sum (take (S i) stats))
        /\ k = (if inRange (EndKey stat) then EndKey stat else StartKey stat)
        /\ inRange k = true
        /\ splitBucketsByLoad Between createFails bs r bucketStats
           = Create createFails r (operator.SplitRegion [k])).
Proof.
  intros inRange stats sum. unfold splitBucketsByLoad. cbn zeta.
  fold inRange. fold stats.
  assert (Hin : forall stat, stat ∈ stats ->
                             inRange (StartKey stat) || inRange (EndKey stat) = true).
  { intros stat Hs. unfold stats in Hs. by apply list_elem_of_In, filter_In in Hs as [_ Hs]. }
  clearbody stats.
  destruct stats as [| s1 [| s2 rest]]; [split; [done | cbn; lia] .. |].
  cbv beta match. set (l := s1 :: s2 :: rest) in *.
  fold (sum l).
  assert (Hlen : (2 <= length l)%nat) by (unfold l; cbn; lia).
  pose proof (foldl_add64_nonneg (bucketFirstStat bs) l 0 ltac:(lia)) as Hnonneg.
  fold (sum l) in Hnonneg.
  destruct (halfPoint_spec (sum l / 2) (bucketFirstStat bs) l 0 0%nat)
    as (n & Hn & Heq & Hbelow & Hstop).
  rewrite Heq. cbn [Nat.add]. fold (sum (take n l)) in *. split.
  - intros [Hlt | Hlt]; [lia |].
    destruct n as [| i]; [done |].
    assert (Hb : 0 < sum l / 2) by exact (Hbelow 0%nat ltac:(lia)).
    assert (sum l / 2 = 0) by (apply Z.div_small; lia). lia.
  - intros _ Hsum.
    assert (1 <= sum l / 2) by (apply Z.div_le_lower_bound; lia).
    destruct n as [| i].
    { destruct Hstop as [Hstop | Hstop]; [lia |].
      change (sum l / 2 <= 0) in Hstop. lia. }
    destruct (lookup_lt_is_Some_2 l i ltac:(lia)) as [stat Hstat].
    rewrite Hstat. exists i, stat. eexists. split; [done |].
    split; [intros j Hj; apply Hbelow; lia |].
    split; [destruct Hstop; [left; lia | by right] |].
    split; [reflexivity |].
    assert (Hk : inRange (if inRange (EndKey stat) then EndKey stat else StartKey stat)
                 = true).
    { specialize (Hin stat (list_elem_of_lookup_2 _ _ _ Hstat)).
      destruct (inRange (EndKey stat)) eqn:He; [done |].
      by rewrite orb_false_r in Hin. }
    split; [done |]. by apply splitBucketsOperator_single.
Qed.

(** X17.  [splitBucketsByLoad] gives up exactly when fewer than two of
    the buckets overlap the region, when their total load (a [uint64]
    sum) is below two, or when the split operator cannot be created.
    Otherwise it splits the region at one key: a boundary, lying
    inside the region, of the first overlapping bucket at which the
    accumulated load reaches half of the total (or of the last bucket),
    its end key when that lies inside the region and its start key
    otherwise.  First is meant of the sums as the code computes them,
    in [uint64]: the load accumulated over the buckets before it, and
    over every shorter prefix, is below half of the total.  The scan
    never leaves the list of buckets, and the key it picks always
    passes the range check of [splitBucketsOperator]. *)
Theorem splitBucketsByLoad_half (bs : balanceSolver) (r : core.RegionInfo)
    (bucketStats : list BucketStat) :
  let inRange := Between (core.GetStartKey r) (core.GetEndKey r) in
  let stats :=
    List.filter (fun stat => inRange (StartKey stat) || inRange (EndKey stat)) bucketStats in
  let sum := foldl (fun t stat => add64 t (BucketLoads stat (bucketFirstStat bs))) 0 in
  if bool_decide ((length stats < 2)%nat \/ sum stats < 2)
  then splitBucketsByLoad Between createFails bs r bucketStats = None
  else exists i stat k,
      stats !! i = Some stat
      /\ (forall j, (j <= i)%nat -> sum (take j stats) < sum stats / 2)
      /\ (S i = length stats \/ sum stats / 2 <= sum (take (S i) stats))
      /\ k = (if inRange (EndKey stat) then EndKey stat else StartKey stat)
      /\ inRange k = true
      /\ splitBucketsByLoad Between createFails bs r bucketStats
         = (if createFails r (operator.SplitRegion [k]) then None
            else Some (NewOperator r (operator.SplitRegion [k]))).
Proof.
  intros inRange stats sum.
  destruct (splitBucketsByLoad_cases bs r bucketStats) as [Hnone Hsome].
  fold inRange stats sum in Hnone, Hsome.
  destruct (bool_decide_reflect ((length stats < 2)%nat \/ sum stats < 2)) as [Hd | Hd].
  - by apply Hnone.
  - apply Hsome; lia.
Qed.

(** X18.  Under either strategy, every operator of
    [createSplitOperator] is an undecorated split of one of the given
    regions at a single key lying inside that region: a bucket key of
    the region when splitting by size, a boundary of one of the hot
    buckets the cluster reports for the region when splitting by load.
    There is at most one operator per region, in the order of the
    regions, and the solution is given the split rank exactly when
    there is an operator. *)
Theorem createSplitOperator_splits (bs : balanceSolver) (regions : list core.RegionInfo)
    (strategy : splitStrategy) :
  let res := createSplitOperator Between createFails bs regions strategy in
  sublist (map operator.RegionID res.1) (map core.GetID regions)
  /\ (forall o, o ∈ res.1 ->
        exists r k,
          r ∈ regions /\ Between (core.GetStartKey r) (core.GetEndKey r) k = true
          /\ o = NewOperator r (operator.SplitRegion [k])
          /\ match strategy with
             | bySize => k ∈ core.GetBucketKeys r
             | byLoad =>
                 exists stats stat,
                   BucketsStats (cluster bs) (minHotDegree bs) (map core.GetID regions)
                     !! core.GetID r = Some stats
                   /\ stat ∈ stats /\ (k = StartKey stat \/ k = EndKey stat)
             end)
  /\ progressiveRank res.2
     = match res.1 with
       | [] => progressiveRank (cur bs)
       | _ :: _ => splitProgressiveRank
       end.
Proof.
  intros res. unfold res, createSplitOperator.
  set (f := fun r : core.RegionInfo => _).
  assert (Hf : forall r o, f r = Some o ->
            exists k, Between (core.GetStartKey r) (core.GetEndKey r) k = true
              /\ o = NewOperator r (operator.SplitRegion [k])
              /\ match strategy with
                 | bySize => k ∈ core.GetBucketKeys r
                 | byLoad =>
                     exists stats stat,
                       BucketsStats (cluster bs) (minHotDegree bs) (map core.GetID regions)
                         !! core.GetID r = Some stats
                       /\ stat ∈ stats /\ (k = StartKey stat \/ k = EndKey stat)
                 end).
  { intros r o. unfold f. destruct strategy.
    - destruct (BucketsStats _ _ _ !! core.GetID r) as [stats |] eqn:Hstats; [| done].
      intros Ho. destruct (splitBucketsByLoad_cases bs r stats) as [Hnone Hsome].
      cbn zeta in Hnone, Hsome.
      set (ov := List.filter _ stats) in *.
      set (sum := foldl _ 0) in *.
      destruct (decide ((length ov < 2)%nat \/ sum ov < 2)) as [Hd | Hd].
      { rewrite Hnone in Ho; done. }
      destruct Hsome as (i & stat & k & Hstat & _ & _ & Hk & Hrange & Heq); [lia .. |].
      rewrite Heq in Ho. apply Create_Some in Ho as ->.
      exists k. split; [done |]. split; [done |]. exists stats, stat. split; [done |].
      split.
      + apply list_elem_of_lookup_2, list_elem_of_In in Hstat. unfold ov in Hstat.
        by apply filter_In in Hstat as [Hstat%list_elem_of_In _].
      + rewrite Hk. destruct (Between _ _ (EndKey stat)); by eauto.
    - intros Ho. apply splitBucketBySize_Some in Ho as (k & Hk & ->).
      apply list_elem_of_lookup_2, list_elem_of_In in Hk. unfold inRangeKeys in Hk.
      apply filter_In in Hk as [Hk%list_elem_of_In Hrange]. by exists k. }
  clearbody f. split; [| split].
  - assert (Hsub : sublist (map operator.RegionID (omap f regions))
                     (map core.GetID regions)).
    { apply omap_RegionID_sublist. intros r o Ho.
      by destruct (Hf r o Ho) as (k & _ & -> & _). }
    by destruct (omap f regions).
  - intros o Ho.
    assert (Ho' : o ∈ omap f regions) by (revert Ho; by destruct (omap f regions)).
    apply list_elem_of_omap in Ho' as (r & Hr & Ho').
    destruct (Hf r o Ho') as (k & ? & ? & ?). by exists r, k.
  - by destruct (omap f regions).
Qed.

End SplitMore.

(** X17 and X18 at work on the three buckets of region 7, of loads 10,
    30 and 20: the scan stops at the second bucket, and the region is
    split at the end key of that bucket. *)
Example createSplitOperator_byLoad_sample :
  createSplitOperator ex.Between ex.neverFails ex2.bucketSolver [ex.region7; ex.region8]
    byLoad
  = ([NewOperator ex.region7 (operator.SplitRegion [ex.key Byte.x18])],
     {| srcStore := Some ex.store1; region := Some ex.region7;
        mainPeerStat := Some 1%positive; dstStore := Some ex.store2;
        revertRegion := Some ex.region8; revertPeerStat := Some 2%positive;
        progressiveRank := 5 |}).
Proof. reflexivity. Qed.

(** X17 where the sum wraps around: the loads 2^64 - 2, 3 and 5 add up
    to 6 in [uint64], the first bucket alone is beyond the half, 3, and
    the region is split at the end key of the first bucket, although
    the sum over the first two buckets, 1, is below the half again. *)
Example splitBucketsByLoad_wrapped_sample :
  splitBucketsByLoad ex.Between ex.neverFails ex2.bucketSolver ex.region7
    ex2.bucketsWrapped
  = Some (NewOperator ex.region7 (operator.SplitRegion [ex.key Byte.x14]))
  /\ foldl (fun t stat => add64 t (BucketLoads stat (statistics.Write, ByteDim))) 0
       ex2.bucketsWrapped = 6
  /\ foldl (fun t stat => add64 t (BucketLoads stat (statistics.Write, ByteDim))) 0
       (take 2 ex2.bucketsWrapped) = 1.
Proof. repeat split; by vm_compute. Qed.

(** * Properties of the search of [solve] *)

Section SolveMore.

Variable deref : positive -> statistics.HotPeerStat.
Variable Between : core.Key -> core.Key -> core.Key -> bool.
Variable createFails : core.RegionInfo -> operator.OpStep -> bool.
Variable collectPendingInfluence : balanceSolver -> statistics.HotPeerStat -> statistics.Influence.
Variable filterUniformStore : balanceSolver -> bool.
Variable isAvailable : balanceSolver -> solution -> bool.
Variable betterThan : balanceSolver -> option solution -> bool.

(** The operators of [createSplitOperator], region by region. *)
Lemma createSplitOperator_fst (bs : balanceSolver) (regions : list core.RegionInfo)
    (strategy : splitStrategy) :
  (createSplitOperator Between createFails bs regions strategy).1
  = omap (fun r =>
            match strategy with
            | bySize => splitBucketBySize Between createFails r
            | byLoad =>
                match BucketsStats (cluster bs) (minHotDegree bs) (map core.GetID regions)
                        !! core.GetID r with
                | None => None
                | Some stats => splitBucketsByLoad Between createFails bs r stats
                end
            end) regions.
Proof. unfold createSplitOperator. by destruct (omap _ regions). Qed.

(** [createSplitOperator] touches nothing of the solution but its
    rank. *)
Lemma createSplitOperator_fields (bs : balanceSolver) (regions : list core.RegionInfo)
    (strategy : splitStrategy) :
  let c := (createSplitOperator Between createFails bs regions strategy).2 in
  srcStore c = srcStore (cur bs) /\ region c = region (cur bs)
  /\ mainPeerStat c = mainPeerStat (cur bs) /\ dstStore c = dstStore (cur bs)
  /\ revertRegion c = revertRegion (cur bs)
  /\ revertPeerStat c = revertPeerStat (cur bs).
Proof. unfold createSplitOperator. by destruct (omap _ regions). Qed.

(** Its operators are splits. *)
Lemma createSplitOperator_kind (bs : balanceSolver) (regions : list core.RegionInfo)
    (strategy : splitStrategy) (o : operator.Operator) :
  o ∈ (createSplitOperator Between createFails bs regions strategy).1 ->
  operator.Kind_isSplit o = true.
Proof.
  rewrite createSplitOperator_fst. intros Ho.
  apply list_elem_of_omap in Ho as (r & _ & Ho). destruct strategy.
  - destruct (BucketsStats _ _ _ !! core.GetID r) as [stats |]; [| done].
    destruct (splitBucketsByLoad_cases Between createFails bs r stats) as [Hnone Hsome].
    cbn zeta in Hnone, Hsome.
    set (ov := List.filter _ stats) in *. set (sum := foldl _ 0) in *.
    destruct (decide ((length ov < 2)%nat \/ sum ov < 2)) as [Hd | Hd].
    { rewrite Hnone in Ho; done. }
    destruct Hsome as (i & stat & k & _ & _ & _ & _ & _ & Heq); [lia .. |].
    rewrite Heq in Ho. by apply Create_Some in Ho as ->.
  - by apply splitBucketBySize_Some in Ho as (k & _ & ->).
Qed.

(** [buildOperators] returns at most two operators. *)
Lemma buildOperators_length (bs : balanceSolver) (ops : list operator.Operator)
    (c : solution) :
  buildOperators deref Between createFails bs = Some (ops, c) -> (length ops <= 2)%nat.
Proof.
  intros H. apply buildOperators_cases in H as [[-> _] | [(_ & _ & H) | (_ & _ & _ & H)]].
  - cbn. lia.
  - pose proof (createSplitOperator_length Between createFails bs (splitRegions bs) bySize)
      as Hlen.
    pose proof (splitRegions_length bs). rewrite H in Hlen. cbn [fst] in Hlen. lia.
  - destruct H as (src & dst & r & typ & o & _ & _ & _ & _ & H).
    destruct (revertRegion (cur bs)); [destruct H as (? & ? & _ & ->) | subst ops];
      cbn; lia.
Qed.

(** The operators [buildOperators] returns depend on the solver only
    by its cluster, its kind of operation and the stores, peers and
    regions of its current solution. *)
Lemma buildOperators_fst_ext (bs1 bs2 : balanceSolver) :
  cluster bs1 = cluster bs2 -> opTy bs1 = opTy bs2 ->
  srcStore (cur bs1) = srcStore (cur bs2) -> region (cur bs1) = region (cur bs2) ->
  mainPeerStat (cur bs1) = mainPeerStat (cur bs2) ->
  dstStore (cur bs1) = dstStore (cur bs2) ->
  revertRegion (cur bs1) = revertRegion (cur bs2) ->
  revertPeerStat (cur bs1) = revertPeerStat (cur bs2) ->
  fst <$> buildOperators deref Between createFails bs1
  = fst <$> buildOperators deref Between createFails bs2.
Proof.
  intros Hcl Hop Hsrc Hr Hmp Hdst Hrr Hrp.
  assert (Hready : isReadyToBuild deref bs1 = isReadyToBuild deref bs2).
  { unfold isReadyToBuild. by rewrite Hsrc, Hr, Hmp, Hdst, Hrr, Hrp. }
  assert (Hsplit : splitRegions bs1 = splitRegions bs2).
  { unfold splitRegions. by rewrite Hcl, Hop, Hr, Hrr. }
  unfold buildOperators. cbn zeta. rewrite Hready, Hsplit, Hsrc, Hdst, Hr, Hrr.
  destruct (isReadyToBuild deref bs2); cbn [negb]; [| done].
  destruct (splitRegions bs2) as [| r0 l].
  - destruct (srcStore (cur bs2)) as [src |]; cbn [mbind option_bind]; [| done].
    destruct (dstStore (cur bs2)) as [dst |]; cbn [mbind option_bind]; [| done].
    destruct (region (cur bs2)) as [r |]; cbn [mbind option_bind]; [| done].
    destruct (createOperator _ r _ _) as [[typ [o |]] |];
      cbn [mbind option_bind snd fst]; [| done | done].
    destruct (revertRegion (cur bs2)) as [rr |]; [| done].
    by destruct (createOperator _ rr _ _) as [[typ' [o' |]] |].
  - cbn [fmap option_fmap option_map]. f_equal.
    by rewrite !createSplitOperator_fst.
Qed.

(** What [solve] keeps true of its best solution and its operators:
    there are operators exactly when there is a best solution, and
    they are the operators of that solution: those [buildOperators]
    gives for it, or, from the branch of [splitTooHot], the splits by
    load of its main region. *)
Lemma solving_invariant (bs : balanceSolver) :
  solving deref Between createFails filterUniformStore isAvailable betterThan bs ->
  (best bs = None <-> ops bs = [])
  /\ forall b, best bs = Some b ->
       fst <$> buildOperators deref Between createFails (withCur bs b) = Some (ops bs)
       \/ exists r,
            is_Some (srcStore b) /\ is_Some (mainPeerStat b) /\ region b = Some r
            /\ (createSplitOperator Between createFails (withCur bs b) [r] byLoad).1
               = ops bs.
Proof.
  induction 1 as [bs Hbest Hops | bs c _ IH | bs bs' _ IH Hup | bs bs' _ IH Hsrc Hmp Hsp].
  - split; [done |]. intros b Hb. congruence.
  - exact IH.
  - revert Hup. unfold tryUpdateBestSolution.
    destruct (filterUniformStore bs); [by intros [= <-] |].
    destruct (isAvailable bs (cur bs) && betterThan bs (best bs)); [| by intros [= <-]].
    destruct (buildOperators deref Between createFails bs) as [[newOps c] |] eqn:Hbuild;
      cbn [mbind option_bind fst snd]; [| discriminate].
    destruct newOps as [| o newOps]; intros [= <-]; [exact IH |].
    split; [done |]. intros b [= <-]. left.
    change (ops (withBest (withCur bs c) (o :: newOps) c)) with (o :: newOps).
    replace (Some (o :: newOps))
      with (fst <$> buildOperators deref Between createFails bs) by (by rewrite Hbuild).
    apply buildOperators_fst_ext; try done; cbn [cur withCur withBest].
    all: apply buildOperators_cases in Hbuild
        as [[? _] | [(_ & _ & Hc) | (_ & _ & -> & _)]]; [done | | done].
    all: pose proof (createSplitOperator_fields bs (splitRegions bs) bySize) as Hf.
    all: rewrite Hc in Hf; cbn [snd] in Hf; by destruct Hf as (? & ? & ? & ? & ? & ?).
  - revert Hsp. unfold splitTooHot.
    destruct (region (cur bs)) as [r |] eqn:Hr; cbn [mbind option_bind]; [| discriminate].
    pose proof (createSplitOperator_fields bs [r] byLoad) as Hf.
    pose proof (createSplitOperator_fst bs [r] byLoad) as Hfst.
    destruct (createSplitOperator Between createFails bs [r] byLoad) as [newOps c].
    cbn [fst snd] in *. destruct newOps as [| o newOps]; [discriminate |].
    intros [= <-]. split; [done |]. intros b [= <-]. right. exists r.
    destruct Hf as (Hs & Hreg & Hm & _). rewrite Hs, Hm, Hreg.
    split; [done |]. split; [done |]. split; [done |].
    rewrite createSplitOperator_fst. exact (eq_sym Hfst).
Qed.

(** A solver whose best solution names the stores and the peer that
    its first operator needs submits its operators without a nil
    dereference. *)
Lemma tryAddPendingInfluence_returns (bs : balanceSolver)
    (regionPendings : gmap N pendingInfluence) :
  (forall b op0 rest, best bs = Some b -> ops bs = op0 :: rest ->
     is_Some (srcStore b) /\ is_Some (mainPeerStat b)
     /\ (operator.Kind_isSplit op0 = false -> is_Some (dstStore b))) ->
  is_Some (tryAddPendingInfluence deref collectPendingInfluence bs regionPendings).
Proof.
  intros H. unfold tryAddPendingInfluence.
  destruct (best bs) as [b |]; [| by eexists].
  destruct (ops bs) as [| op0 rest]; [by eexists |].
  destruct (H b op0 rest eq_refl eq_refl) as ([src Hsrc] & [peer Hpeer] & Hdst).
  assert (Hz : is_Some (calcMaxZombieDur bs b)).
  { unfold calcMaxZombieDur. rewrite Hsrc. cbn [mbind option_bind].
    destruct (resourceTy bs); try (by eexists).
    - by destruct (statistics.IsTiFlash src); eexists.
    - by destruct (Nat.eqb _ _); eexists. }
  destruct Hz as [z Hz]. rewrite Hz, Hsrc, Hpeer.
  destruct (operator.Kind_isSplit op0); cbn [mbind option_bind negb].
  - destruct (GetRegion _ _); cbn [mbind option_bind]; [| by eexists].
    destruct (sche_tryAddPendingInfluence _ _ _ _ _ _) as [[] ?]; by eexists.
  - destruct (Hdst eq_refl) as [dst ->]. cbn [mbind option_bind].
    destruct (eqb _ _); cbn [negb mbind option_bind]; [| by eexists].
    destruct (sche_tryAddPendingInfluence _ _ _ _ _ _) as [[] ?]; cbn [negb];
      [| by eexists].
    destruct (revertPeerStat b); [| by eexists].
    destruct rest; [by eexists |].
    destruct (sche_tryAddPendingInfluence _ _ _ _ _ _) as [[] ?]; by eexists.
Qed.

(** X19.  All through [solve] the solver has operators exactly when it
    has a best solution, at most two of them, and they are the
    operators of the best solution: building operators for a solver
    that differs only by having the best solution as its current one
    gives them again (or, when [solve] stopped at a peer too hot to
    move, splitting the main region of the best solution by load
    does). *)
Theorem solving_best (bs : balanceSolver) :
  solving deref Between createFails filterUniformStore isAvailable betterThan bs ->
  (best bs = None <-> ops bs = [])
  /\ (length (ops bs) <= 2)%nat
  /\ forall b, best bs = Some b ->
       fst <$> buildOperators deref Between createFails (withCur bs b) = Some (ops bs)
       \/ exists r,
            region b = Some r
            /\ (createSplitOperator Between createFails (withCur bs b) [r] byLoad).1
               = ops bs.
Proof.
  intros Hs. apply solving_invariant in Hs as [Hiff Hbest].
  split; [done |]. split.
  - destruct (best bs) as [b |] eqn:Hb.
    + destruct (Hbest b eq_refl) as [Hbuild | (r & _ & _ & _ & Hsplit)].
      * destruct (buildOperators _ _ _ (withCur bs b)) as [[l c] |] eqn:Hl; [| done].
        injection Hbuild as <-. by eapply buildOperators_length.
      * rewrite <- Hsplit. etransitivity;
          [apply (createSplitOperator_length Between createFails (withCur bs b) [r] byLoad)
          | cbn; lia].
    + rewrite (proj1 Hiff eq_refl). cbn. lia.
  - intros b Hb. destruct (Hbest b Hb) as [? | (r & _ & _ & ? & ?)]; [by left |].
    right. by exists r.
Qed.

(** X20.  Whatever state [solve] leaves the solver in, submitting its
    operators to the ledger never dereferences a nil store or peer of
    the best solution: [tryAddPendingInfluence] returns, and so does
    the write scheduler that calls it. *)
Theorem solving_submit (bs : balanceSolver) (regionPendings : gmap N pendingInfluence) :
  solving deref Between createFails filterUniformStore isAvailable betterThan bs ->
  is_Some (tryAddPendingInfluence deref collectPendingInfluence bs regionPendings)
  /\ is_Some (balanceHotWrite deref collectPendingInfluence bs regionPendings).
Proof.
  intros Hs. apply solving_invariant in Hs as [Hiff Hbest].
  assert (Htry : forall rp,
            is_Some (tryAddPendingInfluence deref collectPendingInfluence bs rp)).
  { intros rp. apply tryAddPendingInfluence_returns. intros b op0 rest Hb Hops.
    destruct (Hbest b Hb) as [Hbuild | (r & Hsrc & Hmp & _ & Hsplit)].
    - destruct (buildOperators _ _ _ (withCur bs b)) as [[l c] |] eqn:Hl; [| done].
      injection Hbuild as Hl'. rewrite Hops in Hl'. subst l.
      apply buildOperators_cases in Hl
        as [[? _] | [(Hready & _) | (Hready & _)]]; [done | |];
        apply isReadyToBuild_true in Hready
          as (src & dst & mp & r & Hsrc & Hdst & Hmp & _);
        cbn [cur withCur] in *; rewrite Hsrc, Hdst, Hmp; by eauto.
    - split; [done |]. split; [done |]. intros Hk.
      rewrite (createSplitOperator_kind (withCur bs b) [r] byLoad op0) in Hk; [done |].
      rewrite Hsplit, Hops. by left. }
  split; [apply Htry |]. unfold balanceHotWrite.
  destruct (ops bs); [by eexists |].
  destruct (Htry regionPendings) as [[[] rp'] ->]; by eexists.
Qed.

End SolveMore.

(** X19 applied to the search that finds the hedged move of region 7
    first. *)
Lemma solving_best_witness :
  let bs := ex.solver movePeer (ex.hedged ex.store2) None [] 1000 in
  tryUpdateBestSolution ex.deref ex.Between ex.neverFails
    ex2.notUniform ex2.available ex2.better bs
  = Some (ex.hedgedSolver ex.store2)
  /\ (length (ops (ex.hedgedSolver ex.store2)) <= 2)%nat.
Proof.
  intros bs. split; [reflexivity |].
  refine (proj1 (proj2 (solving_best ex.deref ex.Between ex.neverFails
                          ex2.notUniform ex2.available ex2.better
                          (ex.hedgedSolver ex.store2) _))).
  apply (solving_update _ _ _ _ _ _ bs); [apply solving_start; reflexivity | reflexivity].
Defined.

(** X20 applied to the same search. *)
Lemma solving_submit_witness :
  is_Some (tryAddPendingInfluence ex.deref ex.collect (ex.hedgedSolver ex.store2) ∅)
  /\ is_Some (balanceHotWrite ex.deref ex.collect (ex.hedgedSolver ex.store2) ∅).
Proof.
  apply (solving_submit ex.deref ex.Between ex.neverFails ex.collect
           ex2.notUniform ex2.available ex2.better).
  apply (solving_update _ _ _ _ _ _ (ex.solver movePeer (ex.hedged ex.store2) None [] 1000));
    [apply solving_start; reflexivity | reflexivity].
Defined.

(** * Properties of the choice of regions and stores *)

(** A store that holds one of the peers of a region holds the peer
    [GetStorePeer] finds. *)
Lemma GetStorePeer_of_peer (r : core.RegionInfo) (p : metapb.Peer) :
  p ∈ core.GetPeers r -> is_Some (core.GetStorePeer r (metapb.StoreId p)).
Proof.
  intros Hp. unfold core.GetStorePeer.
  destruct (List.find _ (core.GetPeers r)) as [q |] eqn:Hfind; [by eexists |].
  apply list_elem_of_In in Hp.
  pose proof (find_none _ _ Hfind p Hp) as Hq. cbn in Hq.
  by rewrite N.eqb_refl in Hq.
Qed.

Section GetRegionMore.

Variable deref : positive -> statistics.HotPeerStat.
Variable Between : core.Key -> core.Key -> core.Key -> bool.
Variable createFails : core.RegionInfo -> operator.OpStep -> bool.
Variable IsRegionHealthyAllowPending : core.RegionInfo -> bool.
Variable IsRegionReplicated : SchedulerCluster -> core.RegionInfo -> bool.

(** [createOperator] returns for a region with a peer on either
    store. *)
Lemma createOperator_is_Some (r : core.RegionInfo) (srcStoreID dstStoreID : N) :
  is_Some (core.GetStorePeer r srcStoreID) \/ is_Some (core.GetStorePeer r dstStoreID) ->
  is_Some (createOperator createFails r srcStoreID dstStoreID).
Proof.
  unfold createOperator. intros [[p Hp] | [p Hp]].
  - destruct (core.GetStorePeer r dstStoreID); [by eexists |].
    rewrite Hp. cbn [mbind option_bind]. destruct (N.eqb _ _); by eexists.
  - rewrite Hp. by eexists.
Qed.

(** What [getRegion] returned. *)
Lemma getRegion_Some (bs : balanceSolver) (peerStat : statistics.HotPeerStat)
    (storeID : N) (r : core.RegionInfo) :
  getRegion IsRegionHealthyAllowPending IsRegionReplicated bs peerStat storeID = Some r ->
  GetRegion (cluster bs) (statistics.ID peerStat) = Some r
  /\ IsRegionHealthyAllowPending r = true
  /\ IsRegionReplicated (cluster bs) r = true
  /\ match opTy bs with
     | movePeer => is_Some (core.GetStorePeer r storeID)
     | transferLeader => metapb.GetStoreId (core.GetLeader r) = storeID
     | moveLeader => False
     end.
Proof.
  unfold getRegion, isRegionAvailable. cbn zeta.
  destruct (GetRegion (cluster bs) (statistics.ID peerStat)) as [r0 |]; [| done].
  destruct (IsRegionHealthyAllowPending r0) eqn:Hh; cbn [negb]; [| done].
  destruct (IsRegionReplicated (cluster bs) r0) eqn:Hr; cbn [negb]; [| done].
  destruct (opTy bs).
  - destruct (core.GetStorePeer r0 storeID) as [p |] eqn:Hp; [| done].
    intros [= <-]. by eauto.
  - destruct (N.eqb_spec (metapb.GetStoreId (core.GetLeader r0)) storeID);
      cbn [negb]; [| done].
    by intros [= <-].
  - done.
Qed.

(** X21.  A region that [getRegion] returns for a hot peer of a store
    is the region the cluster knows under the id of the peer, healthy
    and fully replicated.  In move-peer scheduling the store holds a
    peer of it, so that [createOperator] returns for it whatever the
    destination is, with a transfer of the leader exactly when the
    destination holds a peer of the region too.  In transfer-leader
    scheduling its leader is on the store, so that [createOperator]
    never asks for a move of a mere peer.  For any other kind of
    operation [getRegion] returns nil. *)
Theorem getRegion_sound (bs : balanceSolver) (peerStat : statistics.HotPeerStat)
    (storeID : N) (r : core.RegionInfo) :
  getRegion IsRegionHealthyAllowPending IsRegionReplicated bs peerStat storeID = Some r ->
  GetRegion (cluster bs) (statistics.ID peerStat) = Some r
  /\ IsRegionHealthyAllowPending r = true
  /\ IsRegionReplicated (cluster bs) r = true
  /\ match opTy bs with
     | movePeer =>
         is_Some (core.GetStorePeer r storeID)
         /\ forall dstStoreID,
              exists typ res,
                createOperator createFails r storeID dstStoreID = Some (typ, res)
                /\ (typ = operator.TypTransferLeader
                    <-> is_Some (core.GetStorePeer r dstStoreID))
     | transferLeader =>
         metapb.GetStoreId (core.GetLeader r) = storeID
         /\ forall dstStoreID typ res,
              createOperator createFails r storeID dstStoreID = Some (typ, res) ->
              typ <> operator.TypMovePeer
     | moveLeader => False
     end.
Proof.
  intros H. apply getRegion_Some in H as (Hreg & Hh & Hr & Hop).
  repeat (split; [done |]). destruct (opTy bs); [| | done].
  - split; [done |]. intros dstStoreID. destruct Hop as [p Hp].
    unfold createOperator.
    destruct (core.GetStorePeer r dstStoreID) as [q |].
    + eexists _, _. split; [done |]. split; [by eexists | done].
    + rewrite Hp. cbn [mbind option_bind].
      destruct (N.eqb _ _); eexists _, _; (split; [done |]);
        (split; [done | by intros [? ?]]).
  - split; [done |]. intros dstStoreID typ res. unfold createOperator.
    destruct (core.GetStorePeer r dstStoreID); [by intros [= <- _] |].
    destruct (core.GetStorePeer r storeID); cbn [mbind option_bind]; [| done].
    rewrite Hop, N.eqb_refl. by intros [= <- _].
Qed.

(** X22.  [buildOperators] returns, without a nil dereference, for
    every solution put together the way [solve] does: the main region
    obtained by [getRegion] for a hot peer of the source store; the
    revert region, if any, obtained by [getRegion] for a hot peer of
    the destination store and let through by [allowRevertRegion]; and,
    in transfer-leader scheduling, the leader of the main region being
    one of its peers. *)
Theorem buildOperators_of_getRegion (bs : balanceSolver)
    (src dst : statistics.StoreLoadDetail) (r : core.RegionInfo)
    (peerStat : statistics.HotPeerStat) :
  srcStore (cur bs) = Some src -> dstStore (cur bs) = Some dst ->
  region (cur bs) = Some r ->
  getRegion IsRegionHealthyAllowPending IsRegionReplicated bs peerStat (statistics.GetID src)
  = Some r ->
  (opTy bs = transferLeader ->
   exists p, core.GetLeader r = Some p /\ p ∈ core.GetPeers r) ->
  (forall rr, revertRegion (cur bs) = Some rr ->
     allowRevertRegion bs rr (statistics.GetID src) = true
     /\ exists revertPeerStat,
          getRegion IsRegionHealthyAllowPending IsRegionReplicated bs revertPeerStat
            (statistics.GetID dst) = Some rr) ->
  is_Some (buildOperators deref Between createFails bs).
Proof.
  intros Hsrc Hdst Hr Hget Hleader Hrevert.
  apply getRegion_Some in Hget as (_ & _ & _ & Hmain).
  assert (Hc1 : is_Some (createOperator createFails r (statistics.GetID src)
                           (statistics.GetID dst))).
  { apply createOperator_is_Some. left. destruct (opTy bs) eqn:Hop; [done | | done].
    destruct (Hleader eq_refl) as (p & Hp & Hin). rewrite Hp in Hmain. cbn in Hmain.
    rewrite <- Hmain. by apply GetStorePeer_of_peer. }
  assert (Hc2 : forall rr, revertRegion (cur bs) = Some rr ->
                  is_Some (createOperator createFails rr (statistics.GetID dst)
                             (statistics.GetID src))).
  { intros rr Hrr. destruct (Hrevert rr Hrr) as (Hallow & stat & Hget).
    apply getRegion_Some in Hget as (_ & _ & _ & Hrev).
    apply createOperator_is_Some. unfold allowRevertRegion in Hallow.
    destruct (opTy bs); [by left | | done].
    right. by apply bool_decide_eq_true in Hallow. }
  unfold buildOperators. cbn zeta.
  destruct (isReadyToBuild deref bs); cbn [negb]; [| by eexists].
  destruct (splitRegions bs); [| by eexists].
  rewrite Hsrc, Hdst, Hr. cbn [mbind option_bind].
  destruct Hc1 as [[typ [o |]] ->]; cbn [mbind option_bind snd fst]; [| by eexists].
  destruct (revertRegion (cur bs)) as [rr |]; [| by eexists].
  destruct (Hc2 rr eq_refl) as [[typ' [o' |]] ->]; cbn [mbind option_bind snd fst];
    by eexists.
Qed.

End GetRegionMore.

(** X21 applied to peer 1 of store 1, whose region 7 the cluster
    knows. *)
Lemma getRegion_sound_witness :
  let bs := ex.solver movePeer ex2.plain None [] 1000 in
  getRegion ex2.healthy ex2.replicated bs (ex.deref 1) 1 = Some ex.region7
  /\ GetRegion (cluster bs) (statistics.ID (ex.deref 1)) = Some ex.region7.
Proof.
  intros bs. split; [reflexivity |].
  exact (proj1 (getRegion_sound ex.neverFails ex2.healthy ex2.replicated bs
                  (ex.deref 1) 1 ex.region7 eq_refl)).
Defined.

(** X22 applied to the hedged move of region 7 with region 8 in
    return. *)
Lemma buildOperators_of_getRegion_witness :
  is_Some (buildOperators ex.deref ex.Between ex.neverFails
             (ex.solver movePeer (ex.hedged ex.store2) None [] 1000)).
Proof.
  apply (buildOperators_of_getRegion ex.deref ex.Between ex.neverFails
           ex2.healthy ex2.replicated _ ex.store1 ex.store2 ex.region7 (ex.deref 1));
    try reflexivity.
  - discriminate.
  - intros rr [= <-]. split; [reflexivity |]. by exists (ex.deref 2).
Defined.

Section StoresMore.

Variable deref : positive -> statistics.HotPeerStat.
Variable collectPendingInfluence : balanceSolver -> statistics.HotPeerStat -> statistics.Influence.
Variable confEnableForTiFlash : bool.
Variable confSrcToleranceRatio confDstToleranceRatio : Q.
Variable tiflashToleranceRatioCorrection : Q.
Variable checkSrc checkSrcHistory checkDst checkDstHistory :
  balanceSolver -> statistics.StoreLoadDetail -> Q -> bool.
Context {Filters : Type}.
Variable Target : Filters -> statistics.StoreLoadDetail -> bool.

(** What the loop of [filterSrcStores] checked of a store it took. *)
Lemma srcSelected_true (bs : balanceSolver) (detail : statistics.StoreLoadDetail) :
  srcSelected confEnableForTiFlash confSrcToleranceRatio tiflashToleranceRatioCorrection
    checkSrc checkSrcHistory bs detail = true ->
  statistics.HotPeers detail <> []
  /\ (statistics.IsTiFlash detail = true ->
      confEnableForTiFlash = true /\ rwTy bs = statistics.Write /\ opTy bs = movePeer)
  /\ let ratio :=
       if statistics.IsTiFlash detail
       then (confSrcToleranceRatio + tiflashToleranceRatioCorrection)%Q
       else confSrcToleranceRatio in
     checkSrc bs detail ratio = true /\ checkSrcHistory bs detail ratio = true.
Proof.
  unfold srcSelected. cbn zeta.
  assert (Hrest : forall ratio,
            (if Nat.eqb (length (statistics.HotPeers detail)) 0 then false
             else if negb (checkSrc bs detail ratio) then false
                  else if negb (checkSrcHistory bs detail ratio) then false else true)
            = true ->
            statistics.HotPeers detail <> []
            /\ checkSrc bs detail ratio = true /\ checkSrcHistory bs detail ratio = true).
  { intros ratio. destruct (statistics.HotPeers detail); [done |]. cbn [length Nat.eqb].
    destruct (checkSrc bs detail ratio); cbn [negb]; [| done].
    by destruct (checkSrcHistory bs detail ratio). }
  destruct (statistics.IsTiFlash detail).
  - destruct confEnableForTiFlash; cbn [negb]; [| done].
    destruct (rwTy bs); [| done]. destruct (opTy bs); [| done | done].
    intros H. apply Hrest in H as (? & ? & ?). by repeat split.
  - intros H. apply Hrest in H as (? & ? & ?). by repeat split.
Qed.

(** What the loop of [pickDstStores] checked of a store it took. *)
Lemma dstSelected_true (bs : balanceSolver) (filters : Filters)
    (detail : statistics.StoreLoadDetail) :
  dstSelected confEnableForTiFlash confDstToleranceRatio tiflashToleranceRatioCorrection
    checkDst checkDstHistory Target bs filters detail = true ->
  Target filters detail = true
  /\ (statistics.IsTiFlash detail = true ->
      confEnableForTiFlash = true /\ rwTy bs = statistics.Write /\ opTy bs = movePeer)
  /\ let ratio :=
       if statistics.IsTiFlash detail
       then (confDstToleranceRatio + tiflashToleranceRatioCorrection)%Q
       else confDstToleranceRatio in
     checkDst bs detail ratio = true /\ checkDstHistory bs detail ratio = true.
Proof.
  unfold dstSelected. cbn zeta.
  assert (Hrest : forall ratio,
            (if Target filters detail
             then if negb (checkDst bs detail ratio) then false
                  else if negb (checkDstHistory bs detail ratio) then false else true
             else false) = true ->
            Target filters detail = true
            /\ checkDst bs detail ratio = true /\ checkDstHistory bs detail ratio = true).
  { intros ratio. destruct (Target filters detail); [| done].
    destruct (checkDst bs detail ratio); cbn [negb]; [| done].
    by destruct (checkDstHistory bs detail ratio). }
  destruct (statistics.IsTiFlash detail).
  - destruct confEnableForTiFlash; cbn [negb]; [| done].
    destruct (rwTy bs); [| done]. destruct (opTy bs); [| done | done].
    intros H. apply Hrest in H as (? & ? & ?). by repeat split.
  - intros H. apply Hrest in H as (? & ? & ?). by repeat split.
Qed.

Lemma filterSrcStores_lookup (bs : balanceSolver)
    (stLoadDetail : gmap N statistics.StoreLoadDetail) (id : N)
    (detail : statistics.StoreLoadDetail) :
  filterSrcStores confEnableForTiFlash confSrcToleranceRatio
    tiflashToleranceRatioCorrection checkSrc checkSrcHistory bs stLoadDetail !! id
  = Some detail <->
  stLoadDetail !! id = Some detail
  /\ srcSelected confEnableForTiFlash confSrcToleranceRatio
       tiflashToleranceRatioCorrection checkSrc checkSrcHistory bs detail = true.
Proof.
  unfold filterSrcStores. rewrite lookup_omap.
  destruct (stLoadDetail !! id) as [d |]; cbn [mbind option_bind]; [| by split; [| intros []]].
  destruct (srcSelected _ _ _ _ _ bs d) eqn:Hsel.
  - split; [by intros [= <-] | by intros [[= <-] _]].
  - split; [done | intros [[= <-] ?]; congruence].
Qed.

Lemma pickDstStores_lookup (bs : balanceSolver) (filters : Filters)
    (candidates : list statistics.StoreLoadDetail) (id : N)
    (detail : statistics.StoreLoadDetail) :
  pickDstStores confEnableForTiFlash confDstToleranceRatio
    tiflashToleranceRatioCorrection checkDst checkDstHistory Target bs filters candidates
    !! id = Some detail ->
  detail ∈ candidates /\ statistics.GetID detail = id
  /\ dstSelected confEnableForTiFlash confDstToleranceRatio
       tiflashToleranceRatioCorrection checkDst checkDstHistory Target bs filters detail
     = true.
Proof.
  unfold pickDstStores.
  set (f := fun ret d => _).
  assert (Hgen : forall l acc,
            foldl f acc l !! id = Some detail ->
            acc !! id = Some detail
            \/ (detail ∈ l /\ statistics.GetID detail = id
                /\ dstSelected confEnableForTiFlash confDstToleranceRatio
                     tiflashToleranceRatioCorrection checkDst checkDstHistory Target
                     bs filters detail = true)).
  { induction l as [| d l IH]; intros acc; cbn [foldl]; [by left |].
    intros H. apply IH in H as [H | (Hin & Hid & Hsel)].
    - unfold f in H. destruct (dstSelected _ _ _ _ _ _ bs filters d) eqn:Hsel; [| by left].
      destruct (decide (statistics.GetID d = id)) as [Heq | Hne].
      + rewrite Heq, lookup_insert_eq in H. injection H as ->.
        right. split; [by left | done].
      + rewrite lookup_insert_ne in H by done. by left.
    - right. split; [by right | done]. }
  intros H. by apply Hgen in H as [H | H].
Qed.

(** X23.  A store is among the sources of [filterSrcStores] exactly
    when it is one of the load details and the loop takes it; it then
    has hot peers and passes both load checks.  A store among the
    destinations of [pickDstStores] is one of the candidates, is filed
    under its own id, is a target the filters accept and passes both
    load checks.  In both, a TiFlash store is only taken in write-peer
    scheduling with TiFlash enabled, and is then checked with the
    tolerance ratio raised by the TiFlash correction. *)
Theorem store_filters_sound (bs : balanceSolver)
    (stLoadDetail : gmap N statistics.StoreLoadDetail) (filters : Filters)
    (candidates : list statistics.StoreLoadDetail) :
  let srcs :=
    filterSrcStores confEnableForTiFlash confSrcToleranceRatio
      tiflashToleranceRatioCorrection checkSrc checkSrcHistory bs stLoadDetail in
  let dsts :=
    pickDstStores confEnableForTiFlash confDstToleranceRatio
      tiflashToleranceRatioCorrection checkDst checkDstHistory Target bs filters
      candidates in
  let tiflash detail :=
    statistics.IsTiFlash detail = true ->
    confEnableForTiFlash = true /\ rwTy bs = statistics.Write /\ opTy bs = movePeer in
  let ratio conf detail :=
    if statistics.IsTiFlash detail then (conf + tiflashToleranceRatioCorrection)%Q
    else conf in
  (forall id detail, srcs !! id = Some detail ->
     stLoadDetail !! id = Some detail /\ statistics.HotPeers detail <> []
     /\ tiflash detail
     /\ checkSrc bs detail (ratio confSrcToleranceRatio detail) = true
     /\ checkSrcHistory bs detail (ratio confSrcToleranceRatio detail) = true)
  /\ (forall id detail, stLoadDetail !! id = Some detail ->
        statistics.IsTiFlash detail = false -> statistics.HotPeers detail <> [] ->
        checkSrc bs detail confSrcToleranceRatio = true ->
        checkSrcHistory bs detail confSrcToleranceRatio = true ->
        srcs !! id = Some detail)
  /\ (forall id detail, dsts !! id = Some detail ->
        detail ∈ candidates /\ statistics.GetID detail = id
        /\ Target filters detail = true /\ tiflash detail
        /\ checkDst bs detail (ratio confDstToleranceRatio detail) = true
        /\ checkDstHistory bs detail (ratio confDstToleranceRatio detail) = true).
Proof.
  intros srcs dsts tiflash ratio. split; [| split].
  - intros id detail H. apply filterSrcStores_lookup in H as [Hm Hsel].
    apply srcSelected_true in Hsel as (Hhot & Hti & Hc & Hh).
    split; [done |]. split; [done |]. split; [exact Hti |]. split; [exact Hc | exact Hh].
  - intros id detail Hm Hti Hhot Hc Hh. apply filterSrcStores_lookup. split; [done |].
    unfold srcSelected. rewrite Hti, Hc, Hh. cbn [negb].
    by destruct (statistics.HotPeers detail).
  - intros id detail H. apply pickDstStores_lookup in H as (Hin & Hid & Hsel).
    apply dstSelected_true in Hsel as (Ht & Hti & Hc & Hh).
    split; [done |]. split; [done |]. split; [done |]. split; [exact Hti |].
    split; [exact Hc | exact Hh].
Qed.

(** X24.  A source store taken by [filterSrcStores] and a destination
    store taken by [pickDstStores] are of different engines only in
    write-peer scheduling with TiFlash enabled.  Anywhere else both are
    no TiFlash stores, and the engine check of
    [tryAddPendingInfluence] never stands in the way: for a best
    solution on these stores, a move as first operator is registered
    whenever its region is not pending. *)
Theorem stores_same_engine (bs : balanceSolver)
    (stLoadDetail : gmap N statistics.StoreLoadDetail) (filters : Filters)
    (candidates : list statistics.StoreLoadDetail) (srcID dstID : N)
    (src dst : statistics.StoreLoadDetail) :
  filterSrcStores confEnableForTiFlash confSrcToleranceRatio
    tiflashToleranceRatioCorrection checkSrc checkSrcHistory bs stLoadDetail !! srcID
  = Some src ->
  pickDstStores confEnableForTiFlash confDstToleranceRatio
    tiflashToleranceRatioCorrection checkDst checkDstHistory Target bs filters candidates
    !! dstID = Some dst ->
  (statistics.IsTiFlash src <> statistics.IsTiFlash dst ->
   confEnableForTiFlash = true /\ rwTy bs = statistics.Write /\ opTy bs = movePeer)
  /\ (confEnableForTiFlash = false \/ rwTy bs <> statistics.Write \/ opTy bs <> movePeer ->
      statistics.IsTiFlash src = false /\ statistics.IsTiFlash dst = false
      /\ forall solver b op0 rest regionPendings,
           best solver = Some b -> srcStore b = Some src -> dstStore b = Some dst ->
           is_Some (mainPeerStat b) -> ops solver = op0 :: rest ->
           operator.Kind_isSplit op0 = false ->
           regionPendings !! operator.RegionID op0 = None ->
           exists ok regionPendings',
             tryAddPendingInfluence deref collectPendingInfluence solver regionPendings
             = Some (ok, regionPendings')
             /\ is_Some (regionPendings' !! operator.RegionID op0)).
Proof.
  intros Hsrc Hdst.
  apply filterSrcStores_lookup in Hsrc as [_ Hsrc].
  apply srcSelected_true in Hsrc as (_ & Hts & _).
  apply pickDstStores_lookup in Hdst as (_ & _ & Hdst).
  apply dstSelected_true in Hdst as (_ & Htd & _).
  split.
  - intros Hne. destruct (statistics.IsTiFlash src); [by apply Hts |].
    destruct (statistics.IsTiFlash dst); [by apply Htd | done].
  - intros Hno.
    assert (Hs : statistics.IsTiFlash src = false).
    { destruct (statistics.IsTiFlash src); [| done].
      destruct (Hts eq_refl) as (? & ? & ?). by destruct Hno as [? | [? | ?]]; congruence. }
    assert (Hd : statistics.IsTiFlash dst = false).
    { destruct (statistics.IsTiFlash dst); [| done].
      destruct (Htd eq_refl) as (? & ? & ?). by destruct Hno as [? | [? | ?]]; congruence. }
    split; [done |]. split; [done |].
    intros solver b op0 rest rp Hbest Hbs Hbd [peer Hpeer] Hops Hk Hfresh.
    unfold tryAddPendingInfluence. rewrite Hbest, Hops, Hk, Hbs, Hbd.
    cbn [mbind option_bind]. rewrite Hs, Hd. cbn [eqb negb].
    assert (Hz : is_Some (calcMaxZombieDur solver b)).
    { unfold calcMaxZombieDur. rewrite Hbs. cbn [mbind option_bind].
      destruct (resourceTy solver); try (by eexists).
      - by destruct (statistics.IsTiFlash src); eexists.
      - by destruct (Nat.eqb _ _); eexists. }
    destruct Hz as [z ->]. cbn [mbind option_bind]. rewrite Hpeer.
    cbn [mbind option_bind].
    rewrite sche_tryAddPendingInfluence_true by done. cbn [negb].
    set (rp0 := <[operator.RegionID op0 := _]> rp).
    assert (H0 : is_Some (rp0 !! operator.RegionID op0)).
    { unfold rp0. rewrite lookup_insert_eq. by eexists. }
    destruct (revertPeerStat b); [| by eexists _, _].
    destruct rest as [| op1 rest]; [by eexists _, _ |].
    unfold sche_tryAddPendingInfluence.
    destruct (rp0 !! operator.RegionID op1) eqn:H1; cbn [negb]; [by eexists _, _ |].
    eexists _, _. split; [done |].
    destruct (decide (operator.RegionID op1 = operator.RegionID op0)) as [Heq | Hne].
    + rewrite Heq, lookup_insert_eq. by eexists.
    + by rewrite lookup_insert_ne.
Qed.

End StoresMore.

(** X24 applied to the stores 1 and 2, with TiFlash disabled. *)
Lemma stores_same_engine_witness :
  let bs := ex.solver transferLeader ex2.plain None [] 1000 in
  filterSrcStores false 1 (1 # 10) ex2.loadOk ex2.loadOk bs ex2.details !! 1%N
  = Some ex.store1
  /\ pickDstStores false 1 (1 # 10) ex2.loadOk ex2.loadOk ex2.anyTarget bs tt
       [ex.store2; ex.store9] !! 2%N = Some ex.store2
  /\ pickDstStores false 1 (1 # 10) ex2.loadOk ex2.loadOk ex2.anyTarget bs tt
       [ex.store2; ex.store9] !! 9%N = None
  /\ statistics.IsTiFlash ex.store1 = false /\ statistics.IsTiFlash ex.store2 = false.
Proof.
  intros bs.
  assert (Hsrc : filterSrcStores false 1 (1 # 10) ex2.loadOk ex2.loadOk bs ex2.details
                   !! 1%N = Some ex.store1) by (by vm_compute).
  assert (Hdst : pickDstStores false 1 (1 # 10) ex2.loadOk ex2.loadOk ex2.anyTarget bs tt
                   [ex.store2; ex.store9] !! 2%N = Some ex.store2) by (by vm_compute).
  split; [exact Hsrc |]. split; [exact Hdst |]. split; [by vm_compute |].
  destruct (proj2 (stores_same_engine ex.deref ex.collect false 1 1 (1 # 10)
                     ex2.loadOk ex2.loadOk ex2.loadOk ex2.loadOk ex2.anyTarget bs
                     ex2.details tt [ex.store2; ex.store9] 1%N 2%N ex.store1 ex.store2
                     Hsrc Hdst) (or_introl eq_refl)) as (Hs & Hd & _).
  split; [exact Hs | exact Hd].
Defined.

(** * Properties of a round of the scheduler *)

Section DispatchMore.

Context {StoreSummaryInfo : Type}.
Variable AddInfluence : StoreSummaryInfo -> statistics.Influence -> Q -> StoreSummaryInfo.
Variable deref : positive -> statistics.HotPeerStat.
Variable collectPendingInfluence : balanceSolver -> statistics.HotPeerStat -> statistics.Influence.
Variable betterThan : balanceSolver -> option solution -> bool.
Variable isForbidRWType : statistics.RWType -> bool.
Variable solved :
  statistics.RWType -> opType -> gmap N pendingInfluence -> gmap N StoreSummaryInfo ->
  balanceSolver.

(** A batch is only accepted when the region of its first operator
    was not pending. *)
Lemma tryAddPendingInfluence_true_fresh (bs : balanceSolver)
    (rp rp' : gmap N pendingInfluence) :
  tryAddPendingInfluence deref collectPendingInfluence bs rp = Some (true, rp') ->
  exists op0 rest,
    ops bs = op0 :: rest /\ rp !! operator.RegionID op0 = None
    /\ is_Some (rp' !! operator.RegionID op0).
Proof.
  intros H.
  destruct (tryAddPendingInfluence_true_first _ _ _ _ _ H) as (op0 & rest & Hops & Hin).
  apply tryAddPendingInfluence_shape in H as [[? _] | H]; [done |].
  destruct H as (op0' & rest' & e0 & Hops' & Hnone & _).
  exists op0, rest. split; [done |]. split; [congruence | done].
Qed.

Lemma balanceHotWrite_fresh (solver : balanceSolver) (rp rp' : gmap N pendingInfluence)
    (out : list operator.Operator) :
  balanceHotWrite deref collectPendingInfluence solver rp = Some (out, rp') ->
  rp ⊆ rp'
  /\ forall op0 rest, out = op0 :: rest ->
       rp !! operator.RegionID op0 = None /\ is_Some (rp' !! operator.RegionID op0).
Proof.
  intros H. apply balanceHotWrite_result in H as [Hsub [-> | [-> Htry]]].
  - split; [done |]. by intros op0 rest.
  - split; [done |]. intros op0 rest Hops.
    apply tryAddPendingInfluence_true_fresh in Htry as (op0' & rest' & Hops' & ? & ?).
    rewrite Hops in Hops'. by injection Hops' as <- <-.
Qed.

Lemma tryBoth_fresh (first second : balanceSolver) (rp rp' : gmap N pendingInfluence)
    (out : list operator.Operator) :
  tryBoth deref collectPendingInfluence first second rp = Some (out, rp') ->
  rp ⊆ rp'
  /\ forall op0 rest, out = op0 :: rest ->
       rp !! operator.RegionID op0 = None /\ is_Some (rp' !! operator.RegionID op0).
Proof.
  unfold tryBoth.
  destruct (tryAddPendingInfluence _ _ first rp) as [[[] rp0] |] eqn:H1; [| | discriminate].
  - intros [= <- <-]. split; [by eapply tryAddPendingInfluence_grows |].
    intros op0 rest Hops.
    apply tryAddPendingInfluence_true_fresh in H1 as (op0' & rest' & Hops' & ? & ?).
    rewrite Hops in Hops'. by injection Hops' as <- <-.
  - pose proof (tryAddPendingInfluence_grows _ _ _ _ _ _ H1) as Hsub1.
    destruct (tryAddPendingInfluence _ _ second rp0) as [[[] rp1] |] eqn:H2;
      [| | discriminate]; intros [= <- <-].
    + pose proof (tryAddPendingInfluence_grows _ _ _ _ _ _ H2) as Hsub2.
      split; [by etransitivity |]. intros op0 rest Hops.
      apply tryAddPendingInfluence_true_fresh in H2 as (op0' & rest' & Hops' & Hn & ?).
      rewrite Hops in Hops'. injection Hops' as <- <-. split; [| done].
      destruct (rp !! operator.RegionID op0) as [e |] eqn:He; [| done].
      by rewrite (lookup_weaken _ _ _ _ He Hsub1) in Hn.
    + pose proof (tryAddPendingInfluence_grows _ _ _ _ _ _ H2) as Hsub2.
      split; [by etransitivity |]. by intros op0 rest.
Qed.

(** X25.  A round of the scheduler first collects the ledger, also
    when the kind of load is forbidden, in which case it does nothing
    else.  What the ledger holds after the decay pass stays, and the
    round only adds to it.  Whenever the round emits operators, the
    region of the first one is pending afterwards and was not pending
    after the decay pass: it had no entry before the round, or an
    entry due for collection that the pass removed. *)
Theorem dispatch_ledger (now : Z) (typ : resourceType)
    (regionPendings regionPendings' : gmap N pendingInfluence)
    (storeInfos : gmap N StoreSummaryInfo) (out : list operator.Operator) :
  dispatch AddInfluence deref collectPendingInfluence betterThan isForbidRWType solved
    now typ regionPendings storeInfos = Some (out, regionPendings') ->
  let swept := (summaryPendingInfluence AddInfluence now regionPendings storeInfos).1 in
  swept ⊆ regionPendings /\ swept ⊆ regionPendings'
  /\ (isForbidRWType (match typ with
                      | readLeader | readPeer => statistics.Read
                      | _ => statistics.Write
                      end) = true ->
      out = [] /\ regionPendings' = swept)
  /\ (forall op0 rest, out = op0 :: rest ->
        is_Some (regionPendings' !! operator.RegionID op0)
        /\ swept !! operator.RegionID op0 = None
        /\ forall p, regionPendings !! operator.RegionID op0 = Some p ->
             needGC now p = true /\ froms p <> []).
Proof.
  intros H swept.
  assert (Hsub : swept ⊆ regionPendings).
  { apply map_subseteq_spec. intros id p Hp.
    by apply summaryPendingInfluence_ledger in Hp as [Hp _]. }
  assert (Hgone : forall id p, swept !! id = None -> regionPendings !! id = Some p ->
                    needGC now p = true /\ froms p <> []).
  { intros id p Hnone Hp.
    destruct (needGC now p) eqn:Hgc, (froms p) as [| f l] eqn:Hf; try done;
      exfalso; assert (Hin : swept !! id = Some p)
        by (apply summaryPendingInfluence_ledger; split; [done | congruence]);
      congruence. }
  assert (Hres : swept ⊆ regionPendings'
                 /\ (isForbidRWType (match typ with
                                     | readLeader | readPeer => statistics.Read
                                     | _ => statistics.Write
                                     end) = true ->
                     out = [] /\ regionPendings' = swept)
                 /\ forall op0 rest, out = op0 :: rest ->
                      swept !! operator.RegionID op0 = None
                      /\ is_Some (regionPendings' !! operator.RegionID op0)).
  { revert H. unfold dispatch. subst swept.
    destruct (summaryPendingInfluence AddInfluence now regionPendings storeInfos)
      as [rp1 infos1]. cbn [fst]. cbn zeta.
    assert (Hforbid : Some (@nil operator.Operator, rp1) = Some (out, regionPendings') ->
              rp1 ⊆ regionPendings'
              /\ (True -> out = [] /\ regionPendings' = rp1)
              /\ forall op0 rest, out = op0 :: rest ->
                   rp1 !! operator.RegionID op0 = None
                   /\ is_Some (regionPendings' !! operator.RegionID op0)).
    { intros [= <- <-]. split; [done |]. split; [done |]. by intros op0 rest. }
    assert (Hwrite : forall solver,
              balanceHotWrite deref collectPendingInfluence solver rp1
              = Some (out, regionPendings') ->
              rp1 ⊆ regionPendings'
              /\ (false = true -> out = [] /\ regionPendings' = rp1)
              /\ forall op0 rest, out = op0 :: rest ->
                   rp1 !! operator.RegionID op0 = None
                   /\ is_Some (regionPendings' !! operator.RegionID op0)).
    { intros solver Hw. apply balanceHotWrite_fresh in Hw as [? ?]. split; [done |]. split; done. }
    assert (Hread : forall leader peer,
              balanceHotReadRegions deref collectPendingInfluence betterThan leader peer rp1
              = Some (out, regionPendings') ->
              rp1 ⊆ regionPendings'
              /\ (false = true -> out = [] /\ regionPendings' = rp1)
              /\ forall op0 rest, out = op0 :: rest ->
                   rp1 !! operator.RegionID op0 = None
                   /\ is_Some (regionPendings' !! operator.RegionID op0)).
    { intros leader peer. unfold balanceHotReadRegions.
      destruct (ops leader) as [| lo ll], (ops peer) as [| po pl].
      - intros [= <- <-]. split; [done |]. split; [done |]. by intros op0 rest.
      - intros Hw. apply balanceHotWrite_fresh in Hw as [? ?]. split; [done |]. split; done.
      - intros Hw. apply balanceHotWrite_fresh in Hw as [? ?]. split; [done |]. split; done.
      - destruct (betterThan leader (best peer)); intros Hb;
          apply tryBoth_fresh in Hb as [? ?]; (split; [done |]); split; done. }
    destruct typ.
    - destruct (isForbidRWType statistics.Write); [intros Hf | apply Hwrite].
      destruct (Hforbid Hf) as (? & Hx & ?). split; [done |]. split; [| done].
      intros _. by apply Hx.
    - destruct (isForbidRWType statistics.Write); [intros Hf | apply Hwrite].
      destruct (Hforbid Hf) as (? & Hx & ?). split; [done |]. split; [| done].
      intros _. by apply Hx.
    - destruct (isForbidRWType statistics.Read); [intros Hf | apply Hread].
      destruct (Hforbid Hf) as (? & Hx & ?). split; [done |]. split; [| done].
      intros _. by apply Hx.
    - destruct (isForbidRWType statistics.Read); [intros Hf | apply Hread].
      destruct (Hforbid Hf) as (? & Hx & ?). split; [done |]. split; [| done].
      intros _. by apply Hx. }
  destruct Hres as (Hsub' & Hforbid & Hfirst).
  split; [done |]. split; [done |]. split; [done |].
  intros op0 rest Hout. destruct (Hfirst op0 rest Hout) as [Hnone Hin].
  split; [done |]. split; [done |]. intros p Hp. by eapply Hgone.
Qed.

End DispatchMore.

(** X25 applied to a write-peer round on a ledger whose operators all
    ended long ago: the pass empties the ledger, and the hedged move
    of region 7 is emitted and registered. *)
Lemma dispatch_ledger_witness :
  dispatch ex.countInfluence ex.deref ex.collect ex2.better ex2.allowed
    (fun _ _ _ _ => ex.hedgedSolver ex.store2) 100 writePeer ex2.ledgerEnded ex.zeroInfos
  = Some (ex.hedgedOps,
          <[ 8%N := newPendingInfluence ex.revertOp [1%N] 2 (ex.infl 90) 30 ]>
            (<[ 7%N := ex.mainEntry ]> ∅))
  /\ needGC 100 (ex.entry 7 operator.SUCCESS 10 [1%N] 2) = true.
Proof.
  assert (H : dispatch ex.countInfluence ex.deref ex.collect ex2.better ex2.allowed
                (fun _ _ _ _ => ex.hedgedSolver ex.store2) 100 writePeer ex2.ledgerEnded
                ex.zeroInfos
              = Some (ex.mainOp :: [ex.revertOp],
                      <[ 8%N := newPendingInfluence ex.revertOp [1%N] 2 (ex.infl 90) 30 ]>
                        (<[ 7%N := ex.mainEntry ]> ∅))) by (by vm_compute).
  split; [exact H |].
  destruct (dispatch_ledger _ _ _ _ _ _ _ _ _ _ _ _ H) as (_ & _ & _ & Hfirst).
  destruct (Hfirst ex.mainOp [ex.revertOp] eq_refl) as (_ & _ & Hgone).
  refine (proj1 (Hgone (ex.entry 7 operator.SUCCESS 10 [1%N] 2) _)). by vm_compute.
Defined.

(** * From the search to the next round *)

Section NextRound.

Variable deref : positive -> statistics.HotPeerStat.
Variable Between : core.Key -> core.Key -> core.Key -> bool.
Variable createFails : core.RegionInfo -> operator.OpStep -> bool.
Variable collectPendingInfluence : balanceSolver -> statistics.HotPeerStat -> statistics.Influence.
Variable filterUniformStore : balanceSolver -> bool.
Variable isAvailable : balanceSolver -> solution -> bool.
Variable betterThan : balanceSolver -> option solution -> bool.
Variable sortSlice : (positive -> positive -> bool) -> list positive -> list positive.

(** An accepted batch of two moves with a revert peer has both its
    regions pending. *)
Lemma tryAddPendingInfluence_true_second (bs : balanceSolver) (b : solution)
    (op0 op1 : operator.Operator) (rest : list operator.Operator)
    (rp rp' : gmap N pendingInfluence) :
  tryAddPendingInfluence deref collectPendingInfluence bs rp = Some (true, rp') ->
  best bs = Some b -> ops bs = op0 :: op1 :: rest ->
  operator.Kind_isSplit op0 = false -> is_Some (revertPeerStat b) ->
  is_Some (rp' !! operator.RegionID op1).
Proof.
  intros H Hbest Hops Hk [rpeer Hrpeer]. revert H.
  unfold tryAddPendingInfluence. rewrite Hbest, Hops, Hk, Hrpeer.
  case_bind (srcStore b) as [src |].
  case_bind (dstStore b) as [dst |].
  destruct (eqb _ _); cbn [negb]; [| discriminate].
  case_bind (calcMaxZombieDur bs b) as [z |].
  case_bind (mainPeerStat b) as [peer |].
  destruct (sche_tryAddPendingInfluence rp _ _ _ _ _) as [[] rp0]; cbn [negb];
    [| discriminate].
  unfold sche_tryAddPendingInfluence.
  destruct (rp0 !! operator.RegionID op1); cbn [negb]; [discriminate |].
  intros [= <-]. rewrite lookup_insert_eq. by eexists.
Qed.

(** X26.  When [solve] ends with a batch of moves and the ledger
    accepts it, the first operator is on the region of the main hot
    peer of the best solution and a second operator on the region of
    its revert peer.  From then on, and as long as their entries are
    in the ledger, [filterHotPeers] returns neither of the two peers
    for any store: the next rounds do not schedule them again. *)
Theorem solving_peers_pending (bs : balanceSolver) (b : solution)
    (op0 : operator.Operator) (rest : list operator.Operator)
    (rp rp' : gmap N pendingInfluence) :
  solving deref Between createFails filterUniformStore isAvailable betterThan bs ->
  best bs = Some b -> ops bs = op0 :: rest -> operator.Kind_isSplit op0 = false ->
  tryAddPendingInfluence deref collectPendingInfluence bs rp = Some (true, rp') ->
  exists mainPeer,
    mainPeerStat b = Some mainPeer
    /\ operator.RegionID op0 = statistics.ID (deref mainPeer)
    /\ (forall op1 rest', rest = op1 :: rest' ->
          exists revertPeer,
            revertPeerStat b = Some revertPeer
            /\ operator.RegionID op1 = statistics.ID (deref revertPeer))
    /\ forall rp2 fuel bs2 storeLoad ret nth,
         rp' ⊆ rp2 ->
         filterHotPeers deref sortSlice fuel bs2 rp2 storeLoad = Some (ret, nth) ->
         (mainPeer ∉ ret)
         /\ forall revertPeer,
              rest <> [] -> revertPeerStat b = Some revertPeer -> revertPeer ∉ ret.
Proof.
  intros Hs Hbest Hops Hk Htry.
  apply solving_invariant in Hs as [_ Hb].
  destruct (Hb b Hbest) as [Hbuild | (r & _ & _ & _ & Hsplit)].
  2: { rewrite (createSplitOperator_kind Between createFails (withCur bs b) [r] byLoad op0)
         in Hk; [done |]. rewrite Hsplit, Hops. by left. }
  destruct (buildOperators _ _ _ (withCur bs b)) as [[l c] |] eqn:Hl; [| done].
  injection Hbuild as Hl'. rewrite Hops in Hl'. subst l.
  apply buildOperators_cases in Hl
    as [[? _] | [(_ & _ & Hc) | (Hready & _ & _ & Hmove)]]; [done | |].
  { pose proof (createSplitOperator_kind Between createFails (withCur bs b)
                  (splitRegions (withCur bs b)) bySize op0) as Hsp.
    rewrite Hc in Hsp. rewrite Hsp in Hk; [done | by left]. }
  apply isReadyToBuild_true in Hready
    as (src' & dst' & mainPeer & r' & Hsrc & Hdst & Hmp & Hr & _ & Hid & Hrev).
  destruct Hmove as (src & dst & r & typ & o & Hsrc2 & Hdst2 & Hr2 & Hc1 & Hopsb).
  cbn [cur withCur] in *.
  rewrite Hr in Hr2. injection Hr2 as <-.
  apply createOperator_step in Hc1 as (Hid1 & _ & _).
  assert (Hfirst : operator.RegionID op0 = statistics.ID (deref mainPeer)).
  { destruct (revertRegion b) as [rr |];
      [destruct Hopsb as (typ' & o' & _ & Hopsb) |]; injection Hopsb as -> _;
      cbn [operator.RegionID decorateOperator]; congruence. }
  assert (Hsecond : forall op1 rest', rest = op1 :: rest' ->
            exists revertPeer,
              revertPeerStat b = Some revertPeer
              /\ operator.RegionID op1 = statistics.ID (deref revertPeer)).
  { intros op1 rest' ->. destruct (revertRegion b) as [rr |]; [| by injection Hopsb].
    destruct Hopsb as (typ' & o' & Hc2 & Hopsb). injection Hopsb as _ -> _.
    apply createOperator_step in Hc2 as (Hid2 & _ & _).
    destruct (revertPeerStat b) as [revertPeer |]; [| done].
    destruct Hrev as (rr' & [= <-] & _ & Hidr). exists revertPeer. split; [done |].
    cbn [operator.RegionID decorateOperator]. congruence. }
  exists mainPeer. split; [done |]. split; [done |]. split; [done |].
  intros rp2 fuel bs2 storeLoad ret nth Hsub Hfilter.
  apply filterHotPeers_filter in Hfilter as [candidates ->].
  assert (Hout : forall p id, statistics.ID (deref p) = id -> is_Some (rp' !! id) ->
                   p ∉ List.filter (admissible deref bs2 rp2) candidates).
  { intros p id Hp [e He] Hin.
    apply list_elem_of_In, filter_In in Hin as [_ Hin].
    apply admissible_spec in Hin as [Hnone _].
    rewrite Hp, (lookup_weaken _ _ _ _ He Hsub) in Hnone. done. }
  split.
  - apply (Hout mainPeer (operator.RegionID op0)); [done |].
    destruct (tryAddPendingInfluence_true_first _ _ _ _ _ Htry) as (? & ? & Hops' & ?).
    rewrite Hops in Hops'. by injection Hops' as <- _.
  - intros revertPeer Hrest Hrp. destruct rest as [| op1 rest']; [done |].
    destruct (Hsecond op1 rest' eq_refl) as (revertPeer' & Hrp' & Hid2).
    rewrite Hrp in Hrp'. injection Hrp' as <-.
    apply (Hout revertPeer (operator.RegionID op1)); [done |].
    eapply tryAddPendingInfluence_true_second; try done; by rewrite Hrp.
Qed.

End NextRound.

(** X26 applied to the hedged move of region 7 with region 8 in
    return, on an empty ledger: store 1 then has no hot peer left to
    schedule. *)
Lemma solving_peers_pending_witness :
  let rp' : gmap N pendingInfluence :=
    <[ 8%N := newPendingInfluence ex.revertOp [1%N] 2 (ex.infl 90) 30 ]>
      (<[ 7%N := ex.mainEntry ]> ∅) in
  tryAddPendingInfluence ex.deref ex.collect (ex.hedgedSolver ex.store2) ∅
  = Some (true, rp')
  /\ filterHotPeers ex.deref ex.sortSlice 0 (ex.hedgedSolver ex.store2) rp' ex.store1
     = Some ([], [])
  /\ exists mainPeer,
       mainPeerStat (ex.hedged ex.store2) = Some mainPeer
       /\ operator.RegionID ex.mainOp = statistics.ID (ex.deref mainPeer).
Proof.
  intros rp'.
  assert (Htry : tryAddPendingInfluence ex.deref ex.collect (ex.hedgedSolver ex.store2) ∅
                 = Some (true, rp')) by (by vm_compute).
  split; [exact Htry |]. split; [by vm_compute |].
  destruct (solving_peers_pending ex.deref ex.Between ex.neverFails ex.collect
              ex2.notUniform ex2.available ex2.better ex.sortSlice
              (ex.hedgedSolver ex.store2) (ex.hedged ex.store2) ex.mainOp [ex.revertOp]
              ∅ rp') as (mainPeer & Hmp & Hid & _).
  - apply (solving_update _ _ _ _ _ _
             (ex.solver movePeer (ex.hedged ex.store2) None [] 1000));
      [apply solving_start; reflexivity | reflexivity].
  - reflexivity.
  - reflexivity.
  - reflexivity.
  - exact Htry.
  - by exists mainPeer.
Defined.

(** * A round never submits a batch in part *)

Section RoundMore.

Context {StoreSummaryInfo : Type}.
Variable AddInfluence : StoreSummaryInfo -> statistics.Influence -> Q -> StoreSummaryInfo.
Variable deref : positive -> statistics.HotPeerStat.
Variable Between : core.Key -> core.Key -> core.Key -> bool.
Variable createFails : core.RegionInfo -> operator.OpStep -> bool.
Variable sortSlice : (positive -> positive -> bool) -> list positive -> list positive.
Variable collectPendingInfluence : balanceSolver -> statistics.HotPeerStat -> statistics.Influence.
Variable filterUniformStore : balanceSolver -> bool.
Variable isAvailable : balanceSolver -> solution -> bool.
Variable betterThan : balanceSolver -> option solution -> bool.
Variable isForbidRWType : statistics.RWType -> bool.
Variable solved :
  statistics.RWType -> opType -> gmap N pendingInfluence -> gmap N StoreSummaryInfo ->
  balanceSolver.










End RoundMore.

